(** * Thurin SDK: credential decryption, parsing and witness assembly

    A shallow embedding of the TypeScript sources
    [sdk/src/credential/hpke.ts], [sdk/src/credential/parse.ts],
    [sdk/src/prover/prover.ts] and [sdk/src/contract/index.ts]. The HPKE
    module is the one that [credential/request.ts] imports as [./hpke.js];
    in the source tree its text follows the contract index in
    [sdk/src/contract/index.ts], and line numbers of HPKE functions refer
    to that file.

    Conventions of the embedding.
    - A [Uint8Array] is a [list byte]; its [length] is the list length.
    - A JavaScript string is the Rocq [string] of its UTF-8 code units, so
      that [TextEncoder.encode] is the list of its characters as bytes.
    - [async] functions are sequential computations in the [result] monad;
      a rejected promise and a thrown exception are both [Throw].
    - Where the source passes a decoded value at the declared type
      [Uint8Array] or [string] (an [as] cast, or an untyped value handed to
      a typed parameter), the embedding checks the kind of the value at
      that point ([as_Uint8Array], [as_string]) and throws a [TypeError]
      for another kind, where the running code would go on with an
      ill-typed value. The properties below are stated for values of the
      declared types or hold on either reading.
    - Library and platform functions whose code is not part of the
      repository (cborg, WebCrypto, Barretenberg) are fields of the
      interfaces [Cborg], [WebCrypto] and [Barretenberg]. *)

From Stdlib Require Import ZArith NArith Lia List String Ascii.
From Stdlib.Strings Require Import Byte.
From stdpp Require Import base list strings gmap pretty.
Import ListNotations.

Abbreviation Uint8Array := (list byte).

(* ================================================================== *)
(** * Part I. Definitions *)
(* ================================================================== *)

(** ** Exceptions and the result monad *)

(** [CredentialErrorCode] of [credential/types.ts]. *)
Inductive CredentialErrorCode : Set :=
| NOT_SUPPORTED
| USER_CANCELLED
| NO_CREDENTIAL
| PARSE_ERROR
| INVALID_CLAIM
| EXPIRED
| UNKNOWN.


(** What a [throw] can carry: a [CredentialError], any other instance of
    [Error] (TypeError, RangeError, DOMException, a library error), or a
    value that is not an [Error]. *)
Inductive Thrown : Type :=
| CredentialError (message : string) (code : CredentialErrorCode)
| JsError (name message : string)
| NonError.

Inductive result (A : Type) : Type :=
| Ok (a : A)
| Throw (t : Thrown).
Arguments Ok {A} a.
Arguments Throw {A} t.

#[global] Instance result_ret : MRet result := fun A a => Ok a.
#[global] Instance result_bind : MBind result := fun A B f m =>
  match m with
  | Ok a => f a
  | Throw t => Throw t
  end.

(** [try { body } catch (error) { handler }]. *)
Definition try_catch {A} (body : result A) (handler : Thrown -> result A) : result A :=
  match body with
  | Ok a => Ok a
  | Throw t => handler t
  end.

(** [error instanceof CredentialError]. *)
Definition is_CredentialError (t : Thrown) : bool :=
  match t with
  | CredentialError _ _ => true
  | _ => false
  end.

(** [error instanceof Error ? error.message : 'Unknown error']. *)
Definition error_message (t : Thrown) : string :=
  match t with
  | CredentialError m _ => m
  | JsError _ m => m
  | NonError => "Unknown error"
  end.

Definition TypeError (message : string) : Thrown := JsError "TypeError" message.
Definition RangeError (message : string) : Thrown := JsError "RangeError" message.

(** ** Typed arrays and strings *)

(** [new Uint8Array(n)]: [n] zero bytes. *)
Definition Uint8Array_new (n : nat) : Uint8Array := replicate n x00.

(** [b.slice(start, end)] for non-negative indices. *)
Definition u8_slice (b : Uint8Array) (start stop : nat) : Uint8Array :=
  take (stop - start) (drop start b).

(** [target.set(src, offset)]: copies [src] into [target] at [offset];
    a source that does not fit raises [RangeError]. *)
Definition u8_set (target src : Uint8Array) (offset : nat) : result Uint8Array :=
  if decide (offset + length src <= length target) then
    Ok (take offset target ++ src ++ drop (offset + length src) target)
  else Throw (RangeError "offset is out of bounds").

(** [new TextEncoder().encode(str)]. *)
Definition TextEncoder_encode (str : string) : Uint8Array := list_byte_of_string str.

(** ** [credential/parse.ts]: fixed-width buffers *)

(** [stringToBytes(str, size)]. *)
Definition stringToBytes (str : string) (size : nat) : result Uint8Array :=
  let bytes := TextEncoder_encode str in
  let result := Uint8Array_new size in
  u8_set result (u8_slice bytes 0 size) 0.

(** [padToSize(bytes, size)]. *)
Definition padToSize (bytes : Uint8Array) (size : nat) : result Uint8Array :=
  if decide (length bytes = size) then Ok bytes
  else
    let result := Uint8Array_new size in
    u8_set result (u8_slice bytes 0 size) 0.

(** ** [prover/prover.ts]: field-element padding *)

(** [padTo32Bytes(input)]. *)
Definition padTo32Bytes (input : Uint8Array) : result Uint8Array :=
  if decide (32 <= length input) then Ok (u8_slice input 0 32)
  else
    let padded := Uint8Array_new 32 in
    u8_set padded input (32 - length input).

(** ** Bytes and integers *)

Definition byte_to_Z (b : byte) : Z := Z.of_N (Byte.to_N b).

(** The byte of an integer, modulo 256. *)
Definition byte_of_Z (z : Z) : byte :=
  default x00 (Byte.of_N (Z.to_N (z mod 256))).

(** The unsigned big-endian integer held by a byte array. *)
Definition be_Z (bs : Uint8Array) : Z :=
  fold_left (fun acc b => 256 * acc + byte_to_Z b)%Z bs 0%Z.

(** ** Keccak-256 (the hash behind viem's [keccak256])

    Keccak-f[1600] on 25 lanes of 64 bits, rate 136 bytes, padding
    [0x01 .. 0x80], 32 bytes of output. A lane is a [Z] below [2^64]. *)
Module Keccak.
Local Open Scope Z_scope.

Definition mask64 : Z := 2 ^ 64 - 1.

Definition rotl (n : Z) (x : Z) : Z :=
  Z.land (Z.lor (Z.shiftl x n) (Z.shiftr x (64 - n))) mask64.

Definition round_constants : list Z :=
  [ 0x0000000000000001; 0x0000000000008082; 0x800000000000808A;
    0x8000000080008000; 0x000000000000808B; 0x0000000080000001;
    0x8000000080008081; 0x8000000000008009; 0x000000000000008A;
    0x0000000000000088; 0x0000000080008009; 0x000000008000000A;
    0x000000008000808B; 0x800000000000008B; 0x8000000000008089;
    0x8000000000008003; 0x8000000000008002; 0x8000000000000080;
    0x000000000000800A; 0x800000008000000A; 0x8000000080008081;
    0x8000000000008080; 0x0000000080000001; 0x8000000080008008 ].

(** Rotation offsets, lane [(x, y)] at index [x + 5 * y]. *)
Definition rotation_offsets : list Z :=
  [  0;  1; 62; 28; 27;
    36; 44;  6; 55; 20;
     3; 10; 43; 25; 39;
    41; 45; 15; 21;  8;
    18;  2; 61; 56; 14 ].

Definition lane (A : list Z) (x y : nat) : Z :=
  nth (x mod 5 + 5 * (y mod 5))%nat A 0.

Definition theta (A : list Z) : list Z :=
  let C x := Z.lxor (lane A x 0) (Z.lxor (lane A x 1) (Z.lxor (lane A x 2)
               (Z.lxor (lane A x 3) (lane A x 4)))) in
  let D x := Z.lxor (C (x + 4)%nat) (rotl 1 (C (x + 1)%nat)) in
  map (fun i => Z.lxor (lane A (i mod 5) (i / 5)) (D (i mod 5)%nat)) (seq 0 25).

Definition rho_pi (A : list Z) : list Z :=
  map (fun i =>
         let X := (i mod 5)%nat in
         let Y := (i / 5)%nat in
         let x := ((X + 3 * Y) mod 5)%nat in
         let y := X in
         rotl (nth (x + 5 * y)%nat rotation_offsets 0) (lane A x y))
      (seq 0 25).

Definition chi (B : list Z) : list Z :=
  map (fun i =>
         let x := (i mod 5)%nat in
         let y := (i / 5)%nat in
         Z.lxor (lane B x y)
           (Z.land (Z.lxor (lane B (x + 1) y) mask64) (lane B (x + 2) y)))
      (seq 0 25).

Definition iota (rc : Z) (A : list Z) : list Z :=
  match A with
  | a :: A' => Z.lxor a rc :: A'
  | [] => []
  end.

Definition round (A : list Z) (rc : Z) : list Z :=
  iota rc (chi (rho_pi (theta A))).

Definition keccak_f (A : list Z) : list Z := fold_left round round_constants A.

Definition rate : nat := 136.

(** Lanes are little-endian. *)
Definition lane_of_bytes (bs : Uint8Array) : Z :=
  fold_right (fun b acc => byte_to_Z b + 256 * acc) 0 bs.

Definition bytes_of_lane (w : Z) : Uint8Array :=
  map (fun i => byte_of_Z (Z.shiftr w (8 * Z.of_nat i))) (seq 0 8).

Fixpoint lanes_of_block (n : nat) (block : Uint8Array) : list Z :=
  match n with
  | O => []
  | S n' => lane_of_bytes (take 8 block) :: lanes_of_block n' (drop 8 block)
  end.

Definition xor_block (A : list Z) (block : Uint8Array) : list Z :=
  zip_with Z.lxor A (lanes_of_block 17 block ++ replicate 8 0).

Fixpoint absorb (blocks : nat) (A : list Z) (msg : Uint8Array) : list Z :=
  match blocks with
  | O => A
  | S n => absorb n (keccak_f (xor_block A (take rate msg))) (drop rate msg)
  end.

Definition pad (msg : Uint8Array) : Uint8Array :=
  let q := (rate - length msg mod rate)%nat in
  if decide (q = 1%nat) then msg ++ [x81]
  else msg ++ [x01] ++ replicate (q - 2) x00 ++ [x80].

Definition keccak_256 (msg : Uint8Array) : Uint8Array :=
  let p := pad msg in
  let A := absorb (length p / rate) (replicate 25 0) p in
  take 32 (concat (map bytes_of_lane A)).
End Keccak.

(** ** The helpers of viem and of the language that the prover calls *)

Definition hex_digit (n : nat) : ascii :=
  nth n (list_ascii_of_string "0123456789abcdef") "0"%char.

Definition hex_of_byte (b : byte) : list ascii :=
  let n := N.to_nat (Byte.to_N b) in
  [hex_digit (n / 16); hex_digit (n mod 16)].

(** viem [bytesToHex], which [toHex] applies to a byte array. *)
Definition bytesToHex (value : Uint8Array) : string :=
  String "0" (String "x" (string_of_list_ascii (concat (map hex_of_byte value)))).

(** viem [stringToHex], which [toHex] applies to a string. *)
Definition stringToHex (value : string) : string :=
  bytesToHex (TextEncoder_encode value).

(** viem [charCodeToBase16]. *)
Definition charCodeToBase16 (c : ascii) : option nat :=
  let char := nat_of_ascii c in
  if decide (48 <= char /\ char <= 57) then Some (char - 48)
  else if decide (65 <= char /\ char <= 70) then Some (char - (65 - 10))
  else if decide (97 <= char /\ char <= 102) then Some (char - (97 - 10))
  else None.

Definition InvalidByteSequence : Thrown := JsError "BaseError" "Invalid byte sequence".

(** The loop of viem [hexToBytes] over the pairs of hex characters. *)
Fixpoint hex_pairs (cs : list ascii) : result Uint8Array :=
  match cs with
  | [] => Ok []
  | [_] => Throw InvalidByteSequence
  | l :: r :: rest =>
      match charCodeToBase16 l, charCodeToBase16 r with
      | Some nibbleLeft, Some nibbleRight =>
          bs ← hex_pairs rest;
          Ok (byte_of_Z (Z.of_nat (nibbleLeft * 16 + nibbleRight)) :: bs)
      | _, _ => Throw InvalidByteSequence
      end
  end.

(** viem [hexToBytes]: drops the two-character prefix, pads an odd number
    of digits with a leading zero, and reads the pairs. *)
Definition hexToBytes (hex : string) : result Uint8Array :=
  let hexString := drop 2 (list_ascii_of_string hex) in
  let hexString :=
    if decide (length hexString mod 2 = 0) then hexString else "0"%char :: hexString in
  hex_pairs hexString.

(** viem [keccak256] on a hex string: hashes the bytes that the string
    denotes and returns the digest as a hex string. *)
Definition keccak256 (value : string) : result string :=
  bs ← hexToBytes value;
  Ok (bytesToHex (Keccak.keccak_256 bs)).

(** [BigInt(s)] for a [0x] literal. *)
Fixpoint hex_value (acc : Z) (cs : list ascii) : result Z :=
  match cs with
  | [] => Ok acc
  | c :: cs' =>
      match charCodeToBase16 c with
      | Some d => hex_value (16 * acc + Z.of_nat d)%Z cs'
      | None => Throw (JsError "SyntaxError" "Cannot convert to a BigInt")
      end
  end.

Definition BigInt_of_hex (s : string) : result Z :=
  match list_ascii_of_string s with
  | "0"%char :: "x"%char :: d :: ds => hex_value 0%Z (d :: ds)
  | _ => Throw (JsError "SyntaxError" "Cannot convert to a BigInt")
  end.

(** [n.toString(16)] for a non-negative [n]. *)
Fixpoint to_hex_digits (fuel : nat) (n : Z) (acc : list ascii) : list ascii :=
  match fuel with
  | O => acc
  | S fuel' =>
      let acc' := hex_digit (Z.to_nat (n mod 16)) :: acc in
      if (n <? 16)%Z then acc' else to_hex_digits fuel' (n / 16)%Z acc'
  end.

Definition toString16 (n : Z) : string :=
  string_of_list_ascii (to_hex_digits (S (Z.to_nat (Z.log2 n))) n []).

(** [s.padStart(width, '0')]. *)
Definition padStart0 (width : nat) (s : string) : string :=
  string_of_list_ascii
    (replicate (width - String.length s) "0"%char ++ list_ascii_of_string s).

(** [s.toLowerCase()] on ASCII letters. *)
Definition toLowerCase (s : string) : string :=
  string_of_list_ascii
    (map (fun c => let n := nat_of_ascii c in
                   if decide (65 <= n /\ n <= 90) then ascii_of_nat (n + 32) else c)
         (list_ascii_of_string s)).

(** ** [contract/index.ts] *)

Module Contract.
(** The exported [hashEventId(eventId)]. *)
Definition hashEventId (eventId : string) : result string :=
  keccak256 (stringToHex eventId).
End Contract.

(** ** [prover/prover.ts] *)

(** The Barretenberg API object [bb]. *)
Class Barretenberg : Type := {
  poseidon2Hash : list Uint8Array -> result Uint8Array
}.

(** [Credential] of [prover/types.ts]. *)
Record Credential : Type := {
  msoBytes : Uint8Array;
  msoSignature : Uint8Array;
  ageOver21ClaimBytes : Uint8Array;
  ageOver18ClaimBytes : Uint8Array;
  stateClaimBytes : Uint8Array;
  documentNumber : Uint8Array;
  iacaPubkeyX : Uint8Array;
  iacaPubkeyY : Uint8Array
}.

(** [ProofGenerationOptions] of [prover/types.ts]; an absent optional
    field is [None]. *)
Record ProofGenerationOptions : Type := {
  eventId : string;
  boundAddress : string;
  timestamp : option Z;
  proveAgeOver21 : option bool;
  proveAgeOver18 : option bool;
  proveState : option bool
}.

(** The object that [buildWitnessInputs] returns. *)
Record WitnessInputs : Type := {
  nullifier : string;
  proof_timestamp : Z;
  event_id : string;
  iaca_root : string;
  bound_address : string;
  prove_age_over_21 : bool;
  prove_age_over_18 : bool;
  prove_state : bool;
  proven_state : list byte;
  mso_bytes : list byte;
  mso_signature : list byte;
  age_over_21_claim_bytes : list byte;
  age_over_18_claim_bytes : list byte;
  state_claim_bytes : list byte;
  document_number : list byte;
  iaca_pubkey_x : list byte;
  iaca_pubkey_y : list byte
}.

Definition STATE_CODE_OFFSET : nat := 66.

Definition BN254_MODULUS : Z :=
  21888242871839275222246405745257275088548364400416034343698204186575808495617%Z.

Module Prover.
(** The module-private [hashEventId(eventId)]. *)
Definition hashEventId (eventId : string) : result string :=
  hash ← keccak256 (stringToHex eventId);
  hashBigInt ← BigInt_of_hex hash;
  let reduced := (hashBigInt mod BN254_MODULUS)%Z in
  Ok (String "0" (String "x" (padStart0 64 (toString16 reduced)))).
End Prover.

(** [addressToField(address)]. *)
Definition addressToField (address : string) : string :=
  String "0" (String "x"
    (padStart0 64 (toLowerCase (string_of_list_ascii (drop 2 (list_ascii_of_string address)))))).

Section WitnessBuilder.
Context {bb : Barretenberg}.

(** [computeIacaRoot(bb, pubkeyX, pubkeyY)]. *)
Definition computeIacaRoot (pubkeyX pubkeyY : Uint8Array) : result string :=
  x ← padTo32Bytes pubkeyX;
  y ← padTo32Bytes pubkeyY;
  hash ← poseidon2Hash [x; y];
  Ok (bytesToHex hash).

(** [computeNullifier(bb, documentNumber, eventId, iacaRoot)]. *)
Definition computeNullifier (documentNumber : Uint8Array) (eventId iacaRoot : string)
  : result string :=
  d ← padTo32Bytes documentNumber;
  e ← hexToBytes eventId;
  r ← hexToBytes iacaRoot;
  hash ← poseidon2Hash [d; e; r];
  Ok (bytesToHex hash).

(** [buildWitnessInputs(bb, credential, options, timestamp)]. *)
Definition buildWitnessInputs (credential : Credential)
    (options : ProofGenerationOptions) (timestamp : Z) : result WitnessInputs :=
  iacaRoot ← computeIacaRoot (iacaPubkeyX credential) (iacaPubkeyY credential);
  eventId ← Prover.hashEventId (eventId options);
  nullifier ← computeNullifier (documentNumber credential) eventId iacaRoot;
  let provenState :=
    if default false (proveState options) then
      [ default x00 (stateClaimBytes credential !! STATE_CODE_OFFSET);
        default x00 (stateClaimBytes credential !! (STATE_CODE_OFFSET + 1)) ]
    else [x00; x00] in
  Ok {| nullifier := nullifier;
        proof_timestamp := timestamp;
        event_id := eventId;
        iaca_root := iacaRoot;
        bound_address := addressToField (boundAddress options);
        prove_age_over_21 := default false (proveAgeOver21 options);
        prove_age_over_18 := default false (proveAgeOver18 options);
        prove_state := default false (proveState options);
        proven_state := provenState;
        mso_bytes := msoBytes credential;
        mso_signature := msoSignature credential;
        age_over_21_claim_bytes := ageOver21ClaimBytes credential;
        age_over_18_claim_bytes := ageOver18ClaimBytes credential;
        state_claim_bytes := stateClaimBytes credential;
        document_number := documentNumber credential;
        iaca_pubkey_x := iacaPubkeyX credential;
        iaca_pubkey_y := iacaPubkeyY credential |}.
End WitnessBuilder.

Set Warnings "-register-all".

(** ** JavaScript values

    The values that a CBOR decoder returns and that the parser inspects
    with [Array.isArray], [instanceof], [typeof] and property access.
    Numbers are the integral ones. *)
Inductive JsVal : Type :=
| VUndefined
| VNull
| VBool (b : bool)
| VNum (n : Z)
| VStr (s : string)
| VBytes (b : Uint8Array)
| VArr (elems : list JsVal)
| VObj (props : list (string * JsVal))
| VMap (entries : list (JsVal * JsVal))
| VDate (time : option Z).

(** A [Date] is its time value in milliseconds since the epoch; [None]
    is the invalid date. *)
Abbreviation Date := (option Z).

(** [v === undefined || v === null]. *)
Definition is_nullish (v : JsVal) : bool :=
  match v with
  | VUndefined | VNull => true
  | _ => false
  end.

(** [a ?? b]. *)
Definition nullish_or (a b : JsVal) : JsVal := if is_nullish a then b else a.

(** [!!v]. *)
Definition js_truthy (v : JsVal) : bool :=
  match v with
  | VUndefined | VNull | VBool false => false
  | VNum n => negb (n =? 0)%Z
  | VStr s => negb (String.eqb s "")
  | _ => true
  end.

(** The own property [name] of a plain object. *)
Fixpoint obj_lookup (props : list (string * JsVal)) (name : string) : JsVal :=
  match props with
  | [] => VUndefined
  | (k, v) :: props' => if String.eqb k name then v else obj_lookup props' name
  end.

(** [v.name] for a name that is not an index; on [null] and [undefined]
    the access throws. *)
Definition get_prop (v : JsVal) (name : string) : result JsVal :=
  match v with
  | VUndefined | VNull => Throw (TypeError "Cannot read properties of null or undefined")
  | VObj props => Ok (obj_lookup props name)
  | VArr elems => Ok (if String.eqb name "length" then VNum (Z.of_nat (length elems)) else VUndefined)
  | VBytes b => Ok (if String.eqb name "length" then VNum (Z.of_nat (length b)) else VUndefined)
  | VStr s => Ok (if String.eqb name "length" then VNum (Z.of_nat (String.length s)) else VUndefined)
  | _ => Ok VUndefined
  end.

(** [v[i]] for an index [i]. *)
Definition get_index (v : JsVal) (i : nat) : result JsVal :=
  match v with
  | VUndefined | VNull => Throw (TypeError "Cannot read properties of null or undefined")
  | VObj props => Ok (obj_lookup props (pretty i))
  | VArr elems => Ok (default VUndefined (elems !! i))
  | VBytes b => Ok (from_option (fun x => VNum (byte_to_Z x)) VUndefined (b !! i))
  | VStr s => Ok (from_option (fun c => VStr (String c EmptyString)) VUndefined
                    (list_ascii_of_string s !! i))
  | _ => Ok VUndefined
  end.

(** [Map.prototype.get] with a number key. *)
Fixpoint map_get (entries : list (JsVal * JsVal)) (key : Z) : JsVal :=
  match entries with
  | [] => VUndefined
  | (VNum k, v) :: entries' => if (k =? key)%Z then v else map_get entries' key
  | _ :: entries' => map_get entries' key
  end.

(** [v.get?.(key)]: the method of a [Map]; no call when [v.get] is
    nullish; a [get] property that is not a function cannot be called. *)
Definition opt_call_get (v : JsVal) (key : Z) : result JsVal :=
  match v with
  | VMap entries => Ok (map_get entries key)
  | _ =>
      g ← get_prop v "get";
      if is_nullish g then Ok VUndefined
      else Throw (TypeError "get is not a function")
  end.

(** A value passed where the source declares [Uint8Array] (a parameter
    type or an [as] cast): the embedding checks the declared type there
    and reports a value of another kind as a [TypeError]. *)
Definition as_Uint8Array (v : JsVal) : result Uint8Array :=
  match v with
  | VBytes b => Ok b
  | _ => Throw (TypeError "not a Uint8Array")
  end.

(** The same for a value cast with [as string]. *)
Definition as_string (v : JsVal) : result string :=
  match v with
  | VStr s => Ok s
  | _ => Throw (TypeError "not a string")
  end.

(** [new Date(ms)] for a number: valid within 8.64e15 ms of the epoch. *)
Definition Date_of_ms (ms : Z) : Date :=
  if decide (-8640000000000000 <= ms <= 8640000000000000)%Z then Some ms else None.

(** ** The libraries and the platform *)

(** What a call into a library gives: a value, or an [Error] of the
    library's own (never a [CredentialError], a class the library does not
    know). *)
Inductive LibraryResult (A : Type) : Type :=
| Returns (a : A)
| Throws (name message : string).
Arguments Returns {A} a.
Arguments Throws {A} name message.

#[global] Instance LibraryResult_ret : MRet LibraryResult := fun A a => Returns a.
#[global] Instance LibraryResult_bind : MBind LibraryResult := fun A B f m =>
  match m with
  | Returns a => f a
  | Throws name message => Throws name message
  end.

Definition library_call {A} (r : LibraryResult A) : result A :=
  match r with
  | Returns a => Ok a
  | Throws name message => Throw (JsError name message)
  end.

(** cborg's [decode] and [encode]. *)
Class Cborg : Type := {
  cborg_decode : Uint8Array -> LibraryResult JsVal;
  cborg_encode : JsVal -> LibraryResult Uint8Array
}.

Definition decode {cborg : Cborg} (data : Uint8Array) : result JsVal :=
  library_call (cborg_decode data).

Definition encode {cborg : Cborg} (value : JsVal) : result Uint8Array :=
  library_call (cborg_encode value).

(** [new Date(s)] for a string, that is [Date.parse]. *)
Class DatePlatform : Type := {
  Date_parse : string -> Date
}.

(** The algorithm named in a call of [crypto.subtle.importKey]. *)
Inductive KeyAlgorithm : Set :=
| ECDH_P256
| HKDF
| HMAC_SHA256
| AES_GCM.

(** The calls of [crypto.subtle] that the HPKE code makes. [importKey] is
    the import of raw key material. *)
Class WebCrypto : Type := {
  CryptoKey : Type;
  importKey : KeyAlgorithm -> Uint8Array -> result CryptoKey;
  deriveBits_ECDH : forall (public privateKey : CryptoKey) (bits : nat), result Uint8Array;
  deriveBits_HKDF : forall (salt info : Uint8Array) (key : CryptoKey) (bits : nat), result Uint8Array;
  sign_HMAC : forall (key : CryptoKey) (data : Uint8Array), result Uint8Array;
  decrypt_AES_GCM :
    forall (iv additionalData : Uint8Array) (key : CryptoKey) (ciphertext : Uint8Array),
      result Uint8Array
}.

(** ** [credential/hpke.ts] *)

Definition HPKE_MODE_BASE : byte := x00.
Definition KEM_ID : Z := 0x0010.
Definition KDF_ID : Z := 0x0001.
Definition AEAD_ID : Z := 0x0001.
Definition N_SECRET : nat := 32.
Definition N_K : nat := 16.
Definition N_N : nat := 12.

(** [(n >> 8) & 0xff] and [n & 0xff]. *)
Definition hi_byte (n : Z) : byte := byte_of_Z (Z.land (Z.shiftr n 8) 0xff).
Definition lo_byte (n : Z) : byte := byte_of_Z (Z.land n 0xff).

(** [EncryptedCredentialDocument]. *)
Record EncryptionParameters : Type := {
  ep_version : string;
  EDeviceKey : Uint8Array;
  originInfoBytes : Uint8Array
}.

Record EncryptedCredentialDocument : Type := {
  version : string;
  encryptionParameters : EncryptionParameters;
  data : Uint8Array
}.

Section Hpke.
Context {subtle : WebCrypto} {cborg : Cborg}.

(** [HPKESession]: the four fields of the interface; there is no other
    state. *)
Record HPKESession : Type := {
  privateKey : CryptoKey;
  publicKeyBytes : Uint8Array;
  nonce : Uint8Array;
  origin : string
}.

(** [buildSessionTranscript(session, pkEm)]. *)
Definition buildSessionTranscript (session : HPKESession) (pkEm : Uint8Array)
  : result Uint8Array :=
  originInfo ← encode (VObj [("origin"%string, VStr (origin session))]);
  requesterIdentity ← encode (VObj []);
  let browserHandover :=
    VArr [ VStr "BrowserHandoverv1";
           VBytes (nonce session);
           VBytes originInfo;
           VBytes requesterIdentity;
           VBytes pkEm ] in
  let sessionTranscript := VArr [VNull; VNull; browserHandover] in
  encode sessionTranscript.

(** [salt.length > 0 ? salt : new Uint8Array(32)]. *)
Definition salt_or_zeros (salt : Uint8Array) : Uint8Array :=
  if decide (0 < length salt) then salt else Uint8Array_new 32.

(** [labeledExtract(salt, label, ikm, suiteId)]. *)
Definition labeledExtract (salt : Uint8Array) (label : string) (ikm suiteId : Uint8Array)
  : result Uint8Array :=
  let labelBytes := TextEncoder_encode label in
  let hpkeV1 := TextEncoder_encode "HPKE-v1" in
  let labeledIkm :=
    Uint8Array_new (length hpkeV1 + length suiteId + length labelBytes + length ikm) in
  let offset := 0 in
  labeledIkm ← u8_set labeledIkm hpkeV1 offset;
  let offset := offset + length hpkeV1 in
  labeledIkm ← u8_set labeledIkm suiteId offset;
  let offset := offset + length suiteId in
  labeledIkm ← u8_set labeledIkm labelBytes offset;
  let offset := offset + length labelBytes in
  labeledIkm ← u8_set labeledIkm ikm offset;
  key ← importKey HKDF (salt_or_zeros salt);
  hmacKey ← importKey HMAC_SHA256 (salt_or_zeros salt);
  prk ← sign_HMAC hmacKey labeledIkm;
  Ok prk.

(** [labeledExpand(prk, label, info, length, suiteId)]. *)
Definition labeledExpand (prk : Uint8Array) (label : string) (info : Uint8Array)
    (len : nat) (suiteId : Uint8Array) : result Uint8Array :=
  let labelBytes := TextEncoder_encode label in
  let hpkeV1 := TextEncoder_encode "HPKE-v1" in
  let labeledInfo :=
    Uint8Array_new (2 + length hpkeV1 + length suiteId + length labelBytes + length info) in
  let offset := 0 in
  let labeledInfo := <[offset := hi_byte (Z.of_nat len)]> labeledInfo in
  let offset := S offset in
  let labeledInfo := <[offset := lo_byte (Z.of_nat len)]> labeledInfo in
  let offset := S offset in
  labeledInfo ← u8_set labeledInfo hpkeV1 offset;
  let offset := offset + length hpkeV1 in
  labeledInfo ← u8_set labeledInfo suiteId offset;
  let offset := offset + length suiteId in
  labeledInfo ← u8_set labeledInfo labelBytes offset;
  let offset := offset + length labelBytes in
  labeledInfo ← u8_set labeledInfo info offset;
  key ← importKey HKDF prk;
  derived ← deriveBits_HKDF (Uint8Array_new 0) labeledInfo key (len * 8);
  Ok derived.

(** [buildSuiteId()]. *)
Definition buildSuiteId : result Uint8Array :=
  let suiteId := Uint8Array_new 10 in
  let hpke := TextEncoder_encode "HPKE" in
  suiteId ← u8_set suiteId hpke 0;
  let suiteId := <[4 := hi_byte KEM_ID]> suiteId in
  let suiteId := <[5 := lo_byte KEM_ID]> suiteId in
  let suiteId := <[6 := hi_byte KDF_ID]> suiteId in
  let suiteId := <[7 := lo_byte KDF_ID]> suiteId in
  let suiteId := <[8 := hi_byte AEAD_ID]> suiteId in
  let suiteId := <[9 := lo_byte AEAD_ID]> suiteId in
  Ok suiteId.

(** [buildKemSuiteId()]. *)
Definition buildKemSuiteId : result Uint8Array :=
  let kemSuiteId := Uint8Array_new 5 in
  let kem := TextEncoder_encode "KEM" in
  kemSuiteId ← u8_set kemSuiteId kem 0;
  let kemSuiteId := <[3 := hi_byte KEM_ID]> kemSuiteId in
  let kemSuiteId := <[4 := lo_byte KEM_ID]> kemSuiteId in
  Ok kemSuiteId.

(** [deriveSharedSecret(privateKey, publicKeyBytes)]. *)
Definition deriveSharedSecret (privateKey : CryptoKey) (publicKeyBytes : Uint8Array)
  : result Uint8Array :=
  publicKey ← importKey ECDH_P256 publicKeyBytes;
  deriveBits_ECDH publicKey privateKey 256.

(** [decap(enc, skR, pkR)]. *)
Definition decap (enc : Uint8Array) (skR : CryptoKey) (pkR : Uint8Array)
  : result Uint8Array :=
  kemSuiteId ← buildKemSuiteId;
  dh ← deriveSharedSecret skR enc;
  let kemContext := Uint8Array_new (length enc + length pkR) in
  kemContext ← u8_set kemContext enc 0;
  kemContext ← u8_set kemContext pkR (length enc);
  prk ← labeledExtract (Uint8Array_new 0) "eae_prk" dh kemSuiteId;
  sharedSecret ← labeledExpand prk "shared_secret" kemContext N_SECRET kemSuiteId;
  Ok sharedSecret.

(** [keyScheduleR(sharedSecret, info)]: the pair [(key, baseNonce)]. *)
Definition keyScheduleR (sharedSecret info : Uint8Array)
  : result (Uint8Array * Uint8Array) :=
  suiteId ← buildSuiteId;
  pskIdHash ← labeledExtract (Uint8Array_new 0) "psk_id_hash" (Uint8Array_new 0) suiteId;
  infoHash ← labeledExtract (Uint8Array_new 0) "info_hash" info suiteId;
  let ksContext := Uint8Array_new (1 + length pskIdHash + length infoHash) in
  let ksContext := <[0 := HPKE_MODE_BASE]> ksContext in
  ksContext ← u8_set ksContext pskIdHash 1;
  ksContext ← u8_set ksContext infoHash (1 + length pskIdHash);
  secret ← labeledExtract sharedSecret "secret" (Uint8Array_new 0) suiteId;
  key ← labeledExpand secret "key" ksContext N_K suiteId;
  baseNonce ← labeledExpand secret "base_nonce" ksContext N_N suiteId;
  Ok (key, baseNonce).

(** [aesGcmDecrypt(key, nonce, aad, ciphertext)]. *)
Definition aesGcmDecrypt (key nonce aad ciphertext : Uint8Array) : result Uint8Array :=
  cryptoKey ← importKey AES_GCM key;
  plaintext ← decrypt_AES_GCM nonce aad cryptoKey ciphertext;
  Ok plaintext.

(** The body of the [try] block of [decryptCredentialResponse]. *)
Definition decrypt_steps (encrypted : EncryptedCredentialDocument) (session : HPKESession)
  : result Uint8Array :=
  let enc := EDeviceKey (encryptionParameters encrypted) in
  let ciphertext := data encrypted in
  sessionTranscript ← buildSessionTranscript session enc;
  sharedSecret ← decap enc (privateKey session) (publicKeyBytes session);
  '(key, baseNonce) ← keyScheduleR sharedSecret (Uint8Array_new 0);
  plaintext ← aesGcmDecrypt key baseNonce sessionTranscript ciphertext;
  Ok plaintext.

(** [decryptCredentialResponse(encrypted, session)]. *)
Definition decryptCredentialResponse (encrypted : EncryptedCredentialDocument)
    (session : HPKESession) : result Uint8Array :=
  try_catch (decrypt_steps encrypted session)
    (fun error =>
       Throw (CredentialError
                ("Failed to decrypt credential response: " ++ error_message error)
                PARSE_ERROR)).

(** A call of [decryptCredentialResponse] as a step on the session
    object, which JavaScript passes by reference: the outcome of the
    call, and the session as the call leaves it. The function reads
    [session.origin], [session.nonce], [session.privateKey] and
    [session.publicKeyBytes] and assigns to no field, so it leaves the
    session as it was. *)
Definition decryptCredentialResponse_call (encrypted : EncryptedCredentialDocument)
    (session : HPKESession) : result Uint8Array * HPKESession :=
  (decryptCredentialResponse encrypted session, session).

(** Two calls in sequence on one session object. *)
Definition decrypt_twice (first second : EncryptedCredentialDocument)
    (session : HPKESession) : result Uint8Array * result Uint8Array * HPKESession :=
  let '(r1, session) := decryptCredentialResponse_call first session in
  let '(r2, session) := decryptCredentialResponse_call second session in
  (r1, r2, session).
End Hpke.

(** ** Single-bit changes

    The tampering of which the specification speaks: one bit of a byte
    string flipped. *)





Section Tampering.
Context {subtle : WebCrypto} {cborg : Cborg}.


End Tampering.

(** ** [credential/types.ts] *)

(** [RawIssuerSignedItem]. *)
Record RawIssuerSignedItem : Type := {
  digestID : Z;
  random : Uint8Array;
  elementIdentifier : string;
  elementValue : JsVal;
  rawBytes : Uint8Array
}.

(** [RawCredentialResponse]; [namespaces] is the entry
    [namespaces['org.iso.18013.5.1']], [None] when it is undefined. *)
Record RawCredentialResponse : Type := {
  issuerAuth : Uint8Array;
  namespaces : option (list RawIssuerSignedItem)
}.

(** [ParsedClaim]. *)
Record ParsedClaim : Type := {
  claim_id : string;
  claim_bytes : Uint8Array;
  claim_value : JsVal;
  claim_digestIndex : Z
}.

Record ValidityInfo : Type := {
  signed : Date;
  validFrom : Date;
  validUntil : Date
}.

(** [ParsedMSO]. *)
Record ParsedMSO : Type := {
  parsed_bytes : Uint8Array;
  parsed_signature : Uint8Array;
  validityInfo : ValidityInfo;
  digestAlgorithm : JsVal;
  docType : JsVal
}.

Record PublicKeyXY : Type := {
  key_x : Uint8Array;
  key_y : Uint8Array
}.

(** [ParsedCredential]. *)
Record ParsedCredential : Type := {
  parsed_mso : ParsedMSO;
  parsed_claims : gmap string ParsedClaim;
  parsed_iacaPubkey : PublicKeyXY;
  parsed_documentNumber : Uint8Array
}.

(** ** [credential/parse.ts] *)

(** [isAllZeros(bytes)]. *)
Definition isAllZeros (bs : Uint8Array) : bool :=
  forallb (fun b => Byte.eqb b x00) bs.

(** [certBytes[i] === b]. *)
Definition byte_at_is (certBytes : Uint8Array) (i : nat) (b : byte) : bool :=
  match certBytes !! i with
  | Some c => Byte.eqb c b
  | None => false
  end.

(** The test that the loop of [extractPubkeyFromCert] makes at index [i]:
    the marker [0x04] at [i], the byte [0x41] before it, and the two
    slices not all zero. *)
Definition pubkey_at (certBytes : Uint8Array) (i : nat) : option PublicKeyXY :=
  if byte_at_is certBytes i x04 then
    if (0 <? i) && byte_at_is certBytes (i - 1) x41 then
      let x := u8_slice certBytes (i + 1) (i + 33) in
      let y := u8_slice certBytes (i + 33) (i + 65) in
      if negb (isAllZeros x) && negb (isAllZeros y) then Some {| key_x := x; key_y := y |}
      else None
    else None
  else None.

(** The loop [for (let i = ...; i < certBytes.length - 64; i++)], from
    index [i] for [remaining] more iterations. *)
Fixpoint scan_pubkey (certBytes : Uint8Array) (i remaining : nat) : option PublicKeyXY :=
  match remaining with
  | O => None
  | S remaining' =>
      match pubkey_at certBytes i with
      | Some key => Some key
      | None => scan_pubkey certBytes (S i) remaining'
      end
  end.

(** [extractPubkeyFromCert(certBytes)]. *)
Definition extractPubkeyFromCert (certBytes : Uint8Array) : result PublicKeyXY :=
  match scan_pubkey certBytes 0 (length certBytes - 64) with
  | Some key => Ok key
  | None =>
      Throw (CredentialError "Could not extract public key from certificate" PARSE_ERROR)
  end.

Section Parse.
Context {cborg : Cborg} {dates : DatePlatform}.

(** [parseDate(dateValue)]. *)
Definition parseDate (dateValue : JsVal) : Date :=
  match dateValue with
  | VDate d => d
  | VStr s => Date_parse s
  | VNum n => Date_of_ms (n * 1000)
  | _ => Date_of_ms 0
  end.

(** [parseMSO(issuerAuth)]. *)
Definition parseMSO (issuerAuth : Uint8Array) : result ParsedMSO :=
  coseSign1 ← decode issuerAuth;
  match coseSign1 with
  | VArr (_protected :: _unprotected :: payload :: signature :: _) =>
      msoBytes ← match payload with
                 | VBytes b => Ok b
                 | _ => encode payload
                 end;
      msoDecoded ← decode msoBytes;
      vi ← get_prop msoDecoded "validityInfo";
      let validityInfo := nullish_or vi (VObj []) in
      signed ← get_prop validityInfo "signed";
      validFrom ← get_prop validityInfo "validFrom";
      validUntil ← get_prop validityInfo "validUntil";
      signature ← as_Uint8Array signature;
      digestAlgorithm ← get_prop msoDecoded "digestAlgorithm";
      docType ← get_prop msoDecoded "docType";
      Ok {| parsed_bytes := msoBytes;
            parsed_signature := signature;
            validityInfo := {| signed := parseDate signed;
                               validFrom := parseDate validFrom;
                               validUntil := parseDate validUntil |};
            digestAlgorithm := nullish_or digestAlgorithm (VStr "SHA-256");
            docType := nullish_or docType (VStr "org.iso.18013.5.1.mDL") |}
  | _ => Throw (CredentialError "Invalid COSE_Sign1 structure" PARSE_ERROR)
  end.

(** [h.get?.(33) ?? h[33]], the certificate-chain field of a header. *)
Definition x5chain_of (header : JsVal) : result JsVal :=
  viaGet ← opt_call_get header 33;
  if is_nullish viaGet then get_index header 33 else Ok viaGet.

(** The branch of [extractIACAPubkey] that reads the unprotected header. *)
Definition pubkey_from_unprotected (unprotectedHeader : JsVal) : result PublicKeyXY :=
  found ← (if is_nullish unprotectedHeader then Ok VUndefined
           else x5chain_of unprotectedHeader);
  let certChain := nullish_or found (VArr []) in
  len ← get_prop certChain "length";
  if negb (js_truthy certChain) || (match len with VNum 0 => true | _ => false end) then
    Throw (CredentialError "No certificate chain found in issuerAuth" PARSE_ERROR)
  else
    first ← get_index certChain 0;
    cert ← as_Uint8Array first;
    extractPubkeyFromCert cert.

(** [extractIACAPubkey(issuerAuth)]. *)
Definition extractIACAPubkey (issuerAuth : Uint8Array) : result PublicKeyXY :=
  coseSign1 ← decode issuerAuth;
  match coseSign1 with
  | VArr (protected :: unprotectedHeader :: _) =>
      protectedBytes ← as_Uint8Array protected;
      protectedHeader ← decode protectedBytes;
      x5chain ← x5chain_of protectedHeader;
      match x5chain with
      | VArr (first :: _) =>
          cert ← as_Uint8Array first;
          extractPubkeyFromCert cert
      | _ => pubkey_from_unprotected unprotectedHeader
      end
  | _ =>
      Throw (CredentialError "Invalid COSE_Sign1 structure for key extraction" PARSE_ERROR)
  end.

(** The loop [for (const item of namespace) claims.set(...)]. *)
Definition collect_claims (namespace : list RawIssuerSignedItem) : gmap string ParsedClaim :=
  fold_left
    (fun claims item =>
       <[elementIdentifier item :=
           {| claim_id := elementIdentifier item;
              claim_bytes := rawBytes item;
              claim_value := elementValue item;
              claim_digestIndex := digestID item |}]> claims)
    namespace ∅.

(** The body of the [try] block of [parseCredential]. *)
Definition parse_steps (raw : RawCredentialResponse) : result ParsedCredential :=
  mso ← parseMSO (issuerAuth raw);
  match namespaces raw with
  | None =>
      Throw (CredentialError "Missing org.iso.18013.5.1 namespace in credential" PARSE_ERROR)
  | Some namespace =>
      let claims := collect_claims namespace in
      match claims !! "document_number"%string with
      | None =>
          Throw (CredentialError "document_number claim is required but not present"
                   INVALID_CLAIM)
      | Some docNumberClaim =>
          str ← as_string (claim_value docNumberClaim);
          documentNumber ← stringToBytes str 32;
          iacaPubkey ← extractIACAPubkey (issuerAuth raw);
          Ok {| parsed_mso := mso;
                parsed_claims := claims;
                parsed_iacaPubkey := iacaPubkey;
                parsed_documentNumber := documentNumber |}
      end
  end.

(** [parseCredential(raw)]. *)
Definition parseCredential (raw : RawCredentialResponse) : result ParsedCredential :=
  try_catch (parse_steps raw)
    (fun error =>
       if is_CredentialError error then Throw error
       else Throw (CredentialError
                     ("Failed to parse credential: " ++ error_message error)
                     PARSE_ERROR)).
End Parse.

(** What the [try] block of [parseCredential] can throw: a
    [CredentialError] of kind [PARSE_ERROR] or [INVALID_CLAIM], or an
    [Error] that is not a [CredentialError]. *)
Definition parse_failure (t : Thrown) : Prop :=
  match t with
  | CredentialError _ code => code = PARSE_ERROR \/ code = INVALID_CLAIM
  | JsError _ _ => True
  | NonError => False
  end.

(** [toProverCredential(parsed)]. *)
Definition toProverCredential (parsed : ParsedCredential) : result Credential :=
  let ageOver21Claim := parsed_claims parsed !! "age_over_21"%string in
  let ageOver18Claim := parsed_claims parsed !! "age_over_18"%string in
  let stateClaim := parsed_claims parsed !! "issuing_jurisdiction"%string in
  match ageOver21Claim, ageOver18Claim, stateClaim with
  | None, _, _ => Throw (CredentialError "age_over_21 claim is required" INVALID_CLAIM)
  | Some _, None, _ => Throw (CredentialError "age_over_18 claim is required" INVALID_CLAIM)
  | Some _, Some _, None =>
      Throw (CredentialError "issuing_jurisdiction claim is required" INVALID_CLAIM)
  | Some ageOver21Claim, Some ageOver18Claim, Some stateClaim =>
      msoBytes ← padToSize (parsed_bytes (parsed_mso parsed)) 512;
      msoSignature ← padToSize (parsed_signature (parsed_mso parsed)) 64;
      ageOver21ClaimBytes ← padToSize (claim_bytes ageOver21Claim) 96;
      ageOver18ClaimBytes ← padToSize (claim_bytes ageOver18Claim) 96;
      stateClaimBytes ← padToSize (claim_bytes stateClaim) 107;
      iacaPubkeyX ← padToSize (key_x (parsed_iacaPubkey parsed)) 32;
      iacaPubkeyY ← padToSize (key_y (parsed_iacaPubkey parsed)) 32;
      Ok {| msoBytes := msoBytes;
            msoSignature := msoSignature;
            ageOver21ClaimBytes := ageOver21ClaimBytes;
            ageOver18ClaimBytes := ageOver18ClaimBytes;
            stateClaimBytes := stateClaimBytes;
            documentNumber := parsed_documentNumber parsed;
            iacaPubkeyX := iacaPubkeyX;
            iacaPubkeyY := iacaPubkeyY |}
  end.

(** ** Reference instances of the libraries

    The properties of Part II hold for every instance of [Cborg],
    [WebCrypto], [DatePlatform] and [Barretenberg]. The instances below
    serve to run the code of this file on concrete inputs. *)

(** *** A CBOR codec

    RFC 8949 for the items the credential format uses: integers, byte and
    text strings, arrays, maps and the simple values, with definite
    lengths. As in cborg's default configuration, a decoded map is a plain
    object whose keys must be text strings, a repeated key keeps its last
    value, trailing bytes are an error, and an encoded map is sorted by
    key (shorter first, then bytewise). Tags, floats and indefinite
    lengths are rejected. *)
Module CborRef.
Local Open Scope Z_scope.

(** The [n]-byte big-endian encoding of [v]. *)
Definition be_bytes (n : nat) (v : Z) : Uint8Array :=
  map (fun i => byte_of_Z (Z.shiftr v (8 * Z.of_nat (n - 1 - i)))) (seq 0 n).

(** The head of an item: major type and argument. *)
Definition head (major arg : Z) : Uint8Array :=
  if arg <? 24 then [byte_of_Z (major * 32 + arg)]
  else if arg <? 2 ^ 8 then byte_of_Z (major * 32 + 24) :: be_bytes 1 arg
  else if arg <? 2 ^ 16 then byte_of_Z (major * 32 + 25) :: be_bytes 2 arg
  else if arg <? 2 ^ 32 then byte_of_Z (major * 32 + 26) :: be_bytes 4 arg
  else byte_of_Z (major * 32 + 27) :: be_bytes 8 arg.

Fixpoint bytes_ltb (a b : Uint8Array) : bool :=
  match a, b with
  | [], [] => false
  | [], _ :: _ => true
  | _ :: _, [] => false
  | x :: a', y :: b' =>
      if byte_to_Z x <? byte_to_Z y then true
      else if byte_to_Z y <? byte_to_Z x then false
      else bytes_ltb a' b'
  end.

(** Shorter keys first, then bytewise. *)
Definition key_ltb (a b : Uint8Array) : bool :=
  if (length a <? length b)%nat then true
  else if (length b <? length a)%nat then false
  else bytes_ltb a b.

Fixpoint insert_entry (e : Uint8Array * Uint8Array) (l : list (Uint8Array * Uint8Array))
  : list (Uint8Array * Uint8Array) :=
  match l with
  | [] => [e]
  | e' :: l' => if key_ltb e.1 e'.1 then e :: l else e' :: insert_entry e l'
  end.

Definition sort_entries (l : list (Uint8Array * Uint8Array)) : list (Uint8Array * Uint8Array) :=
  fold_right insert_entry [] l.

Definition encode_map (entries : list (Uint8Array * Uint8Array)) : Uint8Array :=
  head 5 (Z.of_nat (length entries))
  ++ concat (map (fun e => e.1 ++ e.2) (sort_entries entries)).

Fixpoint encode (v : JsVal) : LibraryResult Uint8Array :=
  match v with
  | VUndefined => Returns [xf7]
  | VNull => Returns [xf6]
  | VBool false => Returns [xf4]
  | VBool true => Returns [xf5]
  | VNum n =>
      if (0 <=? n) && (n <? 2 ^ 64) then Returns (head 0 n)
      else if (- 2 ^ 64 <=? n) && (n <? 0) then Returns (head 1 (-1 - n))
      else Throws "Error" "number out of range"
  | VStr s =>
      let bs := TextEncoder_encode s in
      Returns (head 3 (Z.of_nat (length bs)) ++ bs)
  | VBytes b => Returns (head 2 (Z.of_nat (length b)) ++ b)
  | VArr elems =>
      items ← (fix go (l : list JsVal) : LibraryResult Uint8Array :=
                 match l with
                 | [] => Returns []
                 | x :: l' => a ← encode x; b ← go l'; Returns (a ++ b)
                 end) elems;
      Returns (head 4 (Z.of_nat (length elems)) ++ items)
  | VObj props =>
      entries ← (fix go (l : list (string * JsVal)) : LibraryResult (list (Uint8Array * Uint8Array)) :=
                   match l with
                   | [] => Returns []
                   | (k, x) :: l' =>
                       a ← encode x; es ← go l';
                       let kb := TextEncoder_encode k in
                       Returns ((head 3 (Z.of_nat (length kb)) ++ kb, a) :: es)
                   end) props;
      Returns (encode_map entries)
  | VMap kvs =>
      entries ← (fix go (l : list (JsVal * JsVal)) : LibraryResult (list (Uint8Array * Uint8Array)) :=
                   match l with
                   | [] => Returns []
                   | (k, x) :: l' =>
                       kb ← encode k; a ← encode x; es ← go l';
                       Returns ((kb, a) :: es)
                   end) kvs;
      Returns (encode_map entries)
  | VDate _ => Throws "Error" "unsupported type: Date"
  end.

(** The first [n] bytes of the input and the rest. *)
Definition take_exact (n : Z) (input : Uint8Array) : LibraryResult (Uint8Array * Uint8Array) :=
  if Z.of_nat (length input) <? n then Throws "Error" "unexpected end of input"
  else Returns (take (Z.to_nat n) input, drop (Z.to_nat n) input).

(** The argument of a head whose additional information is [info]. *)
Definition read_arg (info : Z) (input : Uint8Array) : LibraryResult (Z * Uint8Array) :=
  if info <? 24 then Returns (info, input)
  else if info <? 28 then
    '(bs, rest) ← take_exact (2 ^ (info - 24)) input;
    Returns (be_Z bs, rest)
  else Throws "Error" "indefinite or reserved length not supported".

(** [obj[key] = value]. *)
Fixpoint obj_set (props : list (string * JsVal)) (key : string) (value : JsVal)
  : list (string * JsVal) :=
  match props with
  | [] => [(key, value)]
  | (k, v) :: props' =>
      if String.eqb k key then (k, value) :: props'
      else (k, v) :: obj_set props' key value
  end.

(** One data item from the front of the input, and the rest. *)
Fixpoint decode_item (fuel : nat) (input : Uint8Array) : LibraryResult (JsVal * Uint8Array) :=
  match fuel with
  | O => Throws "Error" "unexpected end of input"
  | S fuel' =>
      match input with
      | [] => Throws "Error" "unexpected end of input"
      | b :: rest =>
          let major := byte_to_Z b / 32 in
          let info := byte_to_Z b mod 32 in
          if major =? 7 then
            if info =? 20 then Returns (VBool false, rest)
            else if info =? 21 then Returns (VBool true, rest)
            else if info =? 22 then Returns (VNull, rest)
            else if info =? 23 then Returns (VUndefined, rest)
            else Throws "Error" "simple values and floats not supported"
          else
            '(arg, rest) ← read_arg info rest;
            if major =? 0 then Returns (VNum arg, rest)
            else if major =? 1 then Returns (VNum (-1 - arg), rest)
            else if major =? 2 then
              '(bs, rest) ← take_exact arg rest; Returns (VBytes bs, rest)
            else if major =? 3 then
              '(bs, rest) ← take_exact arg rest; Returns (VStr (string_of_list_byte bs), rest)
            else if Z.of_nat (length rest) <? arg then
              Throws "Error" "unexpected end of input"
            else if major =? 4 then
              '(elems, rest) ←
                (fix items (n : nat) (input : Uint8Array) : LibraryResult (list JsVal * Uint8Array) :=
                   match n with
                   | O => Returns ([], input)
                   | S n' =>
                       '(v, input) ← decode_item fuel' input;
                       '(vs, input) ← items n' input;
                       Returns (v :: vs, input)
                   end) (Z.to_nat arg) rest;
              Returns (VArr elems, rest)
            else if major =? 5 then
              '(props, rest) ←
                (fix entries (n : nat) (props : list (string * JsVal)) (input : Uint8Array)
                   : LibraryResult (list (string * JsVal) * Uint8Array) :=
                   match n with
                   | O => Returns (props, input)
                   | S n' =>
                       '(k, input) ← decode_item fuel' input;
                       match k with
                       | VStr key =>
                           '(v, input) ← decode_item fuel' input;
                           entries n' (obj_set props key v) input
                       | _ => Throws "Error" "non-string keys not supported"
                       end
                   end) (Z.to_nat arg) [] rest;
              Returns (VObj props, rest)
            else Throws "Error" "tag not supported"
      end
  end.

Definition decode (input : Uint8Array) : LibraryResult JsVal :=
  '(v, rest) ← decode_item (S (length input)) input;
  match rest with
  | [] => Returns v
  | _ :: _ => Throws "Error" "too many terminals, data makes no sense"
  end.
End CborRef.

Definition cborg_ref : Cborg :=
  {| cborg_decode := CborRef.decode; cborg_encode := CborRef.encode |}.

(** *** A test double of [crypto.subtle]

    Not a cipher to use: a one-byte checksum stands for HMAC, HKDF and
    ECDH, and the AEAD is an XOR stream with a one-byte tag over key,
    nonce, associated data and ciphertext body. It has the interface behaviour the HPKE code
    relies on: a raw P-256 key is 65 bytes that start with [0x04], and
    decryption fails with [OperationError] unless the tag matches. *)
Module ToyCrypto.
Definition xor_byte (a b : byte) : byte :=
  byte_of_Z (Z.lxor (byte_to_Z a) (byte_to_Z b)).

Definition checksum (bs : Uint8Array) : byte :=
  byte_of_Z (fold_left (fun acc b => (acc * 33 + byte_to_Z b + 1) mod 256)%Z bs 0%Z).

(** [n] bytes derived from a seed byte. *)
Definition stretch (n : nat) (seed : byte) : Uint8Array :=
  map (fun i => xor_byte seed (byte_of_Z (Z.of_nat i))) (seq 0 n).

Definition import_key (alg : KeyAlgorithm) (raw : Uint8Array) : result Uint8Array :=
  match alg, raw with
  | ECDH_P256, x04 :: rest =>
      if decide (length rest = 64) then Ok raw
      else Throw (JsError "DataError" "Invalid key length")
  | ECDH_P256, _ => Throw (JsError "DataError" "Invalid key format")
  | _, _ => Ok raw
  end.

Definition tag (iv aad key body : Uint8Array) : byte :=
  xor_byte (checksum key) (xor_byte (checksum iv) (xor_byte (checksum aad) (checksum body))).

(** The encryptor that matches [open]. *)
Definition seal (iv aad key plaintext : Uint8Array) : Uint8Array :=
  let body := zip_with xor_byte plaintext (stretch (length plaintext) (checksum key)) in
  body ++ [tag iv aad key body].

Definition open (iv aad key ciphertext : Uint8Array) : result Uint8Array :=
  let body := take (length ciphertext - 1) ciphertext in
  match drop (length ciphertext - 1) ciphertext with
  | [t] =>
      if Byte.eqb t (tag iv aad key body) then
        Ok (zip_with xor_byte body (stretch (length body) (checksum key)))
      else Throw (JsError "OperationError" "The operation failed for an operation-specific reason")
  | _ => Throw (JsError "OperationError" "The operation failed for an operation-specific reason")
  end.

Definition subtle : WebCrypto := {|
  CryptoKey := Uint8Array;
  importKey := import_key;
  deriveBits_ECDH := fun public privateKey bits =>
    Ok (stretch (bits / 8) (xor_byte (checksum public) (checksum privateKey)));
  deriveBits_HKDF := fun salt info key bits =>
    Ok (stretch (bits / 8) (xor_byte (checksum salt) (xor_byte (checksum info) (checksum key))));
  sign_HMAC := fun key data => Ok (stretch 32 (xor_byte (checksum key) (checksum data)));
  decrypt_AES_GCM := fun iv additionalData key ciphertext => open iv additionalData key ciphertext
|}.
End ToyCrypto.

(** *** Concrete inputs *)

(** A session of the test double: a 32-byte private key, the 65 bytes of
    a raw public key, a 12-byte nonce and an origin. *)
Definition example_session : @HPKESession ToyCrypto.subtle := {|
  privateKey := replicate 32 x07 : @CryptoKey ToyCrypto.subtle;
  publicKeyBytes := x04 :: replicate 64 x11;
  nonce := replicate 12 x2a;
  origin := "https://localhost"
|}.

(** The encapsulated key of the sender. *)
Definition example_enc : Uint8Array := x04 :: replicate 64 x33.

(** What the matching encryptor of the test double sends for a
    plaintext: it derives key, nonce and transcript as the receiver does
    and seals the plaintext. *)
Definition example_encrypt (plaintext : Uint8Array) : result EncryptedCredentialDocument :=
  transcript ← @buildSessionTranscript ToyCrypto.subtle cborg_ref example_session example_enc;
  sharedSecret ← @decap ToyCrypto.subtle example_enc
                   (privateKey example_session) (publicKeyBytes example_session);
  '(key, baseNonce) ← @keyScheduleR ToyCrypto.subtle sharedSecret (Uint8Array_new 0);
  Ok {| version := "1.0";
        encryptionParameters :=
          {| ep_version := "1.0"; EDeviceKey := example_enc; originInfoBytes := [] |};
        data := ToyCrypto.seal baseNonce transcript key plaintext |}.


(** The document that [example_encrypt] produces for the plaintext
    ["hello"] (see [example_encrypt_hello]). *)
Definition example_document : EncryptedCredentialDocument := {|
  version := "1.0";
  encryptionParameters :=
    {| ep_version := "1.0"; EDeviceKey := example_enc; originInfoBytes := [] |};
  data := [xe0; xec; xe6; xe7; xe3; x64]
|}.

(** *** A test double whose AEAD binds its inputs

    The test double above with another AEAD: the tag of a sealed message
    is a copy of the ciphertext body, the nonce and the associated data,
    so that it opens under one nonce and one associated data only. Not a
    cipher to use; it shows that the premise [AEAD_authenticates] can be
    met. *)
Module BindingAead.
#[local] Instance byte_eq_decision : EqDecision byte := Byte.byte_eq_dec.

Definition seal (iv aad key plaintext : Uint8Array) : Uint8Array :=
  let body :=
    zip_with ToyCrypto.xor_byte plaintext
      (ToyCrypto.stretch (length plaintext) (ToyCrypto.checksum key)) in
  body ++ body ++ iv ++ aad.

Definition open (iv aad key ciphertext : Uint8Array) : result Uint8Array :=
  let n := (length ciphertext - length iv - length aad) / 2 in
  let body := take n ciphertext in
  if decide (ciphertext = body ++ body ++ iv ++ aad) then
    Ok (zip_with ToyCrypto.xor_byte body (ToyCrypto.stretch n (ToyCrypto.checksum key)))
  else Throw (JsError "OperationError" "The operation failed for an operation-specific reason").

Definition subtle : WebCrypto := {|
  CryptoKey := Uint8Array;
  importKey := ToyCrypto.import_key;
  deriveBits_ECDH := @deriveBits_ECDH ToyCrypto.subtle;
  deriveBits_HKDF := @deriveBits_HKDF ToyCrypto.subtle;
  sign_HMAC := @sign_HMAC ToyCrypto.subtle;
  decrypt_AES_GCM := open
|}.
End BindingAead.





(** The bytes of a value under the reference encoder. *)
Definition ref_bytes (v : JsVal) : Uint8Array :=
  match CborRef.encode v with
  | Returns b => b
  | Throws _ _ => []
  end.

(** A certificate stub of 66 bytes: the length byte [0x41], the marker
    [0x04], and two coordinates of 32 bytes. *)
Definition example_x : Uint8Array := replicate 32 x01.
Definition example_y : Uint8Array := replicate 32 x02.
Definition example_cert : Uint8Array := [x41; x04] ++ example_x ++ example_y.

(** A second stub with other coordinates, for the unprotected header. *)
Definition other_cert : Uint8Array := [x41; x04] ++ replicate 32 x0a ++ replicate 32 x0b.

(** The signed metadata object: its validity window ended on
    2001-09-09 (1000000000 seconds after the epoch). *)
Definition example_mso : JsVal :=
  VObj [ ("digestAlgorithm"%string, VStr "SHA-256");
         ("docType"%string, VStr "org.iso.18013.5.1.mDL");
         ("validityInfo"%string,
          VObj [ ("signed"%string, VNum 900000000);
                 ("validFrom"%string, VNum 900000000);
                 ("validUntil"%string, VNum 1000000000) ]) ].

(** The envelope [protected, unprotected, payload, signature]; both
    headers carry a certificate chain under the key 33. *)
Definition example_issuerAuth : Uint8Array :=
  Eval vm_compute in
    ref_bytes
      (VArr [ VBytes (ref_bytes (VObj [("33"%string, VArr [VBytes example_cert])]));
              VObj [("33"%string, VArr [VBytes other_cert])];
              VBytes (ref_bytes example_mso);
              VBytes (replicate 64 x05) ]).

(** The same envelope with an empty protected header. *)
Definition fallback_issuerAuth : Uint8Array :=
  Eval vm_compute in
    ref_bytes
      (VArr [ VBytes (ref_bytes (VObj []));
              VObj [("33"%string, VArr [VBytes other_cert])];
              VBytes (ref_bytes example_mso);
              VBytes (replicate 64 x05) ]).

Definition example_item (digest : Z) (identifier : string) (value : JsVal)
  : RawIssuerSignedItem :=
  {| digestID := digest;
     random := replicate 32 x09;
     elementIdentifier := identifier;
     elementValue := value;
     rawBytes :=
       ref_bytes (VObj [ ("digestID"%string, VNum digest);
                         ("random"%string, VBytes (replicate 32 x09));
                         ("elementIdentifier"%string, VStr identifier);
                         ("elementValue"%string, value) ]) |}.

(** A decrypted response whose document number is ["D1234567"]. *)
Definition example_raw : RawCredentialResponse :=
  {| issuerAuth := example_issuerAuth;
     namespaces :=
       Some [ example_item 0 "age_over_21" (VBool true);
              example_item 1 "issuing_jurisdiction" (VStr "CA");
              example_item 2 "age_over_18" (VBool true);
              example_item 3 "document_number" (VStr "D1234567") ] |}.

(** The buffer that [stringToBytes] returns for ["D1234567"]: the eight
    characters, then 24 zero bytes. *)
Definition example_documentNumber : Uint8Array :=
  [x44; x31; x32; x33; x34; x35; x36; x37] ++ replicate 24 x00.

(** A stand-in for Barretenberg: Keccak-256 of the concatenated inputs
    in the place of Poseidon2. *)
Definition bb_stub : Barretenberg :=
  {| poseidon2Hash := fun inputs => Ok (Keccak.keccak_256 (concat inputs)) |}.

(** The nullifiers of two document numbers under the stand-in hash, for
    the event id 5 and one issuer root. *)
Definition example_nullifier_1 : string :=
  Eval vm_compute in
    match @computeNullifier bb_stub (replicate 32 x01) "0x0000000000000000000000000000000000000000000000000000000000000005"
            (bytesToHex (replicate 32 x02)) with
    | Ok n => n
    | Throw _ => EmptyString
    end.

Definition example_nullifier_3 : string :=
  Eval vm_compute in
    match @computeNullifier bb_stub (replicate 32 x03) "0x0000000000000000000000000000000000000000000000000000000000000005"
            (bytesToHex (replicate 32 x02)) with
    | Ok n => n
    | Throw _ => EmptyString
    end.

(** ** Definitions that follow the specification's words

    These are compared with the definitions above, which follow the code. *)

(** "An event identifier is hashed with a general-purpose 256-bit hash and
    reduced modulo the proving field's prime to produce a field element." *)
Definition spec_eventIdField (eventId : string) : Z :=
  (be_Z (Keccak.keccak_256 (TextEncoder_encode eventId)) mod BN254_MODULUS)%Z.

(** "Builds an ordered sequence: [null, null, [format-tag, freshnessNonce,
    encode({origin}), encode({}), encapsulatedKeyBytes]]." *)
Definition spec_handover (formatTag : string)
    (freshnessNonce originInfo requesterIdentity encapsulatedKeyBytes : Uint8Array)
  : list JsVal :=
  [ VStr formatTag; VBytes freshnessNonce; VBytes originInfo;
    VBytes requesterIdentity; VBytes encapsulatedKeyBytes ].

Definition spec_sessionTranscript {cborg : Cborg} (requestOrigin : string)
    (freshnessNonce encapsulatedKeyBytes : Uint8Array) : result Uint8Array :=
  originInfo ← encode (VObj [("origin"%string, VStr requestOrigin)]);
  requesterIdentity ← encode (VObj []);
  encode (VArr [ VNull; VNull;
                 VArr (spec_handover "BrowserHandoverv1" freshnessNonce originInfo
                         requesterIdentity encapsulatedKeyBytes) ]).

(** "An uncompressed-point marker byte followed immediately by two 32-byte
    non-zero coordinates, preceded by a length byte indicating 65 total
    bytes": the certificate contains [0x41 0x04 x y] with [x] and [y] of
    32 bytes each and neither all zeros. *)
Definition spec_contains_pubkey (cert x y : Uint8Array) : Prop :=
  exists pre post,
    cert = pre ++ [x41; x04] ++ x ++ y ++ post /\
    length x = 32 /\ length y = 32 /\
    isAllZeros x = false /\ isAllZeros y = false.

(** A field element as the witness carries it: [0x] and 64 hex digits. *)
Definition field_hex (n : Z) : string :=
  String "0" (String "x" (padStart0 64 (toString16 n))).

(** "Right-aligned, zero-padded to 32 bytes." *)
Definition spec_right_aligned (width : nat) (bs : Uint8Array) : Uint8Array :=
  replicate (width - length bs) x00 ++ bs.

(** Left-aligned: the bytes first, then the zero padding. *)
Definition spec_left_aligned (width : nat) (bs : Uint8Array) : Uint8Array :=
  bs ++ replicate (width - length bs) x00.

(** "Padded to 32 bytes" for a hash input: right-aligned behind zero
    bytes. What is longer than 32 bytes has no padding to 32 bytes; it is
    cut to its first 32 bytes. *)
Definition spec_pad32 (bs : Uint8Array) : Uint8Array :=
  spec_right_aligned 32 (take 32 bs).

(** ** [contract/sbt.ts], [contract/verifier.ts]: the state code

    A string that the code builds with [String.fromCharCode] and reads
    with [charCodeAt] is the list of its UTF-16 code units. *)

(** [String.fromCharCode(...codes)]. *)
Definition String_fromCharCode (codes : list Z) : list Z :=
  map (fun c => c mod 65536)%Z codes.

(** [stateToBytes2(state)], the same function in both files. *)
Definition stateToBytes2 (state : list Z) : result string :=
  match state with
  | [] => Ok "0x0000"%string
  | [c0; c1] => Ok (bytesToHex [byte_of_Z c0; byte_of_Z c1])
  | _ => Throw (JsError "Error" "State code must be exactly 2 characters")
  end.

(** ** [prover/prover.ts]: the prover and its module state *)

(** The public inputs of [GeneratedProof] ([prover/types.ts]) and of
    [ThurinProof] ([contract/sbt.ts]), which have the same fields. *)
Module PublicInputs.
Record t : Type := {
  nullifier : string;
  proofTimestamp : Z;
  eventId : string;
  iacaRoot : string;
  boundAddress : string;
  proveAgeOver21 : bool;
  proveAgeOver18 : bool;
  proveState : bool;
  provenState : list Z
}.
End PublicInputs.

(** [GeneratedProof] and [ThurinProof]. *)
Record GeneratedProof : Type := {
  proof : string;
  publicInputs : PublicInputs.t
}.

Definition not_initialized : Thrown :=
  JsError "Error" "Prover not initialized. Call initProver() first.".

Section ProverModule.
Context {CompiledCircuit Witness : Type}.
Context `{circuit_identity : EqDecision CompiledCircuit}.
Context (bytecode : CompiledCircuit -> string).

(** A [Noir] instance: its [execute], which returns the witness. *)
Record Noir : Type := {
  execute : WitnessInputs -> result Witness
}.

(** An [UltraHonkBackend]: [generateProof(witness)], of which the code
    reads the proof bytes, and [verifyProof] on proof bytes and public
    inputs. *)
Record UltraHonkBackend : Type := {
  backend_generateProof : Witness -> result Uint8Array;
  verifyProof : Uint8Array -> list string -> result bool
}.

(** The module-level variables of [prover.ts]; [None] is [null]. A
    circuit is its object, so that [===] on circuits is equality. *)
Record ProverState : Type := {
  barretenbergAPI : option Barretenberg;
  noir : option Noir;
  backend : option UltraHonkBackend;
  currentCircuit : option CompiledCircuit
}.

Definition prover_initial : ProverState :=
  {| barretenbergAPI := None; noir := None; backend := None; currentCircuit := None |}.

(** What the libraries and the clock answer during one call:
    [Barretenberg.new()], [new Noir(circuit)],
    [new UltraHonkBackend(bytecode, api)], [api.destroy()] and
    [Date.now()]. *)
Record ProverPlatform : Type := {
  Barretenberg_new : result Barretenberg;
  Noir_new : CompiledCircuit -> result Noir;
  UltraHonkBackend_new : string -> Barretenberg -> result UltraHonkBackend;
  Barretenberg_destroy : Barretenberg -> result unit;
  Date_now : Z
}.

(** [isProverInitialized()]. *)
Definition isProverInitialized (st : ProverState) : bool :=
  bool_decide (noir st <> None) && bool_decide (backend st <> None).

(** [initProver(circuit)]: the outcome and the module state it leaves. *)
Definition initProver (p : ProverPlatform) (circuit : CompiledCircuit) (st : ProverState)
  : result unit * ProverState :=
  if bool_decide (currentCircuit st = Some circuit) && isProverInitialized st then
    (Ok tt, st)
  else
    let created :=
      match barretenbergAPI st with
      | None => Barretenberg_new p
      | Some api => Ok api
      end in
    match created with
    | Throw t => (Throw t, st)
    | Ok api =>
        let st := {| barretenbergAPI := Some api; noir := noir st;
                     backend := backend st; currentCircuit := currentCircuit st |} in
        match Noir_new p circuit with
        | Throw t => (Throw t, st)
        | Ok n =>
            let st := {| barretenbergAPI := barretenbergAPI st; noir := Some n;
                         backend := backend st; currentCircuit := currentCircuit st |} in
            match UltraHonkBackend_new p (bytecode circuit) api with
            | Throw t => (Throw t, st)
            | Ok b =>
                (Ok tt,
                 {| barretenbergAPI := barretenbergAPI st; noir := noir st;
                    backend := Some b; currentCircuit := Some circuit |})
            end
        end
    end.

(** [destroyProver()]. *)
Definition destroyProver (p : ProverPlatform) (st : ProverState)
  : result unit * ProverState :=
  let st := {| barretenbergAPI := barretenbergAPI st; noir := noir st;
               backend := None; currentCircuit := currentCircuit st |} in
  let destroyed :=
    match barretenbergAPI st with
    | Some api => Barretenberg_destroy p api
    | None => Ok tt
    end in
  match destroyed with
  | Throw t => (Throw t, st)
  | Ok _ => (Ok tt, prover_initial)
  end.

(** The state code that [generateProof] reports. *)
Definition stateCode (credential : Credential) (options : ProofGenerationOptions) : list Z :=
  if default false (proveState options) then
    String_fromCharCode
      [ byte_to_Z (default x00 (stateClaimBytes credential !! STATE_CODE_OFFSET));
        byte_to_Z (default x00 (stateClaimBytes credential !! (STATE_CODE_OFFSET + 1))) ]
  else [0; 0]%Z.

(** [generateProof(credential, options)]; it assigns to no module
    variable. *)
Definition generateProof (p : ProverPlatform) (credential : Credential)
    (options : ProofGenerationOptions) (st : ProverState) : result GeneratedProof :=
  match noir st, backend st, barretenbergAPI st with
  | Some noir, Some backend, Some api =>
      let timestamp := default (Date_now p / 1000)%Z (timestamp options) in
      witnessInputs ← @buildWitnessInputs api credential options timestamp;
      witness ← execute noir witnessInputs;
      proofBytes ← backend_generateProof backend witness;
      Ok {| proof := bytesToHex proofBytes;
            publicInputs :=
              {| PublicInputs.nullifier := nullifier witnessInputs;
                 PublicInputs.proofTimestamp := timestamp;
                 PublicInputs.eventId := event_id witnessInputs;
                 PublicInputs.iacaRoot := iaca_root witnessInputs;
                 PublicInputs.boundAddress := boundAddress options;
                 PublicInputs.proveAgeOver21 := default false (proveAgeOver21 options);
                 PublicInputs.proveAgeOver18 := default false (proveAgeOver18 options);
                 PublicInputs.proveState := default false (proveState options);
                 PublicInputs.provenState := stateCode credential options |} |}
  | _, _, _ => Throw not_initialized
  end.

(** [verifyProofLocally(proofBytes)]. *)
Definition verifyProofLocally (proofBytes : Uint8Array) (st : ProverState) : result bool :=
  match backend st with
  | Some backend => verifyProof backend proofBytes []
  | None => Throw not_initialized
  end.

(** [Thurin.generateProof(credential, options)] of [index.ts]: its own
    guard, the call of the prover with a copy of the options, and a copy
    of the result. *)
Definition Thurin_generateProof (p : ProverPlatform) (credential : Credential)
    (options : ProofGenerationOptions) (st : ProverState) : result GeneratedProof :=
  if negb (isProverInitialized st) then
    Throw (JsError "Error"
             "Prover not initialized. Call initProver(circuit) before generating proofs.")
  else
    result ← generateProof p credential
               {| eventId := eventId options;
                  boundAddress := boundAddress options;
                  timestamp := timestamp options;
                  proveAgeOver21 := proveAgeOver21 options;
                  proveAgeOver18 := proveAgeOver18 options;
                  proveState := proveState options |} st;
    Ok {| proof := proof result;
          publicInputs :=
            {| PublicInputs.nullifier := PublicInputs.nullifier (publicInputs result);
               PublicInputs.proofTimestamp := PublicInputs.proofTimestamp (publicInputs result);
               PublicInputs.eventId := PublicInputs.eventId (publicInputs result);
               PublicInputs.iacaRoot := PublicInputs.iacaRoot (publicInputs result);
               PublicInputs.boundAddress := PublicInputs.boundAddress (publicInputs result);
               PublicInputs.proveAgeOver21 := PublicInputs.proveAgeOver21 (publicInputs result);
               PublicInputs.proveAgeOver18 := PublicInputs.proveAgeOver18 (publicInputs result);
               PublicInputs.proveState := PublicInputs.proveState (publicInputs result);
               PublicInputs.provenState := PublicInputs.provenState (publicInputs result) |} |}.

(** What [initProver] and [destroyProver] keep: a backend is never set
    without a Barretenberg instance, a [Noir] instance and a current
    circuit. *)
Definition prover_consistent (st : ProverState) : Prop :=
  backend st <> None ->
  barretenbergAPI st <> None /\ noir st <> None /\ currentCircuit st <> None.

(** The module states that calls of [initProver] and [destroyProver]
    reach from the initial one, whatever the libraries answer. *)
Inductive prover_reachable : ProverState -> Prop :=
| reachable_initial : prover_reachable prover_initial
| reachable_initProver p circuit st :
    prover_reachable st -> prover_reachable (initProver p circuit st).2
| reachable_destroyProver p st :
    prover_reachable st -> prover_reachable (destroyProver p st).2.
End ProverModule.
Arguments ProverState : clear implicits.
Arguments ProverPlatform : clear implicits.
Arguments Noir : clear implicits.
Arguments UltraHonkBackend : clear implicits.

(** *** Concrete inputs for the prover module *)

(** Stand-ins for the libraries: a [Noir] whose witness is the unit
    value, a backend whose proof is four fixed bytes, and the hash of
    [bb_stub]; circuits are numbered. *)
Definition example_noir : Noir unit := {| execute := fun _ => Ok tt |}.

Definition example_backend : UltraHonkBackend unit :=
  {| backend_generateProof := fun _ => Ok [xde; xad; xbe; xef];
     verifyProof := fun _ _ => Ok true |}.

Definition example_platform : ProverPlatform nat unit :=
  {| Barretenberg_new := Ok bb_stub;
     Noir_new := fun _ => Ok example_noir;
     UltraHonkBackend_new := fun _ _ => Ok example_backend;
     Barretenberg_destroy := fun _ => Ok tt;
     Date_now := 1704067200123 |}.

(** The same libraries, with a backend constructor that throws. *)
Definition failing_backend_platform : ProverPlatform nat unit :=
  {| Barretenberg_new := Ok bb_stub;
     Noir_new := fun _ => Ok {| execute := fun _ => Throw (JsError "Error" "other circuit") |};
     UltraHonkBackend_new := fun _ _ => Throw (JsError "Error" "backend");
     Barretenberg_destroy := fun _ => Ok tt;
     Date_now := 1704067200123 |}.

Definition example_bytecode (circuit : nat) : string := "H4sIAAAAAAAA".

(** The module state after [initProver] with circuit 0. *)
Definition example_prover_state : ProverState nat unit :=
  (initProver example_bytecode example_platform 0 prover_initial).2.

(** A credential whose state claim holds ["CA"] at offset 66. *)
Definition example_credential : Credential :=
  {| msoBytes := replicate 512 x00;
     msoSignature := replicate 64 x00;
     ageOver21ClaimBytes := replicate 96 x00;
     ageOver18ClaimBytes := replicate 96 x00;
     stateClaimBytes := replicate 66 x00 ++ [x43; x41] ++ replicate 39 x00;
     documentNumber := example_documentNumber;
     iacaPubkeyX := example_x;
     iacaPubkeyY := example_y |}.

Definition example_options : ProofGenerationOptions :=
  {| eventId := "test-event-2024";
     boundAddress := "0xd8dA6BF26964aF9D7eEd9e03E53415D37aA96045";
     timestamp := None;
     proveAgeOver21 := Some true;
     proveAgeOver18 := None;
     proveState := Some true |}.

(** What [Thurin.generateProof] returns for them. *)
Definition example_generated : result GeneratedProof :=
  Eval vm_compute in
    Thurin_generateProof example_platform example_credential example_options
      example_prover_state.

Definition example_proof : GeneratedProof :=
  Eval vm_compute in
    match example_generated with
    | Ok g => g
    | Throw _ =>
        {| proof := EmptyString;
           publicInputs :=
             {| PublicInputs.nullifier := EmptyString; PublicInputs.proofTimestamp := 0;
                PublicInputs.eventId := EmptyString; PublicInputs.iacaRoot := EmptyString;
                PublicInputs.boundAddress := EmptyString;
                PublicInputs.proveAgeOver21 := false; PublicInputs.proveAgeOver18 := false;
                PublicInputs.proveState := false; PublicInputs.provenState := [] |} |}
    end.

(** ** [credential/request.ts] *)

(** The claim types of [ClaimType]. *)
Definition claim_types : list string :=
  [ "age_over_21"; "age_over_18"; "issuing_jurisdiction"; "document_number";
    "expiry_date" ]%string.

(** [mapClaimToElement(claim)]; at run time a claim is a string. *)
Definition mapClaimToElement (claim : string) : result string :=
  if String.eqb claim "age_over_21" then Ok "age_over_21"%string
  else if String.eqb claim "age_over_18" then Ok "age_over_18"%string
  else if String.eqb claim "issuing_jurisdiction" then Ok "issuing_jurisdiction"%string
  else if String.eqb claim "document_number" then Ok "document_number"%string
  else if String.eqb claim "expiry_date" then Ok "expiry_date"%string
  else Throw (CredentialError ("Unknown claim type: " ++ claim) INVALID_CLAIM).

(** [claims.includes(claim)]. *)
Definition includes (claims : list string) (claim : string) : bool :=
  existsb (String.eqb claim) claims.

(** The loop [for (const claim of claims) elements[...] = false]. *)
Fixpoint request_elements (claims : list string) (elements : list (string * JsVal))
  : result (list (string * JsVal)) :=
  match claims with
  | [] => Ok elements
  | claim :: claims' =>
      element ← mapClaimToElement claim;
      request_elements claims' (CborRef.obj_set elements element (VBool false))
  end.

(** [buildNameSpaces(claims)]: the properties of the object [elements],
    in insertion order. *)
Definition buildNameSpaces (claims : list string) : result (list (string * JsVal)) :=
  elements ← request_elements claims [];
  let elements :=
    if negb (includes claims "document_number")
    then CborRef.obj_set elements "document_number" (VBool false) else elements in
  let elements :=
    if negb (includes claims "expiry_date")
    then CborRef.obj_set elements "expiry_date" (VBool false) else elements in
  Ok elements.

(** A value used as a number where the source declares [number]. *)
Definition as_number (v : JsVal) : result Z :=
  match v with
  | VNum n => Ok n
  | _ => Throw (TypeError "not a number")
  end.

(** [Array.isArray(v)]. *)
Definition isArray (v : JsVal) : bool :=
  match v with
  | VArr _ => true
  | _ => false
  end.

Definition mDL_docType : string := "org.iso.18013.5.1.mDL".

(** [documents.find((d) => d.docType === 'org.iso.18013.5.1.mDL')]. *)
Fixpoint find_mDL (documents : list JsVal) : result JsVal :=
  match documents with
  | [] => Ok VUndefined
  | d :: documents' =>
      docType ← get_prop d "docType";
      match docType with
      | VStr s => if String.eqb s mDL_docType then Ok d else find_mDL documents'
      | _ => find_mDL documents'
      end
  end.

Section Request.
Context {cborg : Cborg}.

(** [buildDeviceRequest(claims)]. *)
Definition buildDeviceRequest (claims : list string) : result Uint8Array :=
  nameSpaces ← buildNameSpaces claims;
  inner ← encode (VObj nameSpaces);
  middle ← encode (VObj [("org.iso.18013.5.1"%string, VBytes inner)]);
  itemsRequest ← encode (VObj [ ("docType"%string, VStr mDL_docType);
                                ("nameSpaces"%string, VBytes middle) ]);
  encode (VObj [ ("version"%string, VStr "1.0");
                 ("docRequests"%string,
                  VArr [VObj [("itemsRequest"%string, VBytes itemsRequest)]]) ]).

(** The callback of [mdlNamespace.map] in [parseDeviceResponse]. *)
Definition parse_item (itemBytes : JsVal) : result RawIssuerSignedItem :=
  bytes ← as_Uint8Array itemBytes;
  item ← decode bytes;
  digestID ← get_prop item "digestID";
  random ← get_prop item "random";
  elementIdentifier ← get_prop item "elementIdentifier";
  elementValue ← get_prop item "elementValue";
  digestID ← as_number digestID;
  random ← as_Uint8Array random;
  elementIdentifier ← as_string elementIdentifier;
  Ok {| digestID := digestID;
        random := random;
        elementIdentifier := elementIdentifier;
        elementValue := elementValue;
        rawBytes := bytes |}.

(** [array.map(f)] for a callback that can throw. *)
Fixpoint map_items (items : list JsVal) : result (list RawIssuerSignedItem) :=
  match items with
  | [] => Ok []
  | itemBytes :: items' =>
      item ← parse_item itemBytes;
      rest ← map_items items';
      Ok (item :: rest)
  end.

Definition parse_error (message : string) : Thrown := CredentialError message PARSE_ERROR.

(** [parseDeviceResponse(deviceResponse)]. *)
Definition parseDeviceResponse (deviceResponse : JsVal) : result RawCredentialResponse :=
  let resp := deviceResponse in
  documents ← get_prop resp "documents";
  match documents with
  | VArr (d :: ds) =>
      doc ← find_mDL (d :: ds);
      if negb (js_truthy doc) then Throw (parse_error "No mDL document in DeviceResponse")
      else
        issuerSigned ← get_prop doc "issuerSigned";
        if negb (js_truthy issuerSigned) then Throw (parse_error "No issuerSigned in document")
        else
          issuerAuth ← get_prop issuerSigned "issuerAuth";
          if negb (js_truthy issuerAuth) then Throw (parse_error "No issuerAuth in issuerSigned")
          else
            nameSpaces ← get_prop issuerSigned "nameSpaces";
            if negb (js_truthy nameSpaces) then Throw (parse_error "No nameSpaces in issuerSigned")
            else
              mdlNamespace ← get_prop nameSpaces "org.iso.18013.5.1";
              match mdlNamespace with
              | VArr itemsBytes =>
                  items ← map_items itemsBytes;
                  issuerAuth ← match issuerAuth with
                               | VBytes b => Ok b
                               | _ => encode issuerAuth
                               end;
                  Ok {| issuerAuth := issuerAuth; namespaces := Some items |}
              | _ => Throw (parse_error "No org.iso.18013.5.1 namespace in response")
              end
  | _ => Throw (parse_error "No documents in DeviceResponse")
  end.
End Request.

(** A stand-in for [Date.parse] that accepts no string. *)
Definition example_dates : DatePlatform := {| Date_parse := fun _ => None |}.

(** A decrypted device response: a document of another type, then the
    mDL document that carries [example_issuerAuth] and the items of
    [example_raw] as byte strings. *)
Definition example_deviceResponse : JsVal :=
  VObj [ ("version"%string, VStr "1.0");
         ("documents"%string,
          VArr [ VObj [("docType"%string, VStr "org.iso.23220.photoid.1")];
                 VObj [ ("docType"%string, VStr mDL_docType);
                        ("issuerSigned"%string,
                         VObj [ ("nameSpaces"%string,
                                 VObj [("org.iso.18013.5.1"%string,
                                        VArr (map (fun item => VBytes (rawBytes item))
                                                (default [] (namespaces example_raw))))]);
                                ("issuerAuth"%string, VBytes example_issuerAuth) ]) ] ]);
         ("status"%string, VNum 0) ].

(** ** [credential/parse.ts]: the mock credential *)

(** What the platform answers to [createMockCredential]: the bytes of
    the [n]-th call of [crypto.getRandomValues], the time value of the
    [n]-th [new Date()], and [toISOString] of a valid time value. *)
Class MockPlatform : Type := {
  random_byte : nat -> nat -> byte;
  now : nat -> Z;
  Date_toISOString : Z -> string
}.

(** The [call]-th [crypto.getRandomValues(array)]: the array, filled. *)
Definition getRandomValues {platform : MockPlatform} (call : nat) (array : Uint8Array)
  : Uint8Array :=
  map (random_byte call) (seq 0 (length array)).

(** [date.toISOString()], which throws for an invalid date. *)
Definition toISOString {platform : MockPlatform} (date : Date) : result string :=
  match date with
  | Some time => Ok (Date_toISOString time)
  | None => Throw (RangeError "Invalid time value")
  end.

(** The options of [createMockCredential]. *)
Record MockOptions : Type := {
  ageOver21 : option bool;
  ageOver18 : option bool;
  state : option string;
  mock_documentNumber : option string;
  expiryDate : option Date
}.

Section MockCredential.
Context {cborg : Cborg} {dates : DatePlatform} {platform : MockPlatform}.

(** The object literal of a mock claim. *)
Definition mock_claim (digest : Z) (call : nat) (identifier : string) (value : JsVal) : JsVal :=
  VObj [ ("digestID"%string, VNum digest);
         ("random"%string, VBytes (getRandomValues call (Uint8Array_new 32)));
         ("elementIdentifier"%string, VStr identifier);
         ("elementValue"%string, value) ].

(** [createMockCredential(options)]. *)
Definition createMockCredential (options : option MockOptions) : result Credential :=
  let ageOver21 := default true (options ≫= ageOver21) in
  let ageOver18 := default true (options ≫= ageOver18) in
  let state := default "CA"%string (options ≫= state) in
  let documentNumber := default "D1234567"%string (options ≫= mock_documentNumber) in
  let expiryDate := default (Date_parse "2030-01-01") (options ≫= expiryDate) in
  ageOver21Claim ← encode (mock_claim 0 0 "age_over_21" (VBool ageOver21));
  ageOver18Claim ← encode (mock_claim 2 1 "age_over_18" (VBool ageOver18));
  stateClaim ← encode (mock_claim 1 2 "issuing_jurisdiction" (VStr state));
  let digest0 := getRandomValues 3 (Uint8Array_new 32) in
  let digest1 := getRandomValues 4 (Uint8Array_new 32) in
  let digest2 := getRandomValues 5 (Uint8Array_new 32) in
  signed ← toISOString (Some (now 0));
  validFrom ← toISOString (Some (now 1));
  validUntil ← toISOString expiryDate;
  mso ← encode
          (VObj [ ("digestAlgorithm"%string, VStr "SHA-256");
                  ("docType"%string, VStr "org.iso.18013.5.1.mDL");
                  ("valueDigests"%string,
                   VObj [("org.iso.18013.5.1"%string,
                          VObj [ ("0"%string, VBytes digest0);
                                 ("1"%string, VBytes digest1);
                                 ("2"%string, VBytes digest2) ])]);
                  ("validityInfo"%string,
                   VObj [ ("signed"%string, VStr signed);
                          ("validFrom"%string, VStr validFrom);
                          ("validUntil"%string, VStr validUntil) ]) ]);
  let mockPubkeyX := getRandomValues 6 (Uint8Array_new 32) in
  let mockPubkeyY := getRandomValues 7 (Uint8Array_new 32) in
  let mockSignature := getRandomValues 8 (Uint8Array_new 64) in
  msoBytes ← padToSize mso 512;
  ageOver21ClaimBytes ← padToSize ageOver21Claim 96;
  ageOver18ClaimBytes ← padToSize ageOver18Claim 96;
  stateClaimBytes ← padToSize stateClaim 107;
  documentNumber ← stringToBytes documentNumber 32;
  Ok {| msoBytes := msoBytes;
        msoSignature := mockSignature;
        ageOver21ClaimBytes := ageOver21ClaimBytes;
        ageOver18ClaimBytes := ageOver18ClaimBytes;
        stateClaimBytes := stateClaimBytes;
        documentNumber := documentNumber;
        iacaPubkeyX := mockPubkeyX;
        iacaPubkeyY := mockPubkeyY |}.
End MockCredential.

(** A stand-in platform: the byte [i] of call [n] is [16 n + i + 1]
    modulo 256, a fixed clock, and a fixed timestamp text. *)
Definition example_mock_platform : MockPlatform :=
  {| random_byte := fun n i => byte_of_Z (Z.of_nat (16 * n + i + 1));
     now := fun _ => 1704067200000%Z;
     Date_toISOString := fun _ => "2024-01-01T00:00:00.000Z"%string |}.

(** Options that give the expiry date only (2030-01-01). *)
Definition example_mock_options : MockOptions :=
  {| ageOver21 := None; ageOver18 := None; state := None;
     mock_documentNumber := None; expiryDate := Some (Some 1893456000000%Z) |}.

(** ** [credential/hpke.ts] and [credential/request.ts]: the request *)

(** [message.includes(search)]. *)
Fixpoint String_includes (message search : string) : bool :=
  if String.prefix search message then true
  else
    match message with
    | EmptyString => false
    | String _ rest => String_includes rest search
    end.

(** The global [navigator] as the request code meets it. The operator
    [in] throws a [TypeError] when its right operand is not an object,
    and a property can be present with a value that is not an object
    ([undefined] and [null] among them). *)
Inductive CredentialsGet : Type :=
| get_not_callable
| get_method (call : JsVal -> LibraryResult JsVal).

(** [navigator.credentials], where [navigator] has the property: a value
    that is not an object, or an object with its [get] property where it
    has one. *)
Inductive NavigatorCredentials : Type :=
| credentials_not_object
| credentials_object (get : option CredentialsGet).

(** [navigator]: not defined (its [typeof] is ['undefined']), a value
    that is not an object, or an object with its [credentials] property
    where it has one. *)
Inductive Navigator : Type :=
| navigator_undefined
| navigator_not_object
| navigator_object (credentials : option NavigatorCredentials).

(** The browser as the request code meets it: [navigator], which the code
    reads in the support check and again for the call and which is taken
    not to change in between; [window.location.origin] where there is a
    window; [btoa] on a string of code units; the test
    [error instanceof DOMException] with [error.name]; and, for a new
    session, [crypto.subtle.generateKey] (the public and the private key),
    [exportKey] in raw format and the bytes of [getRandomValues]. None of
    these knows the class [CredentialError]. *)
Class Browser {subtle : WebCrypto} : Type := {
  navigator : Navigator;
  window_location_origin : option string;
  btoa : list Z -> LibraryResult string;
  instanceof_DOMException : string -> string -> bool;
  generateKey_ECDH : LibraryResult (CryptoKey * CryptoKey);
  exportKey_raw : CryptoKey -> LibraryResult Uint8Array;
  nonce_byte : nat -> byte
}.

(** What [requestCredential] returns: the response parsed from the
    decrypted bytes, or, for a response without encryption parameters,
    the response object itself, which the source returns under the cast
    [as RawCredentialResponse] without looking at it. *)
Inductive RequestedCredential : Type :=
| Decrypted (raw : RawCredentialResponse)
| AsReceived (rawResponse : JsVal).

Section RequestCredential.
Context {subtle : WebCrypto} {cborg : Cborg} {browser : Browser}.

(** The [TypeError] of [key in value] for a value that is not an object. *)
Definition in_operator_error : Thrown :=
  TypeError "Cannot use 'in' operator to search for a key in a value that is not an object".

(** [isDigitalCredentialsSupported()]:
    [typeof navigator !== 'undefined' && 'credentials' in navigator &&
    'get' in navigator.credentials]. *)
Definition isDigitalCredentialsSupported : result bool :=
  match navigator with
  | navigator_undefined => Ok false
  | navigator_not_object => Throw in_operator_error
  | navigator_object None => Ok false
  | navigator_object (Some credentials_not_object) => Throw in_operator_error
  | navigator_object (Some (credentials_object None)) => Ok false
  | navigator_object (Some (credentials_object (Some _))) => Ok true
  end.

(** [navigator.credentials.get(request)]. The code comes to this call
    after [isDigitalCredentialsSupported()] returned [true], where
    [navigator.credentials] is an object with a [get] property; a [get]
    that is not a function cannot be called. *)
Definition navigator_credentials_get (request : JsVal) : result JsVal :=
  match navigator with
  | navigator_object (Some (credentials_object (Some (get_method call)))) =>
      library_call (call request)
  | _ => Throw (TypeError "navigator.credentials.get is not a function")
  end.

(** [getCurrentOrigin()]. *)
Definition getCurrentOrigin : string :=
  default "https://localhost"%string window_location_origin.

(** [toBase64(bytes)]. *)
Definition toBase64 (bytes : Uint8Array) : result string :=
  library_call (btoa (String_fromCharCode (map byte_to_Z bytes))).

(** [createHPKESession(origin)]: the session and the encryption info. *)
Definition createHPKESession (origin : string) : result (HPKESession * Uint8Array) :=
  '(publicKey, privateKey) ← library_call generateKey_ECDH;
  publicKeyBytes ← library_call (exportKey_raw publicKey);
  let nonce := map nonce_byte (seq 0 (length (Uint8Array_new 12))) in
  encryptionInfo ← encode (VObj [ ("publicKey"%string, VBytes publicKeyBytes);
                                  ("nonce"%string, VBytes nonce) ]);
  Ok ({| privateKey := privateKey;
         publicKeyBytes := publicKeyBytes;
         nonce := nonce;
         origin := origin |},
      encryptionInfo).

(** The argument of [navigator.credentials.get]. *)
Definition credential_request (deviceRequest encryptionInfo : string) : JsVal :=
  VObj [ ("mediation"%string, VStr "required");
         ("digital"%string,
          VObj [("requests"%string,
                 VArr [VObj [ ("protocol"%string, VStr "org-iso-mdoc");
                              ("data"%string,
                               VObj [ ("deviceRequest"%string, VStr deviceRequest);
                                      ("encryptionInfo"%string, VStr encryptionInfo) ]) ]])]) ].

(** [decryptCredentialResponse] on the document that [requestCredential]
    builds from the response, whose fields have no checked type. The body
    of its [try] block: an [EDeviceKey] and a [data] that are byte strings
    go through [decrypt_steps]. Any other [EDeviceKey] is encoded into the
    session transcript as it is and then given to
    [crypto.subtle.importKey], and any other [data] is given to
    [crypto.subtle.decrypt] after the key derivation; WebCrypto rejects
    what is not a buffer with a [TypeError]. Decryption reads
    [encryptionParameters.EDeviceKey] and [data] only; the two version
    strings and [originInfoBytes] are carried and never read, and are left
    empty here. *)
Definition not_a_buffer : Thrown :=
  TypeError "The provided value is not of type '(ArrayBuffer or ArrayBufferView)'".

Definition decrypt_received_steps (encryptionParameters data : JsVal)
    (session : HPKESession) : result Uint8Array :=
  enc ← get_prop encryptionParameters "EDeviceKey";
  match enc with
  | VBytes enc =>
      match data with
      | VBytes ciphertext =>
          decrypt_steps
            {| version := EmptyString;
               encryptionParameters :=
                 {| ep_version := EmptyString; EDeviceKey := enc; originInfoBytes := [] |};
               data := ciphertext |}
            session
      | _ =>
          sessionTranscript ← buildSessionTranscript session enc;
          sharedSecret ← decap enc (privateKey session) (publicKeyBytes session);
          '(key, baseNonce) ← keyScheduleR sharedSecret (Uint8Array_new 0);
          cryptoKey ← importKey AES_GCM key;
          Throw not_a_buffer
      end
  | _ =>
      originInfo ← encode (VObj [("origin"%string, VStr (origin session))]);
      requesterIdentity ← encode (VObj []);
      sessionTranscript ←
        encode (VArr [VNull; VNull;
                      VArr [ VStr "BrowserHandoverv1";
                             VBytes (nonce session);
                             VBytes originInfo;
                             VBytes requesterIdentity;
                             enc ]]);
      Throw not_a_buffer
  end.

(** The call with its [catch] block, which is that of
    [decryptCredentialResponse]. *)
Definition decrypt_received (encryptionParameters data : JsVal) (session : HPKESession)
  : result Uint8Array :=
  try_catch (decrypt_received_steps encryptionParameters data session)
    (fun error =>
       Throw (CredentialError
                ("Failed to decrypt credential response: " ++ error_message error)
                PARSE_ERROR)).

(** The [try] block of [requestCredential]. *)
Definition request_steps (claims : list string) : result RequestedCredential :=
  deviceRequest ← buildDeviceRequest claims;
  let origin := getCurrentOrigin in
  '(session, encryptionInfo) ← createHPKESession origin;
  deviceRequest64 ← toBase64 deviceRequest;
  encryptionInfo64 ← toBase64 encryptionInfo;
  credential ← navigator_credentials_get (credential_request deviceRequest64 encryptionInfo64);
  if negb (js_truthy credential) then
    Throw (CredentialError "No credential returned from wallet" NO_CREDENTIAL)
  else
    data ← get_prop credential "data";
    rawResponse ← (if is_nullish data then get_prop credential "response" else Ok data);
    if negb (js_truthy rawResponse) then
      Throw (CredentialError "Invalid credential response structure" PARSE_ERROR)
    else
      encryptionParameters ← get_prop rawResponse "encryptionParameters";
      if js_truthy encryptionParameters then
        data ← get_prop rawResponse "data";
        if js_truthy data then
          decryptedBytes ← decrypt_received encryptionParameters data session;
          deviceResponse ← decode decryptedBytes;
          raw ← parseDeviceResponse deviceResponse;
          Ok (Decrypted raw)
        else Ok (AsReceived rawResponse)
      else Ok (AsReceived rawResponse).

(** [error.name] of a thrown value. *)
Definition error_name (error : Thrown) : string :=
  match error with
  | CredentialError _ _ => "CredentialError"
  | JsError name _ => name
  | NonError => EmptyString
  end.

(** [error instanceof DOMException]. *)
Definition is_DOMException (error : Thrown) : bool :=
  match error with
  | JsError name message => instanceof_DOMException name message
  | _ => false
  end.

(** The [catch] block of [requestCredential]. *)
Definition request_catch (error : Thrown) : Thrown :=
  if is_CredentialError error then error
  else
    let message := error_message error in
    if String_includes message "No supported document requests" then
      CredentialError
        "No mobile driver's license found in wallet. Please add your mDL to Apple Wallet or Google Wallet first."
        NO_CREDENTIAL
    else if is_DOMException error && String.eqb (error_name error) "NotAllowedError" then
      CredentialError "User declined the credential request" USER_CANCELLED
    else if is_DOMException error && String.eqb (error_name error) "NotSupportedError" then
      CredentialError "Digital Credentials API is not supported" NOT_SUPPORTED
    else CredentialError ("Failed to request credential: " ++ message) UNKNOWN.

(** [requestCredential(options)], for the claims of the options. The
    support check stands before the [try] block. *)
Definition requestCredential (claims : list string) : result RequestedCredential :=
  supported ← isDigitalCredentialsSupported;
  if negb supported then
    Throw (CredentialError
             "Digital Credentials API is not supported in this browser. Please use Safari on iOS 26+ or Chrome on Android 128+."
             NOT_SUPPORTED)
  else try_catch (request_steps claims) (fun error => Throw (request_catch error)).
End RequestCredential.

(* ================================================================== *)
(** * Part II. Properties *)
(* ================================================================== *)

(** ** Typed arrays *)

Lemma u8_slice_0 (b : Uint8Array) (n : nat) : u8_slice b 0 n = take n b.
Proof. unfold u8_slice. by rewrite Nat.sub_0_r, drop_0. Qed.

Lemma u8_set_0_zeros (src : Uint8Array) (n : nat) :
  length src <= n ->
  u8_set (Uint8Array_new n) src 0 = Ok (src ++ replicate (n - length src) x00).
Proof.
  intros Hle. unfold u8_set, Uint8Array_new.
  rewrite length_replicate. simpl.
  destruct (decide (length src <= n)) as [_|]; [|lia].
  by rewrite drop_replicate.
Qed.

Lemma u8_set_right_zeros (src : Uint8Array) (n : nat) :
  length src <= n ->
  u8_set (Uint8Array_new n) src (n - length src)
  = Ok (replicate (n - length src) x00 ++ src).
Proof.
  intros Hle. unfold u8_set, Uint8Array_new.
  rewrite length_replicate.
  destruct (decide (n - length src + length src <= n)) as [_|]; [|lia].
  rewrite take_replicate, drop_replicate.
  replace (n - (n - length src + length src)) with 0 by lia.
  replace ((n - length src) `min` n) with (n - length src) by lia.
  simpl. by rewrite app_nil_r.
Qed.

(** Closed form of [padToSize]: truncate to [size], then zero-fill. *)
Lemma padToSize_eq (b : Uint8Array) (n : nat) :
  padToSize b n = Ok (take n b ++ replicate (n - length b) x00).
Proof.
  unfold padToSize. destruct (decide (length b = n)) as [<-|Hne].
  - rewrite take_ge by lia. rewrite Nat.sub_diag. simpl. by rewrite app_nil_r.
  - rewrite u8_slice_0, u8_set_0_zeros by (rewrite length_take; lia).
    rewrite length_take. do 3 f_equal. lia.
Qed.

(** C10: [padToSize] always returns a buffer of the target width and is
    idempotent; a buffer that already has the target width is returned
    unchanged, and a shorter buffer is returned followed by zero bytes
    only, up to the target width. *)
Theorem padToSize_idempotent (b : Uint8Array) (size : nat) :
  exists r,
    padToSize b size = Ok r /\
    length r = size /\
    padToSize r size = Ok r /\
    (length b = size -> r = b) /\
    (length b < size -> r = b ++ replicate (size - length b) x00).
Proof.
  exists (take size b ++ replicate (size - length b) x00).
  assert (Hlen : length (take size b ++ replicate (size - length b) x00) = size).
  { rewrite length_app, length_take, length_replicate. lia. }
  split; [apply padToSize_eq|]. split; [exact Hlen|]. split; [|split].
  - unfold padToSize. by rewrite decide_True.
  - intros <-. rewrite take_ge by lia. rewrite Nat.sub_diag. simpl.
    by rewrite app_nil_r.
  - intros Hlt. by rewrite take_ge by lia.
Qed.

(** ** Bytes, integers and hex strings *)

Lemma byte_to_Z_range (b : byte) : (0 <= byte_to_Z b < 256)%Z.
Proof. unfold byte_to_Z. pose proof (Byte.to_N_bounded b). lia. Qed.

Lemma byte_of_to_Z (b : byte) : byte_of_Z (byte_to_Z b) = b.
Proof.
  unfold byte_of_Z, byte_to_Z. pose proof (Byte.to_N_bounded b).
  rewrite Z.mod_small by lia. by rewrite N2Z.id, Byte.of_to_N.
Qed.

Lemma byte_to_of_Z (z : Z) : (0 <= z < 256)%Z -> byte_to_Z (byte_of_Z z) = z.
Proof.
  intros Hz. unfold byte_of_Z, byte_to_Z. rewrite Z.mod_small by lia.
  destruct (Byte.of_N (Z.to_N z)) as [b|] eqn:E.
  - apply Byte.to_of_N in E. simpl. rewrite E. lia.
  - apply Byte.of_N_None_iff in E. lia.
Qed.

Lemma charCodeToBase16_hex_digit (d : nat) :
  d < 16 -> charCodeToBase16 (hex_digit d) = Some d.
Proof.
  intros Hd. do 16 (destruct d as [|d]; [reflexivity|]). lia.
Qed.

Lemma hex_of_byte_nibbles (b : byte) :
  exists hi lo,
    hex_of_byte b = [hex_digit hi; hex_digit lo] /\ hi < 16 /\ lo < 16 /\
    Z.of_nat (hi * 16 + lo) = byte_to_Z b.
Proof.
  unfold hex_of_byte, byte_to_Z. pose proof (Byte.to_N_bounded b) as Hb.
  set (n := N.to_nat (Byte.to_N b)).
  assert (Hn : n < 256) by (subst n; lia).
  exists (n / 16), (n mod 16). split; [done|].
  split; [apply Nat.Div0.div_lt_upper_bound; lia|].
  split; [apply Nat.mod_upper_bound; lia|].
  pose proof (Nat.div_mod_eq n 16). subst n. lia.
Qed.

Lemma length_hex_of_bytes (bs : Uint8Array) :
  length (concat (map hex_of_byte bs)) = 2 * length bs.
Proof. induction bs as [|b bs IH]; [done|]. simpl. lia. Qed.

Lemma hex_pairs_hex_of_bytes (bs : Uint8Array) :
  hex_pairs (concat (map hex_of_byte bs)) = Ok bs.
Proof.
  induction bs as [|b bs IH]; [done|].
  destruct (hex_of_byte_nibbles b) as (hi & lo & Hb & Hhi & Hlo & E).
  cbn [map concat]. rewrite Hb. cbn [app hex_pairs].
  rewrite !charCodeToBase16_hex_digit by done.
  rewrite IH. cbn. by rewrite E, byte_of_to_Z.
Qed.

(** [hexToBytes] inverts [bytesToHex]. *)
Lemma hexToBytes_bytesToHex (bs : Uint8Array) : hexToBytes (bytesToHex bs) = Ok bs.
Proof.
  unfold hexToBytes, bytesToHex. cbn [list_ascii_of_string].
  rewrite list_ascii_of_string_of_list_ascii. cbn [drop]. rewrite drop_0.
  rewrite length_hex_of_bytes.
  rewrite decide_True by (rewrite Nat.mul_comm; apply Nat.Div0.mod_mul).
  apply hex_pairs_hex_of_bytes.
Qed.

Lemma hex_value_hex_of_bytes (bs : Uint8Array) (acc : Z) :
  hex_value acc (concat (map hex_of_byte bs))
  = Ok (fold_left (fun a b => 256 * a + byte_to_Z b)%Z bs acc).
Proof.
  revert acc. induction bs as [|b bs IH]; intros acc; [done|].
  destruct (hex_of_byte_nibbles b) as (hi & lo & Hb & Hhi & Hlo & E).
  cbn [map concat]. rewrite Hb. cbn [app hex_value].
  rewrite !charCodeToBase16_hex_digit by done.
  rewrite IH. cbn [fold_left]. do 2 f_equal. lia.
Qed.

(** [BigInt] of the hex string of a non-empty byte array is the
    big-endian integer of the bytes. *)
Lemma BigInt_of_bytesToHex (bs : Uint8Array) :
  bs <> [] -> BigInt_of_hex (bytesToHex bs) = Ok (be_Z bs).
Proof.
  intros Hne. unfold BigInt_of_hex, bytesToHex. cbn [list_ascii_of_string].
  rewrite list_ascii_of_string_of_list_ascii.
  pose proof (hex_value_hex_of_bytes bs 0) as Hv.
  destruct (concat (map hex_of_byte bs)) as [|d ds] eqn:Ed; [|exact Hv].
  apply (f_equal length) in Ed. rewrite length_hex_of_bytes in Ed.
  destruct bs; [done|simpl in Ed; lia].
Qed.

Lemma be_Z_snoc (bs : Uint8Array) (b : byte) :
  be_Z (bs ++ [b]) = (256 * be_Z bs + byte_to_Z b)%Z.
Proof. unfold be_Z. by rewrite fold_left_app. Qed.

Lemma be_Z_bound (bs : Uint8Array) : (0 <= be_Z bs < 256 ^ Z.of_nat (length bs))%Z.
Proof.
  induction bs as [|b bs IH] using rev_ind; [by vm_compute|].
  rewrite be_Z_snoc, length_app. simpl length.
  replace (Z.of_nat (length bs + 1)) with (Z.succ (Z.of_nat (length bs))) by lia.
  rewrite Z.pow_succ_r by lia. pose proof (byte_to_Z_range b).
  generalize dependent (256 ^ Z.of_nat (length bs))%Z. intros; lia.
Qed.

(** *** Printing and reading hexadecimal numerals *)

Lemma charCodeToBase16_lt (c : ascii) (d : nat) :
  charCodeToBase16 c = Some d -> d < 16.
Proof.
  unfold charCodeToBase16. repeat case_decide; intros [= <-]; lia.
Qed.

Lemma hex_value_to_hex_digits (fuel : nat) (n : Z) (acc : list ascii) :
  (0 <= n < 16 ^ Z.of_nat fuel)%Z ->
  hex_value 0 (to_hex_digits fuel n acc) = hex_value n acc.
Proof.
  revert n acc. induction fuel as [|fuel IH]; intros n acc Hn.
  - simpl in *. by replace n with 0%Z by lia.
  - cbn [to_hex_digits]. destruct (Z.ltb_spec n 16) as [Hlt|Hge].
    + cbn [hex_value]. rewrite charCodeToBase16_hex_digit.
      * rewrite Z.mod_small by lia. f_equal. lia.
      * pose proof (Z.mod_pos_bound n 16). lia.
    + rewrite IH.
      * cbn [hex_value]. rewrite charCodeToBase16_hex_digit.
        -- f_equal. pose proof (Z.div_mod n 16).
           pose proof (Z.mod_pos_bound n 16). lia.
        -- pose proof (Z.mod_pos_bound n 16). lia.
      * rewrite Nat2Z.inj_succ, Z.pow_succ_r in Hn by lia.
        split; [apply Z.div_pos; lia|].
        apply Z.div_lt_upper_bound; lia.
Qed.

Lemma length_to_hex_digits (fuel : nat) (n : Z) (acc : list ascii) (k : nat) :
  1 <= k -> (0 <= n < 16 ^ Z.of_nat k)%Z ->
  length (to_hex_digits fuel n acc) <= length acc + k.
Proof.
  revert n acc k. induction fuel as [|fuel IH]; intros n acc k Hk Hn.
  - simpl. lia.
  - cbn [to_hex_digits]. destruct (Z.ltb_spec n 16) as [Hlt|Hge].
    + simpl. lia.
    + destruct k as [|[|k]]; [lia|simpl in Hn; lia|].
      etrans; [apply (IH _ _ (S k)); [lia|]|simpl; lia].
      rewrite (Nat2Z.inj_succ (S k)), Z.pow_succ_r in Hn by lia.
      split; [apply Z.div_pos; lia|].
      apply Z.div_lt_upper_bound; lia.
Qed.

Lemma hex_value_toString16 (n : Z) :
  (0 <= n)%Z -> hex_value 0 (list_ascii_of_string (toString16 n)) = Ok n.
Proof.
  intros Hn. unfold toString16. rewrite list_ascii_of_string_of_list_ascii.
  rewrite hex_value_to_hex_digits; [done|].
  split; [done|]. destruct (decide (n = 0%Z)) as [->|Hne]; [by vm_compute|].
  pose proof (Z.log2_spec n ltac:(lia)) as [_ Hlt].
  pose proof (Z.log2_nonneg n).
  rewrite Nat2Z.inj_succ, Z2Nat.id by done.
  eapply Z.lt_le_trans; [exact Hlt|].
  apply Z.pow_le_mono_l. lia.
Qed.

Lemma hex_value_leading_zeros (k : nat) (cs : list ascii) :
  hex_value 0 (replicate k "0"%char ++ cs) = hex_value 0 cs.
Proof. induction k as [|k IH]; [done|]. exact IH. Qed.

Lemma string_length_of_list_ascii (l : list ascii) :
  String.length (string_of_list_ascii l) = length l.
Proof. induction l as [|c l IH]; [done|]. simpl. by rewrite IH. Qed.

(** A numeral of an even number of valid digits reads as the byte array
    with the same value. *)
Lemma hex_pairs_of_value (n : nat) :
  forall (cs : list ascii) (a v : Z),
    length cs = 2 * n ->
    hex_value a cs = Ok v ->
    exists bs,
      hex_pairs cs = Ok bs /\ length bs = n /\
      fold_left (fun x b => 256 * x + byte_to_Z b)%Z bs a = v.
Proof.
  induction n as [|n IH]; intros cs a v Hlen Hv.
  - destruct cs; [|done]. simpl in Hv. injection Hv as <-. by exists [].
  - destruct cs as [|l [|r rest]]; [done|simpl in Hlen; lia|].
    cbn [hex_value] in Hv. cbn [hex_pairs].
    destruct (charCodeToBase16 l) as [dl|] eqn:El; [|done].
    destruct (charCodeToBase16 r) as [dr|] eqn:Er; [|done].
    apply charCodeToBase16_lt in El, Er.
    destruct (IH rest _ _ ltac:(simpl in Hlen; lia) Hv) as (bs & -> & Hl & Hf).
    eexists. split; [reflexivity|]. split; [simpl; lia|].
    cbn [fold_left]. rewrite byte_to_of_Z by lia.
    rewrite <- Hf. f_equal. lia.
Qed.

(** The 64-digit, zero-padded hex string of a number below [2^256]: it
    reads back as the number, and as the 32 bytes of its big-endian
    encoding. *)
Lemma hex64_of_field (n : Z) :
  (0 <= n < 2 ^ 256)%Z ->
  let hex := String "0" (String "x" (padStart0 64 (toString16 n))) in
  BigInt_of_hex hex = Ok n /\
  exists e, hexToBytes hex = Ok e /\ length e = 32 /\ be_Z e = n.
Proof.
  intros Hn hex. subst hex. unfold padStart0.
  set (ds := list_ascii_of_string (toString16 n)).
  assert (Hds : length ds <= 64).
  { subst ds. unfold toString16. rewrite list_ascii_of_string_of_list_ascii.
    etrans; [apply (length_to_hex_digits _ n [] 64); [lia|]|simpl; lia].
    change (16 ^ Z.of_nat 64)%Z with (2 ^ 256)%Z. done. }
  assert (Hval : hex_value 0 (replicate (64 - length ds) "0"%char ++ ds) = Ok n).
  { rewrite hex_value_leading_zeros. apply hex_value_toString16. lia. }
  assert (Hlen : length (replicate (64 - length ds) "0"%char ++ ds) = 2 * 32).
  { rewrite length_app, length_replicate. lia. }
  assert (String.length (toString16 n) = length ds) as ->.
  { subst ds. by rewrite <- string_length_of_list_ascii,
      string_of_list_ascii_of_string. }
  split.
  - unfold BigInt_of_hex. cbn [list_ascii_of_string].
    rewrite list_ascii_of_string_of_list_ascii.
    destruct (replicate (64 - length ds) "0"%char ++ ds); [done|exact Hval].
  - unfold hexToBytes. cbn [list_ascii_of_string].
    rewrite list_ascii_of_string_of_list_ascii. cbn [drop]. rewrite drop_0.
    rewrite Hlen, decide_True by done.
    destruct (hex_pairs_of_value 32 _ _ _ Hlen Hval) as (e & He & Hl & Hf).
    by exists e.
Qed.

(** ** Keccak-256: published vectors, and the output length *)

Example keccak_256_vectors :
  bytesToHex (Keccak.keccak_256 [])
  = "0xc5d2460186f7233c927e7db2dcc703c0e500b653ca82273b7bfad8045d85a470"%string /\
  bytesToHex (Keccak.keccak_256 (TextEncoder_encode "abc"))
  = "0x4e03657aea45a94fc7d47ba826c8d667c0d1e6e33a64a036ec44f58fa12d6c45"%string.
Proof. split; by vm_compute. Qed.


Lemma keccak_round_length (A : list Z) (rc : Z) : length (Keccak.round A rc) = 25.
Proof. reflexivity. Qed.

Lemma keccak_f_length (A : list Z) : length A = 25 -> length (Keccak.keccak_f A) = 25.
Proof.
  unfold Keccak.keccak_f. generalize Keccak.round_constants.
  intros rcs. revert A. induction rcs as [|rc rcs IH]; intros A HA; [done|].
  simpl. apply IH, keccak_round_length.
Qed.

Lemma keccak_absorb_length (n : nat) (A : list Z) (msg : Uint8Array) :
  length A = 25 -> length (Keccak.absorb n A msg) = 25.
Proof.
  revert A msg. induction n as [|n IH]; intros A msg HA; [done|].
  simpl. apply IH, keccak_f_length. unfold Keccak.xor_block.
  rewrite length_zip_with, HA. reflexivity.
Qed.

Lemma keccak_256_length (msg : Uint8Array) : length (Keccak.keccak_256 msg) = 32.
Proof.
  unfold Keccak.keccak_256.
  set (A := Keccak.absorb _ _ _).
  assert (HA : length A = 25) by (apply keccak_absorb_length; reflexivity).
  rewrite length_take.
  assert (length (concat (map Keccak.bytes_of_lane A)) = 8 * length A) as ->.
  { clear. induction A as [|a A IH]; [done|]. simpl in *. lia. }
  lia.
Qed.

(** ** Witness assembly: padding and event identifiers *)

Lemma padTo32Bytes_eq (input : Uint8Array) :
  padTo32Bytes input
  = Ok (if decide (32 <= length input) then take 32 input
        else spec_right_aligned 32 input).
Proof.
  unfold padTo32Bytes. case_decide.
  - by rewrite u8_slice_0.
  - apply u8_set_right_zeros. lia.
Qed.

Lemma padTo32Bytes_length (input r : Uint8Array) :
  padTo32Bytes input = Ok r -> length r = 32.
Proof.
  rewrite padTo32Bytes_eq. intros [= <-]. case_decide.
  - rewrite length_take. lia.
  - unfold spec_right_aligned. rewrite length_app, length_replicate. lia.
Qed.

(** A buffer that already has 32 bytes passes through [padTo32Bytes]. *)
Lemma padTo32Bytes_32 (input : Uint8Array) :
  length input = 32 -> padTo32Bytes input = Ok input.
Proof.
  intros Hl. rewrite padTo32Bytes_eq, decide_True by lia.
  by rewrite take_ge by lia.
Qed.

Lemma keccak256_stringToHex (s : string) :
  keccak256 (stringToHex s)
  = Ok (bytesToHex (Keccak.keccak_256 (TextEncoder_encode s))).
Proof.
  unfold keccak256, stringToHex. by rewrite hexToBytes_bytesToHex.
Qed.

Lemma spec_eventIdField_range (s : string) :
  (0 <= spec_eventIdField s < BN254_MODULUS)%Z.
Proof. unfold spec_eventIdField. apply Z.mod_pos_bound. reflexivity. Qed.

(** The prover's [hashEventId] never throws and returns the 64-digit hex
    string of the keccak hash reduced modulo the BN254 prime. *)
Lemma Prover_hashEventId_eq (s : string) :
  Prover.hashEventId s
  = Ok (String "0" (String "x" (padStart0 64 (toString16 (spec_eventIdField s))))).
Proof.
  unfold Prover.hashEventId. rewrite keccak256_stringToHex.
  cbn [mbind result_bind]. rewrite BigInt_of_bytesToHex; [done|].
  intros E. apply (f_equal length) in E. by rewrite keccak_256_length in E.
Qed.

Lemma Prover_hashEventId_field (s : string) :
  exists hex e,
    Prover.hashEventId s = Ok hex /\
    BigInt_of_hex hex = Ok (spec_eventIdField s) /\
    hexToBytes hex = Ok e /\ length e = 32 /\ be_Z e = spec_eventIdField s.
Proof.
  pose proof (spec_eventIdField_range s) as Hr.
  destruct (hex64_of_field (spec_eventIdField s)) as (Hb & e & He & Hl & Hv).
  { split; [lia|]. eapply Z.lt_trans; [apply Hr|]. reflexivity. }
  eexists _, e. split; [apply Prover_hashEventId_eq|]. done.
Qed.

(** The exported [hashEventId] returns the hex string of the keccak hash
    itself, which reads as the unreduced 256-bit number. *)
Lemma Contract_hashEventId_eq (s : string) :
  Contract.hashEventId s
  = Ok (bytesToHex (Keccak.keccak_256 (TextEncoder_encode s))) /\
  BigInt_of_hex (bytesToHex (Keccak.keccak_256 (TextEncoder_encode s)))
  = Ok (be_Z (Keccak.keccak_256 (TextEncoder_encode s))).
Proof.
  split; [apply keccak256_stringToHex|].
  apply BigInt_of_bytesToHex.
  intros E. apply (f_equal length) in E. by rewrite keccak_256_length in E.
Qed.

(** The two functions disagree on every event identifier whose keccak
    hash is not below the BN254 prime. *)
Lemma hashEventId_disagree (s : string) :
  (BN254_MODULUS <= be_Z (Keccak.keccak_256 (TextEncoder_encode s)))%Z ->
  Contract.hashEventId s <> Prover.hashEventId s.
Proof.
  intros Hge Heq.
  destruct (Contract_hashEventId_eq s) as [Hc Hcv].
  destruct (Prover_hashEventId_field s) as (hex & e & Hp & Hpv & _).
  rewrite Hc, Hp in Heq. injection Heq as Heq. rewrite Heq, Hpv in Hcv.
  injection Hcv as Hcv. pose proof (spec_eventIdField_range s). lia.
Qed.

(** Padding to 32 bytes keeps the big-endian value. *)
Lemma be_Z_leading_zeros (k : nat) (bs : Uint8Array) :
  be_Z (replicate k x00 ++ bs) = be_Z bs.
Proof.
  unfold be_Z. rewrite fold_left_app. f_equal.
  induction k as [|k IH]; [done|]. exact IH.
Qed.

Lemma spec_pad32_eq (bs : Uint8Array) :
  padTo32Bytes bs = Ok (spec_pad32 bs) /\
  length (spec_pad32 bs) = 32 /\
  (length bs <= 32 ->
   spec_pad32 bs = spec_right_aligned 32 bs /\ be_Z (spec_pad32 bs) = be_Z bs) /\
  (32 <= length bs -> spec_pad32 bs = take 32 bs).
Proof.
  unfold spec_pad32, spec_right_aligned. rewrite padTo32Bytes_eq.
  split; [|split; [|split]].
  - case_decide.
    + rewrite length_take. by replace (32 - 32 `min` length bs) with 0 by lia.
    + by rewrite take_ge by lia.
  - rewrite length_app, length_replicate, length_take. lia.
  - intros Hle. rewrite take_ge by lia. split; [done|]. apply be_Z_leading_zeros.
  - intros Hge. rewrite length_take. by replace (32 - 32 `min` length bs) with 0 by lia.
Qed.

(** C1: witness assembly feeds Poseidon2 exactly the two inputs
    (issuerPublicKeyX, issuerPublicKeyY), each padded to 32 bytes, for the
    issuer root, and exactly the three inputs (documentNumber padded to 32
    bytes, the event-id field element as 32 big-endian bytes, the issuer
    root) for the nullifier, in that order; the witness holds the hex
    strings of the two hashes, and assembly fails only when a hash call
    does. The padding is given in closed form: a buffer of at most 32
    bytes is right-aligned behind zero bytes and keeps its big-endian
    value; a buffer of more than 32 bytes is cut to its first 32 bytes.
    The buffers of a credential from [toProverCredential] or
    [createMockCredential] have 32 bytes and pass unchanged. *)
Theorem buildWitnessInputs_poseidon2_inputs `{bb : Barretenberg}
    (credential : Credential) (options : ProofGenerationOptions) (timestamp : Z) :
  let x := spec_pad32 (iacaPubkeyX credential) in
  let y := spec_pad32 (iacaPubkeyY credential) in
  let d := spec_pad32 (documentNumber credential) in
  (forall bs : Uint8Array,
     length (spec_pad32 bs) = 32 /\
     (length bs <= 32 ->
      spec_pad32 bs = spec_right_aligned 32 bs /\ be_Z (spec_pad32 bs) = be_Z bs) /\
     (length bs = 32 -> spec_pad32 bs = bs) /\
     (32 <= length bs -> spec_pad32 bs = take 32 bs)) /\
  exists e,
    length e = 32 /\ be_Z e = spec_eventIdField (eventId options) /\
    match buildWitnessInputs credential options timestamp with
    | Ok w =>
        exists root hash,
          poseidon2Hash [x; y] = Ok root /\
          iaca_root w = bytesToHex root /\
          poseidon2Hash [d; e; root] = Ok hash /\
          nullifier w = bytesToHex hash
    | Throw t =>
        poseidon2Hash [x; y] = Throw t \/
        exists root,
          poseidon2Hash [x; y] = Ok root /\
          poseidon2Hash [d; e; root] = Throw t
    end.
Proof.
  intros x y d. split.
  { intros bs. destruct (spec_pad32_eq bs) as (_ & Hl & Hle & Hge).
    split; [done|]. split; [done|]. split; [|done].
    intros E. rewrite (proj1 (Hle ltac:(lia))).
    unfold spec_right_aligned. by rewrite E. }
  destruct (Prover_hashEventId_field (eventId options))
    as (hex & e & Hhex & _ & He & Hel & Hev).
  destruct (spec_pad32_eq (iacaPubkeyX credential)) as [Hx _].
  destruct (spec_pad32_eq (iacaPubkeyY credential)) as [Hy _].
  destruct (spec_pad32_eq (documentNumber credential)) as [Hd _].
  exists e. split; [exact Hel|]. split; [exact Hev|].
  unfold buildWitnessInputs, computeIacaRoot, computeNullifier.
  rewrite Hx, Hy, Hd, Hhex. cbn [mbind result_bind]. fold x y d.
  destruct (poseidon2Hash [_; _]) as [root|t] eqn:Hroot; [|by left].
  cbn [mbind result_bind]. rewrite He, hexToBytes_bytesToHex.
  cbn [mbind result_bind].
  destruct (poseidon2Hash [_; _; _]) as [hash|t] eqn:Hhash.
  - cbn. by exists root, hash.
  - right. by exists root.
Qed.

(** C5: on the event identifier ["my-event"] the prover's [hashEventId]
    returns the keccak hash reduced modulo the BN254 prime while the
    exported [hashEventId] returns the unreduced hash, so the two
    functions give different results. *)
Theorem hashEventId_exported_not_reduced :
  Prover.hashEventId "my-event"
  = Ok "0x2661f917cc9f68d73f25ee0b25c18c510a21f45cbeaa409578468705f8d5a906"%string /\
  Contract.hashEventId "my-event"
  = Ok "0x56c6478aadd10900f77633c1a742e4ae3255dca53863b126bc287c99e8d5a907"%string /\
  BigInt_of_hex "0x2661f917cc9f68d73f25ee0b25c18c510a21f45cbeaa409578468705f8d5a906"
  = Ok (spec_eventIdField "my-event") /\
  Contract.hashEventId "my-event" <> Prover.hashEventId "my-event".
Proof.
  split; [by vm_compute|]. split; [by vm_compute|]. split; [by vm_compute|].
  apply hashEventId_disagree. by vm_compute.
Qed.

(** ** Single-bit changes *)








(** ** HPKE: session transcript and decryption *)

Section HpkeFacts.
Context {subtle : WebCrypto} {cborg : Cborg}.

(** C4: [buildSessionTranscript] is the CBOR encoding of
    [[null, null, [format tag, nonce, encode({origin}), encode({}), pkEm]]],
    a handover of exactly five elements in that order, and it depends on
    the session only through its origin and nonce: sessions that agree on
    both give the same transcript for the same encapsulated key, whatever
    their keys. *)
Theorem buildSessionTranscript_spec (session : HPKESession) (pkEm : Uint8Array) :
  buildSessionTranscript session pkEm
  = spec_sessionTranscript (origin session) (nonce session) pkEm /\
  (forall originInfo requesterIdentity,
     length (spec_handover "BrowserHandoverv1" (nonce session) originInfo
               requesterIdentity pkEm) = 5) /\
  (forall session' : HPKESession,
     origin session' = origin session -> nonce session' = nonce session ->
     buildSessionTranscript session' pkEm = buildSessionTranscript session pkEm).
Proof.
  split; [reflexivity|]. split; [reflexivity|].
  intros session' Ho Hn. unfold buildSessionTranscript. by rewrite Ho, Hn.
Qed.

(** Every failure of [decryptCredentialResponse] is the [PARSE_ERROR]
    wrapper of the failure of a step. *)
Lemma decryptCredentialResponse_throw (encrypted : EncryptedCredentialDocument)
    (session : HPKESession) (error : Thrown) :
  decryptCredentialResponse encrypted session = Throw error ->
  exists cause,
    decrypt_steps encrypted session = Throw cause /\
    error = CredentialError
              ("Failed to decrypt credential response: " ++ error_message cause)
              PARSE_ERROR.
Proof.
  unfold decryptCredentialResponse, try_catch.
  destruct (decrypt_steps encrypted session) as [pt|cause]; [done|].
  intros [= <-]. by exists cause.
Qed.




(** C8 (amended): [decryptCredentialResponse] does not consume the
    session. A call leaves the session object as it was, so the second of
    two calls with one session is the function applied to the same
    session: it performs the decryption of its document again, and for
    the same document it returns what the first call returned. No call
    fails with an already-consumed error: every failure is the
    [PARSE_ERROR] wrapper of a failed decryption step. *)
Theorem decryptCredentialResponse_does_not_consume
    (first second : EncryptedCredentialDocument) (session : HPKESession) :
  snd (decryptCredentialResponse_call first session) = session /\
  decrypt_twice first second session
  = (decryptCredentialResponse first session,
     decryptCredentialResponse second session,
     session) /\
  (forall r1 r2 session', decrypt_twice first first session = (r1, r2, session') -> r2 = r1) /\
  (forall r1 error session',
     decrypt_twice first second session = (r1, Throw error, session') ->
     exists cause,
       decrypt_steps second session = Throw cause /\
       error = CredentialError
                 ("Failed to decrypt credential response: " ++ error_message cause)
                 PARSE_ERROR).
Proof.
  split; [reflexivity|]. split; [reflexivity|]. split.
  - by intros r1 r2 session' [= <- <- _].
  - intros r1 error session' [= _ H _]. by apply decryptCredentialResponse_throw.
Qed.
End HpkeFacts.








(** The matching encryptor produces [example_document] for ["hello"],
    and [decryptCredentialResponse] opens it. *)
Example example_encrypt_hello :
  example_encrypt (TextEncoder_encode "hello") = Ok example_document /\
  @decryptCredentialResponse ToyCrypto.subtle cborg_ref example_document example_session
  = Ok (TextEncoder_encode "hello").
Proof. split; by vm_compute. Qed.

(** The transcript of the example session, byte for byte: the array of
    three, two nulls, the array of five, the 17-character tag, the 12-byte
    nonce, the 26 bytes of [encode({origin})], the one byte of
    [encode({})] and the 65-byte encapsulated key. *)
Example example_sessionTranscript :
  (transcript ← @buildSessionTranscript ToyCrypto.subtle cborg_ref example_session example_enc;
   Ok (bytesToHex transcript))
  = Ok ("0x83f6f685" ++ "7142726f7773657248616e646f7665727631"
        ++ "4c2a2a2a2a2a2a2a2a2a2a2a2a"
        ++ "581aa1666f726967696e7168747470733a2f2f6c6f63616c686f7374"
        ++ "41a0"
        ++ "584104" ++ "33333333333333333333333333333333"
        ++ "33333333333333333333333333333333"
        ++ "33333333333333333333333333333333"
        ++ "33333333333333333333333333333333")%string.
Proof. by vm_compute. Qed.


(** C8 (counterexample): the second of two calls with the same session
    decrypts [example_document] again and returns the plaintext. *)
Lemma second_decrypt_succeeds :
  @decrypt_twice ToyCrypto.subtle cborg_ref example_document example_document example_session
  = (Ok (TextEncoder_encode "hello"), Ok (TextEncoder_encode "hello"), example_session).
Proof.
  unfold decrypt_twice, decryptCredentialResponse_call.
  assert (decryptCredentialResponse example_document example_session
          = Ok (TextEncoder_encode "hello")) as -> by (by vm_compute).
  done.
Qed.

(** ** Issuer public-key extraction *)

Lemma byte_at_is_true (certBytes : Uint8Array) (i : nat) (b : byte) :
  byte_at_is certBytes i b = true <-> certBytes !! i = Some b.
Proof.
  unfold byte_at_is. destruct (certBytes !! i) as [c|]; [|done]. split.
  - by intros ->%Byte.byte_dec_bl.
  - intros [= ->]. by apply Byte.byte_dec_lb.
Qed.

Lemma pubkey_at_eq (certBytes : Uint8Array) (i : nat) :
  pubkey_at certBytes i
  = if byte_at_is certBytes i x04 then
      if (0 <? i) && byte_at_is certBytes (i - 1) x41 then
        if negb (isAllZeros (take 32 (drop (i + 1) certBytes)))
           && negb (isAllZeros (take 32 (drop (i + 33) certBytes)))
        then Some {| key_x := take 32 (drop (i + 1) certBytes);
                     key_y := take 32 (drop (i + 33) certBytes) |}
        else None
      else None
    else None.
Proof.
  unfold pubkey_at, u8_slice.
  replace (i + 33 - (i + 1)) with 32 by lia.
  by replace (i + 65 - (i + 33)) with 32 by lia.
Qed.

(** Within the loop's range, the test at index [i] succeeds exactly when
    the pattern starts one byte before [i]. *)
Lemma pubkey_at_Some (certBytes : Uint8Array) (i : nat) (key : PublicKeyXY) :
  i + 64 < length certBytes ->
  pubkey_at certBytes i = Some key <->
  exists pre post,
    certBytes = pre ++ [x41; x04] ++ key_x key ++ key_y key ++ post /\
    S (length pre) = i /\
    length (key_x key) = 32 /\ length (key_y key) = 32 /\
    isAllZeros (key_x key) = false /\ isAllZeros (key_y key) = false.
Proof.
  intros Hi. rewrite pubkey_at_eq. split.
  - destruct (byte_at_is certBytes i x04) eqn:H04; [|done].
    destruct i as [|j]; [done|]. cbn [Nat.ltb Nat.leb andb].
    replace (S j - 1) with j by lia.
    destruct (byte_at_is certBytes j x41) eqn:H41; [|done].
    apply byte_at_is_true in H04, H41.
    set (tail := drop (S (S j)) certBytes).
    assert (E1 : drop (S j + 1) certBytes = tail) by (subst tail; f_equal; lia).
    assert (E2 : drop (S j + 33) certBytes = drop 32 tail)
      by (subst tail; rewrite drop_drop; f_equal; lia).
    assert (Hl : 64 <= length tail) by (subst tail; rewrite length_drop; lia).
    rewrite E1, E2.
    destruct (isAllZeros (take 32 tail)) eqn:Hx; [done|].
    destruct (isAllZeros (take 32 (drop 32 tail))) eqn:Hy; [done|].
    cbn [negb andb]. intros [= <-]. cbn [key_x key_y].
    exists (take j certBytes), (drop 32 (drop 32 tail)).
    split; [|rewrite !length_take, !length_drop; repeat split; try done; lia].
    rewrite !take_drop.
    rewrite <- (take_drop_middle certBytes j x41) at 1 by done.
    f_equal. cbn [app]. f_equal.
    by rewrite (drop_S certBytes x04 (S j)) by done.
  - intros (pre & post & -> & <- & Hlx & Hly & Hx & Hy).
    destruct key as [x y]. cbn [key_x key_y] in *.
    assert (H04 : byte_at_is (pre ++ [x41; x04] ++ x ++ y ++ post) (S (length pre)) x04 = true).
    { apply byte_at_is_true. rewrite lookup_app_r by lia.
      by replace (S (length pre) - length pre) with 1 by lia. }
    assert (H41 : byte_at_is (pre ++ [x41; x04] ++ x ++ y ++ post) (S (length pre) - 1) x41 = true).
    { apply byte_at_is_true. rewrite lookup_app_r by lia.
      by replace (S (length pre) - 1 - length pre) with 0 by lia. }
    rewrite H04, H41. cbn [Nat.ltb Nat.leb andb].
    assert (Hdx : drop (S (length pre) + 1) (pre ++ [x41; x04] ++ x ++ y ++ post)
                  = x ++ y ++ post).
    { rewrite drop_app_ge by lia.
      by replace (S (length pre) + 1 - length pre) with 2 by lia. }
    assert (Hdy : drop (S (length pre) + 33) (pre ++ [x41; x04] ++ x ++ y ++ post)
                  = y ++ post).
    { rewrite drop_app_ge by lia.
      replace (S (length pre) + 33 - length pre) with (2 + 32) by lia.
      rewrite <- drop_drop. change (drop 2 ([x41; x04] ++ x ++ y ++ post)) with (x ++ y ++ post).
      by rewrite <- Hlx, drop_app_length. }
    rewrite Hdx, Hdy.
    assert (take 32 (x ++ y ++ post) = x) as -> by (by rewrite <- Hlx, take_app_length).
    assert (take 32 (y ++ post) = y) as -> by (by rewrite <- Hly, take_app_length).
    by rewrite Hx, Hy.
Qed.


Lemma scan_pubkey_None (certBytes : Uint8Array) (i remaining : nat) :
  scan_pubkey certBytes i remaining = None <->
  forall j, i <= j < i + remaining -> pubkey_at certBytes j = None.
Proof.
  revert i. induction remaining as [|n IH]; intros i; cbn [scan_pubkey].
  - split; [intros; lia|done].
  - destruct (pubkey_at certBytes i) as [k|] eqn:Hk.
    + split; [done|]. intros H. rewrite (H i) in Hk by lia. done.
    + rewrite IH. split.
      * intros H j Hj. destruct (decide (j = i)) as [->|]; [done|]. apply H. lia.
      * intros H j Hj. apply H. lia.
Qed.


Lemma extractPubkeyFromCert_complete (cert x y : Uint8Array) :
  spec_contains_pubkey cert x y ->
  exists key, extractPubkeyFromCert cert = Ok key.
Proof.
  intros (pre & post & Hc & Hlx & Hly & Hx & Hy). unfold extractPubkeyFromCert.
  assert (Hlen : length cert = length pre + 2 + 32 + 32 + length post).
  { rewrite Hc, !length_app, Hlx, Hly. simpl. lia. }
  destruct (scan_pubkey cert 0 (length cert - 64)) as [k|] eqn:Hs; [by exists k|].
  exfalso. rewrite scan_pubkey_None in Hs.
  specialize (Hs (S (length pre)) ltac:(lia)).
  assert (pubkey_at cert (S (length pre)) = Some {| key_x := x; key_y := y |}) as Hk.
  { apply pubkey_at_Some; [lia|]. by exists pre, post. }
  congruence.
Qed.

Lemma extractPubkeyFromCert_Throw (cert : Uint8Array) (t : Thrown) :
  extractPubkeyFromCert cert = Throw t ->
  t = CredentialError "Could not extract public key from certificate" PARSE_ERROR /\
  forall x y, ~ spec_contains_pubkey cert x y.
Proof.
  intros Ht. split.
  - unfold extractPubkeyFromCert in Ht.
    destruct (scan_pubkey cert 0 (length cert - 64)); [done|]. by injection Ht as <-.
  - intros x y Hc. apply extractPubkeyFromCert_complete in Hc as [k Hk]. congruence.
Qed.

(** ** The result monad *)

Lemma bind_Ok {A B} (m : result A) (f : A -> result B) (b : B) :
  m ≫= f = Ok b <-> exists a, m = Ok a /\ f a = Ok b.
Proof.
  destruct m as [a|t]; cbn.
  - split; [intros ?; by exists a|]. by intros (a' & [= <-] & ?).
  - split; [done|]. by intros (a' & ? & ?).
Qed.

Lemma bind_Throw {A B} (m : result A) (f : A -> result B) (t : Thrown) :
  m ≫= f = Throw t <-> m = Throw t \/ exists a, m = Ok a /\ f a = Throw t.
Proof.
  destruct m as [a|t']; cbn.
  - split; [intros ?; right; by exists a|]. intros [?|(a' & Ha & ?)]; [done|].
    by injection Ha as <-.
  - split; [intros [= ->]; by left|]. intros [[= ->]|(a' & ? & ?)]; done.
Qed.

(** A library's failure is an [Error] that is not a [CredentialError]. *)
Lemma library_call_Throw {A} (r : LibraryResult A) (t : Thrown) :
  library_call r = Throw t -> exists name message, t = JsError name message.
Proof. destruct r; [done|]. intros [= <-]. by eexists _, _. Qed.

(** ** Failures of the parser *)

Lemma parse_failure_bind {A B} (m : result A) (f : A -> result B) (t : Thrown) :
  (forall t', m = Throw t' -> parse_failure t') ->
  (forall a t', m = Ok a -> f a = Throw t' -> parse_failure t') ->
  m ≫= f = Throw t -> parse_failure t.
Proof.
  intros Hm Hf [?|(a & ? & ?)]%bind_Throw; eauto.
Qed.

Section ParseFailures.
Context {cborg : Cborg} {dates : DatePlatform}.

Lemma decode_failure (data : Uint8Array) (t : Thrown) :
  decode data = Throw t -> parse_failure t.
Proof. intros (? & ? & ->)%library_call_Throw. exact I. Qed.

Lemma encode_failure (v : JsVal) (t : Thrown) :
  encode v = Throw t -> parse_failure t.
Proof. intros (? & ? & ->)%library_call_Throw. exact I. Qed.

Lemma get_prop_failure (v : JsVal) (name : string) (t : Thrown) :
  get_prop v name = Throw t -> parse_failure t.
Proof. destruct v; cbn; try done; intros [= <-]; exact I. Qed.

Lemma get_index_failure (v : JsVal) (i : nat) (t : Thrown) :
  get_index v i = Throw t -> parse_failure t.
Proof. destruct v; cbn; try done; intros [= <-]; exact I. Qed.

Lemma as_Uint8Array_failure (v : JsVal) (t : Thrown) :
  as_Uint8Array v = Throw t -> parse_failure t.
Proof. destruct v; cbn; try done; intros [= <-]; exact I. Qed.

Lemma as_string_failure (v : JsVal) (t : Thrown) :
  as_string v = Throw t -> parse_failure t.
Proof. destruct v; cbn; try done; intros [= <-]; exact I. Qed.

Lemma opt_call_get_failure (v : JsVal) (key : Z) (t : Thrown) :
  opt_call_get v key = Throw t -> parse_failure t.
Proof.
  destruct v; cbn; try (intros [= <-]; exact I); try done.
  destruct (is_nullish _); [done|]. intros [= <-]. exact I.
Qed.

Lemma x5chain_of_failure (header : JsVal) (t : Thrown) :
  x5chain_of header = Throw t -> parse_failure t.
Proof.
  unfold x5chain_of. apply parse_failure_bind.
  - apply opt_call_get_failure.
  - intros a t' _. destruct (is_nullish a); [apply get_index_failure|done].
Qed.

Lemma u8_set_failure (target src : Uint8Array) (offset : nat) (t : Thrown) :
  u8_set target src offset = Throw t -> parse_failure t.
Proof. unfold u8_set. case_decide; [done|]. intros [= <-]. exact I. Qed.

Lemma extractPubkeyFromCert_failure (cert : Uint8Array) (t : Thrown) :
  extractPubkeyFromCert cert = Throw t -> parse_failure t.
Proof. intros [-> _]%extractPubkeyFromCert_Throw. by left. Qed.

Lemma pubkey_from_unprotected_failure (u : JsVal) (t : Thrown) :
  pubkey_from_unprotected u = Throw t -> parse_failure t.
Proof.
  unfold pubkey_from_unprotected. apply parse_failure_bind.
  - intros t'. destruct (is_nullish u); [done|apply x5chain_of_failure].
  - intros found t' _. apply parse_failure_bind; [apply get_prop_failure|].
    intros len t'' _. destruct (_ || _).
    + intros [= <-]. by left.
    + apply parse_failure_bind; [apply get_index_failure|].
      intros first t3 _. apply parse_failure_bind; [apply as_Uint8Array_failure|].
      intros cert t4 _. apply extractPubkeyFromCert_failure.
Qed.

Lemma extractIACAPubkey_failure (issuerAuth : Uint8Array) (t : Thrown) :
  extractIACAPubkey issuerAuth = Throw t -> parse_failure t.
Proof.
  unfold extractIACAPubkey. apply parse_failure_bind; [apply decode_failure|].
  intros coseSign1 t' _.
  assert (Hbad : Throw (A := PublicKeyXY)
                   (CredentialError "Invalid COSE_Sign1 structure for key extraction" PARSE_ERROR)
                 = Throw t' -> parse_failure t') by (intros [= <-]; by left).
  destruct coseSign1 as [| | | | | |elems| | |]; try exact Hbad.
  destruct elems as [|protected [|unprotected rest]]; try exact Hbad.
  apply parse_failure_bind; [apply as_Uint8Array_failure|].
  intros protectedBytes t1 _. apply parse_failure_bind; [apply decode_failure|].
  intros protectedHeader t2 _. apply parse_failure_bind; [apply x5chain_of_failure|].
  intros x5chain t3 _.
  assert (Hfb : pubkey_from_unprotected unprotected = Throw t3 -> parse_failure t3)
    by apply pubkey_from_unprotected_failure.
  destruct x5chain as [| | | | | |chain| | |]; try exact Hfb.
  destruct chain as [|first others]; [exact Hfb|].
  apply parse_failure_bind; [apply as_Uint8Array_failure|].
  intros cert t4 _. apply extractPubkeyFromCert_failure.
Qed.

Lemma parseMSO_failure (issuerAuth : Uint8Array) (t : Thrown) :
  parseMSO issuerAuth = Throw t -> parse_failure t.
Proof.
  unfold parseMSO. apply parse_failure_bind; [apply decode_failure|].
  intros coseSign1 t' _.
  assert (Hbad : Throw (A := ParsedMSO)
                   (CredentialError "Invalid COSE_Sign1 structure" PARSE_ERROR)
                 = Throw t' -> parse_failure t') by (intros [= <-]; by left).
  destruct coseSign1 as [| | | | | |elems| | |]; try exact Hbad.
  destruct elems as [|e1 [|e2 [|payload [|signature rest]]]]; try exact Hbad.
  apply parse_failure_bind.
  { intros t1. destruct payload; try apply encode_failure. done. }
  intros msoBytes t1 _. apply parse_failure_bind; [apply decode_failure|].
  intros msoDecoded t2 _. apply parse_failure_bind; [apply get_prop_failure|].
  intros vi t3 _. apply parse_failure_bind; [apply get_prop_failure|].
  intros s t4 _. apply parse_failure_bind; [apply get_prop_failure|].
  intros vf t5 _. apply parse_failure_bind; [apply get_prop_failure|].
  intros vu t6 _. apply parse_failure_bind; [apply as_Uint8Array_failure|].
  intros sig t7 _. apply parse_failure_bind; [apply get_prop_failure|].
  intros da t8 _. apply parse_failure_bind; [apply get_prop_failure|].
  done.
Qed.

Lemma stringToBytes_failure (str : string) (size : nat) (t : Thrown) :
  stringToBytes str size = Throw t -> parse_failure t.
Proof. apply u8_set_failure. Qed.

Lemma parse_steps_failure (raw : RawCredentialResponse) (t : Thrown) :
  parse_steps raw = Throw t -> parse_failure t.
Proof.
  unfold parse_steps. apply parse_failure_bind; [apply parseMSO_failure|].
  intros mso t' _. destruct (namespaces raw) as [namespace|].
  - destruct (collect_claims namespace !! _) as [claim|].
    + apply parse_failure_bind; [apply as_string_failure|].
      intros str t1 _. apply parse_failure_bind; [apply stringToBytes_failure|].
      intros dn t2 _. apply parse_failure_bind; [apply extractIACAPubkey_failure|].
      done.
    + intros [= <-]. by right.
  - intros [= <-]. by left.
Qed.
End ParseFailures.

(** ** The parser: what it checks and what it returns *)

(** [stringToBytes] in closed form: the first [size] bytes of the string,
    then the zero fill. *)
Lemma stringToBytes_eq (str : string) (size : nat) :
  stringToBytes str size
  = Ok (spec_left_aligned size (take size (TextEncoder_encode str))).
Proof.
  unfold stringToBytes, spec_left_aligned.
  rewrite u8_slice_0. apply u8_set_0_zeros. rewrite length_take. lia.
Qed.

Lemma spec_left_aligned_length (width : nat) (bs : Uint8Array) :
  length bs <= width -> length (spec_left_aligned width bs) = width.
Proof.
  intros. unfold spec_left_aligned. rewrite length_app, length_replicate. lia.
Qed.

Section ParseFacts.
Context {cborg : Cborg} {dates : DatePlatform}.

(** [parseCredential] succeeds exactly when the steps of its [try] block
    do. *)
Lemma parseCredential_Ok (raw : RawCredentialResponse) (parsed : ParsedCredential) :
  parseCredential raw = Ok parsed <-> parse_steps raw = Ok parsed.
Proof.
  unfold parseCredential, try_catch. destruct (parse_steps raw) as [p|t]; [done|].
  destruct (is_CredentialError t); split; done.
Qed.

(** In the embedding the steps succeed exactly when the envelope parses,
    the namespace is present, the document-number claim is a string and
    the issuer key is found; the validity window plays no part. *)
Lemma parse_steps_Ok (raw : RawCredentialResponse) (parsed : ParsedCredential) :
  parse_steps raw = Ok parsed <->
  exists namespace claim str,
    parseMSO (issuerAuth raw) = Ok (parsed_mso parsed) /\
    namespaces raw = Some namespace /\
    parsed_claims parsed = collect_claims namespace /\
    collect_claims namespace !! "document_number"%string = Some claim /\
    claim_value claim = VStr str /\
    stringToBytes str 32 = Ok (parsed_documentNumber parsed) /\
    extractIACAPubkey (issuerAuth raw) = Ok (parsed_iacaPubkey parsed).
Proof.
  unfold parse_steps. split.
  - intros (mso & Hmso & H)%bind_Ok.
    destruct (namespaces raw) as [namespace|]; [|done].
    destruct (collect_claims namespace !! _) as [claim|] eqn:Hc; [|done].
    apply bind_Ok in H as (str & Hstr & H).
    apply bind_Ok in H as (dn & Hdn & H).
    apply bind_Ok in H as (key & Hkey & H).
    injection H as <-. cbn.
    exists namespace, claim, str. repeat split; try done.
    by destruct (claim_value claim); try done; injection Hstr as ->.
  - intros (namespace & claim & str & Hmso & -> & Hcl & Hc & Hv & Hdn & Hkey).
    rewrite Hmso. cbn [mbind result_bind]. rewrite Hc, Hv. cbn.
    rewrite Hdn. cbn. rewrite Hkey. cbn. destruct parsed. cbn in *. by subst.
Qed.

(** C7 (amended): [parseCredential] makes no check of the validity
    window and has no clock. When the envelope parses, the namespace is
    present, the document-number claim is a string and the issuer key is
    found, it returns the parsed credential with the window that
    [parseMSO] read from the signed metadata, whatever its dates; and each
    of its failures is a [CredentialError] of kind [PARSE_ERROR] or
    [INVALID_CLAIM], never [EXPIRED]. *)
Theorem parseCredential_no_expiry_check (raw : RawCredentialResponse) :
  match parseCredential raw with
  | Ok parsed =>
      exists mso,
        parseMSO (issuerAuth raw) = Ok mso /\
        validityInfo (parsed_mso parsed) = validityInfo mso
  | Throw error =>
      exists message code,
        error = CredentialError message code /\
        (code = PARSE_ERROR \/ code = INVALID_CLAIM) /\ code <> EXPIRED
  end /\
  (forall mso namespace claim str iacaPubkey,
     parseMSO (issuerAuth raw) = Ok mso ->
     namespaces raw = Some namespace ->
     collect_claims namespace !! "document_number"%string = Some claim ->
     claim_value claim = VStr str ->
     extractIACAPubkey (issuerAuth raw) = Ok iacaPubkey ->
     parseCredential raw
     = Ok {| parsed_mso := mso;
             parsed_claims := collect_claims namespace;
             parsed_iacaPubkey := iacaPubkey;
             parsed_documentNumber :=
               spec_left_aligned 32 (take 32 (TextEncoder_encode str)) |}).
Proof.
  split.
  - destruct (parseCredential raw) as [parsed|error] eqn:Hp.
    + apply parseCredential_Ok, parse_steps_Ok in Hp
        as (namespace & claim & str & Hmso & _).
      by exists (parsed_mso parsed).
    + unfold parseCredential, try_catch in Hp.
      destruct (parse_steps raw) as [p|t] eqn:Hs; [done|].
      apply parse_steps_failure in Hs.
      destruct t as [message code| |]; cbn in *.
      * injection Hp as <-. exists message, code.
        split; [done|]. split; [done|]. by destruct Hs as [-> | ->].
      * injection Hp as <-. eexists _, PARSE_ERROR. by eauto.
      * done.
  - intros mso namespace claim str iacaPubkey Hmso Hns Hc Hv Hkey.
    apply parseCredential_Ok, parse_steps_Ok.
    exists namespace, claim, str. cbn. by rewrite stringToBytes_eq.
Qed.
End ParseFacts.



(** With an empty protected header the key comes from the unprotected
    header. *)
Example extractIACAPubkey_fallback :
  @extractIACAPubkey cborg_ref example_issuerAuth
  = Ok {| key_x := example_x; key_y := example_y |} /\
  @extractIACAPubkey cborg_ref fallback_issuerAuth
  = Ok {| key_x := replicate 32 x0a; key_y := replicate 32 x0b |}.
Proof. split; by vm_compute. Qed.

(** ** The document number *)

(** C6 (amended): for a document-number string of at most 32 bytes, the
    document number buffer is the string's bytes left-aligned in a
    32-byte buffer, with the zero padding on the right. [stringToBytes]
    builds it so, and it reaches the assembled witness unchanged: as the
    parsed credential's document number, as the prover credential's, as
    the witness field [document_number], and, through [padTo32Bytes], as
    the first input of the nullifier hash. *)
Theorem documentNumber_left_aligned (str : string) :
  length (TextEncoder_encode str) <= 32 ->
  let buffer := spec_left_aligned 32 (TextEncoder_encode str) in
  stringToBytes str 32 = Ok buffer /\
  padTo32Bytes buffer = Ok buffer /\
  (forall (cborg : Cborg) (dates : DatePlatform)
          (raw : RawCredentialResponse) (parsed : ParsedCredential)
          (namespace : list RawIssuerSignedItem) (claim : ParsedClaim),
     parseCredential raw = Ok parsed ->
     namespaces raw = Some namespace ->
     collect_claims namespace !! "document_number"%string = Some claim ->
     claim_value claim = VStr str ->
     parsed_documentNumber parsed = buffer /\
     (forall credential,
        toProverCredential parsed = Ok credential ->
        documentNumber credential = buffer /\
        (forall (bb : Barretenberg) options timestamp witness,
           buildWitnessInputs credential options timestamp = Ok witness ->
           document_number witness = buffer))).
Proof.
  intros Hlen buffer.
  assert (Hs : stringToBytes str 32 = Ok buffer).
  { rewrite stringToBytes_eq. by rewrite take_ge by lia. }
  split; [exact Hs|]. split.
  { apply padTo32Bytes_32. subst buffer. by apply spec_left_aligned_length. }
  intros cborg dates raw parsed namespace claim Hp Hns Hc Hv.
  apply parseCredential_Ok, parse_steps_Ok in Hp
    as (namespace' & claim' & str' & _ & Hns' & _ & Hc' & Hv' & Hdn & _).
  rewrite Hns in Hns'. injection Hns' as <-.
  rewrite Hc in Hc'. injection Hc' as <-.
  rewrite Hv in Hv'. injection Hv' as <-.
  rewrite Hs in Hdn. injection Hdn as Hdn.
  split; [done|]. intros credential Hcred.
  assert (Hd : documentNumber credential = buffer).
  { unfold toProverCredential in Hcred.
    destruct (parsed_claims parsed !! "age_over_21"%string); [|done].
    destruct (parsed_claims parsed !! "age_over_18"%string); [|done].
    destruct (parsed_claims parsed !! "issuing_jurisdiction"%string); [|done].
    rewrite !padToSize_eq in Hcred. cbn in Hcred. by injection Hcred as <-. }
  split; [exact Hd|]. intros bb options timestamp witness Hw.
  unfold buildWitnessInputs in Hw.
  apply bind_Ok in Hw as (root & _ & Hw).
  apply bind_Ok in Hw as (eid & _ & Hw).
  apply bind_Ok in Hw as (nul & _ & Hw).
  injection Hw as <-. exact Hd.
Qed.

(** C6 (witness): the theorem at the document number ["D1234567"]. *)
Lemma documentNumber_left_aligned_witness :
  stringToBytes "D1234567" 32 = Ok example_documentNumber.
Proof.
  refine (proj1 (documentNumber_left_aligned "D1234567" _)).
  vm_compute. lia.
Defined.

(** C6 (counterexample): the document number ["D1234567"] is stored in
    bytes 0 to 7 of its buffer, followed by 24 zero bytes; right-aligned
    it would occupy bytes 24 to 31. The buffer reaches the prover
    credential and the witness in this form. *)
Lemma documentNumber_not_right_aligned :
  stringToBytes "D1234567" 32 = Ok example_documentNumber /\
  spec_right_aligned 32 (TextEncoder_encode "D1234567")
  = replicate 24 x00 ++ [x44; x31; x32; x33; x34; x35; x36; x37] /\
  example_documentNumber <> spec_right_aligned 32 (TextEncoder_encode "D1234567") /\
  (forall dates : DatePlatform,
     exists parsed credential,
       @parseCredential cborg_ref dates example_raw = Ok parsed /\
       toProverCredential parsed = Ok credential /\
       documentNumber credential = example_documentNumber /\
       padTo32Bytes (documentNumber credential) = Ok example_documentNumber).
Proof.
  split; [by vm_compute|]. split; [by vm_compute|]. split; [by vm_compute|].
  intros dates. eexists _, _.
  split; [vm_compute; reflexivity|]. split; [vm_compute; reflexivity|].
  split; by vm_compute.
Qed.

(** C7 (counterexample): the validity window of [example_raw] ended at
    1000000000000 ms after the epoch (2001-09-09), before any parse time
    since; [parseCredential] returns the parsed credential with this
    window. *)
Lemma expired_credential_is_parsed :
  (forall dates : DatePlatform,
     exists parsed,
       @parseCredential cborg_ref dates example_raw = Ok parsed /\
       validUntil (validityInfo (parsed_mso parsed)) = Some 1000000000000%Z) /\
  (1000000000000 < 1762128000000)%Z.
Proof.
  split; [|done]. intros dates. eexists. split; [vm_compute; reflexivity|].
  by vm_compute.
Qed.

(** ** Nullifiers *)

Lemma bytesToHex_inj (a b : Uint8Array) : bytesToHex a = bytesToHex b -> a = b.
Proof.
  intros H. apply (f_equal hexToBytes) in H.
  rewrite !hexToBytes_bytesToHex in H. by injection H.
Qed.

Section NullifierFacts.
Context {bb : Barretenberg}.

(** The nullifier of a 32-byte document number, an event-id field
    element and an issuer root is the hex string of Poseidon2 over the
    document number, the 32-byte big-endian event id and the root. *)
Lemma computeNullifier_eq (doc : Uint8Array) (e : Z) (root : Uint8Array) :
  length doc = 32 -> (0 <= e < 2 ^ 256)%Z ->
  exists eb,
    length eb = 32 /\ be_Z eb = e /\
    computeNullifier doc (field_hex e) (bytesToHex root)
    = (hash ← poseidon2Hash [doc; eb; root]; Ok (bytesToHex hash)).
Proof.
  intros Hd He. destruct (hex64_of_field e He) as (_ & eb & Heb & Hl & Hv).
  exists eb. split; [done|]. split; [done|].
  unfold computeNullifier, field_hex. rewrite padTo32Bytes_32 by done.
  cbn [mbind result_bind]. rewrite Heb. cbn [mbind result_bind].
  by rewrite hexToBytes_bytesToHex.
Qed.

(** X1: nullifier derivation is a function of its inputs, and its
    encoding of the inputs is injective: when two nullifiers are equal although the
    32-byte document numbers or the event-id field elements differ (same
    issuer root), Poseidon2 returned the same hash for two different
    input vectors. *)
Theorem nullifier_collision_is_poseidon2_collision
    (doc1 doc2 : Uint8Array) (e1 e2 : Z) (root : Uint8Array) (n1 n2 : string) :
  length doc1 = 32 -> length doc2 = 32 ->
  (0 <= e1 < 2 ^ 256)%Z -> (0 <= e2 < 2 ^ 256)%Z ->
  computeNullifier doc1 (field_hex e1) (bytesToHex root) = Ok n1 ->
  computeNullifier doc2 (field_hex e2) (bytesToHex root) = Ok n2 ->
  (doc1 = doc2 -> e1 = e2 -> n1 = n2) /\
  (n1 = n2 -> doc1 <> doc2 \/ e1 <> e2 ->
   exists inputs1 inputs2 hash,
     inputs1 <> inputs2 /\
     poseidon2Hash inputs1 = Ok hash /\ poseidon2Hash inputs2 = Ok hash).
Proof.
  intros Hd1 Hd2 He1 He2 H1 H2. split.
  - intros -> ->. congruence.
  - intros -> Hne.
    destruct (computeNullifier_eq doc1 e1 root Hd1 He1) as (eb1 & _ & Hv1 & Hc1).
    destruct (computeNullifier_eq doc2 e2 root Hd2 He2) as (eb2 & _ & Hv2 & Hc2).
    rewrite Hc1 in H1. rewrite Hc2 in H2.
    apply bind_Ok in H1 as (h1 & Hh1 & [= Hn1]).
    apply bind_Ok in H2 as (h2 & Hh2 & [= Hn2]).
    assert (h1 = h2) as -> by (apply bytesToHex_inj; congruence).
    exists [doc1; eb1; root], [doc2; eb2; root], h2.
    split; [|done]. intros [= -> ->]. destruct Hne as [?|?]; [done|congruence].
Qed.
End NullifierFacts.

(** X1 (witness): the theorem at two document numbers, with the stand-in
    hash. *)
Lemma nullifier_collision_witness :
  (replicate 32 x01 = replicate 32 x03 -> 5%Z = 5%Z ->
   example_nullifier_1 = example_nullifier_3) /\
  (example_nullifier_1 = example_nullifier_3 ->
   replicate 32 x01 <> replicate 32 x03 \/ 5%Z <> 5%Z ->
   exists inputs1 inputs2 hash,
     inputs1 <> inputs2 /\
     @poseidon2Hash bb_stub inputs1 = Ok hash /\ @poseidon2Hash bb_stub inputs2 = Ok hash).
Proof.
  refine (@nullifier_collision_is_poseidon2_collision bb_stub
            (replicate 32 x01) (replicate 32 x03) 5 5 (replicate 32 x02)
            example_nullifier_1 example_nullifier_3 eq_refl eq_refl _ _ _ _);
    by vm_compute.
Defined.

(** ** Labeled key derivation: the inputs handed to the platform *)

Lemma u8_set_at_end (pre src : Uint8Array) (n offset : nat) :
  offset = length pre -> length src <= n ->
  u8_set (pre ++ replicate n x00) src offset
  = Ok ((pre ++ src) ++ replicate (n - length src) x00).
Proof.
  intros -> Hle. unfold u8_set. rewrite length_app, length_replicate.
  rewrite decide_True by lia. f_equal.
  rewrite take_app_length, drop_app_ge by lia.
  rewrite drop_replicate, <- app_assoc. do 3 f_equal. lia.
Qed.

Section LabeledKdfFacts.
Context {subtle : WebCrypto}.

(** X2: [labeledExtract] signs [HPKE-v1 || suite_id || label || ikm] with the
    salt (32 zero bytes when the salt is empty) as HMAC key;
    [labeledExpand] derives [8 * length] bits with the info
    [I2OSP(length, 2) || HPKE-v1 || suite_id || label || info] and an
    empty salt; the suite identifiers are [HPKE 0010 0001 0001] and
    [KEM 0010]. The buffer copies never go out of range. *)
Theorem labeled_kdf_inputs (salt prk ikm info suiteId : Uint8Array)
    (label : string) (len : nat) :
  labeledExtract salt label ikm suiteId
  = (key ← importKey HKDF (salt_or_zeros salt);
     hmacKey ← importKey HMAC_SHA256 (salt_or_zeros salt);
     sign_HMAC hmacKey
       (TextEncoder_encode "HPKE-v1" ++ suiteId ++ TextEncoder_encode label ++ ikm)) /\
  labeledExpand prk label info len suiteId
  = (key ← importKey HKDF prk;
     deriveBits_HKDF []
       ([hi_byte (Z.of_nat len); lo_byte (Z.of_nat len)]
        ++ TextEncoder_encode "HPKE-v1" ++ suiteId ++ TextEncoder_encode label ++ info)
       key (len * 8)) /\
  buildSuiteId = Ok (TextEncoder_encode "HPKE" ++ [x00; x10; x00; x01; x00; x01]) /\
  buildKemSuiteId = Ok (TextEncoder_encode "KEM" ++ [x00; x10]).
Proof.
  split; [|split; [|split; reflexivity]].
  - unfold labeledExtract. cbv zeta.
    set (v1 := TextEncoder_encode "HPKE-v1"). set (lb := TextEncoder_encode label).
    change (Uint8Array_new ?n) with ([] ++ replicate n x00).
    rewrite (u8_set_at_end [] v1) by (simpl; lia). cbn [mbind result_bind].
    rewrite (u8_set_at_end ([] ++ v1) suiteId) by (rewrite ?length_app; simpl; lia).
    cbn [mbind result_bind].
    rewrite (u8_set_at_end (([] ++ v1) ++ suiteId) lb) by (rewrite ?length_app; simpl; lia).
    cbn [mbind result_bind].
    rewrite (u8_set_at_end ((([] ++ v1) ++ suiteId) ++ lb) ikm)
      by (rewrite ?length_app; simpl; lia).
    cbn [mbind result_bind].
    replace (_ - length ikm) with 0 by lia.
    cbn [replicate app]. rewrite app_nil_r, <- !app_assoc.
    destruct (importKey HKDF _); [|done]. cbn [mbind result_bind].
    destruct (importKey HMAC_SHA256 _); [|done]. cbn [mbind result_bind].
    by destruct (sign_HMAC _ _).
  - unfold labeledExpand. cbv zeta.
    set (v1 := TextEncoder_encode "HPKE-v1"). set (lb := TextEncoder_encode label).
    set (hi := hi_byte _). set (lo := lo_byte _).
    change (<[1:=lo]> (<[0:=hi]> (Uint8Array_new (2 + ?a + ?b + ?c + ?d))))
      with ([hi; lo] ++ replicate (a + b + c + d) x00).
    rewrite (u8_set_at_end [hi; lo] v1) by (simpl; lia). cbn [mbind result_bind].
    rewrite (u8_set_at_end ([hi; lo] ++ v1) suiteId) by (rewrite ?length_app; simpl; lia).
    cbn [mbind result_bind].
    rewrite (u8_set_at_end (([hi; lo] ++ v1) ++ suiteId) lb)
      by (rewrite ?length_app; simpl; lia).
    cbn [mbind result_bind].
    rewrite (u8_set_at_end ((([hi; lo] ++ v1) ++ suiteId) ++ lb) info)
      by (rewrite ?length_app; simpl; lia).
    cbn [mbind result_bind].
    replace (_ - length info) with 0 by lia.
    cbn [replicate]. rewrite app_nil_r, <- !app_assoc.
    destruct (importKey HKDF _); [|done]. cbn [mbind result_bind].
    by destruct (deriveBits_HKDF _ _ _ _).
Qed.
End LabeledKdfFacts.

(** ** The fixed widths of the prover credential *)

(** X3: [toProverCredential] fails only with [INVALID_CLAIM], for a missing
    required claim; otherwise every buffer of the credential has its
    protocol width (512, 64, 96, 96, 107, 32, 32) and the document number
    is the parsed one. *)
Theorem toProverCredential_widths (parsed : ParsedCredential) :
  match toProverCredential parsed with
  | Ok credential =>
      length (msoBytes credential) = 512 /\
      length (msoSignature credential) = 64 /\
      length (ageOver21ClaimBytes credential) = 96 /\
      length (ageOver18ClaimBytes credential) = 96 /\
      length (stateClaimBytes credential) = 107 /\
      length (iacaPubkeyX credential) = 32 /\
      length (iacaPubkeyY credential) = 32 /\
      documentNumber credential = parsed_documentNumber parsed
  | Throw error => exists message, error = CredentialError message INVALID_CLAIM
  end.
Proof.
  assert (Hw : forall b n, length (take n b ++ replicate (n - length b) x00) = n).
  { intros b n. rewrite length_app, length_take, length_replicate. lia. }
  unfold toProverCredential.
  destruct (parsed_claims parsed !! "age_over_21"%string); [|by eexists].
  destruct (parsed_claims parsed !! "age_over_18"%string); [|by eexists].
  destruct (parsed_claims parsed !! "issuing_jurisdiction"%string); [|by eexists].
  rewrite !padToSize_eq. cbn. by rewrite !Hw.
Qed.

(** ** HPKE: the contexts of decapsulation and of the key schedule *)

Section HpkeContextFacts.
Context {subtle : WebCrypto}.

(** X4: [decap] expands the shared secret (32 bytes asked) from the extract
    of the ECDH output of the receiver's key and [enc], with the context
    [enc || pkR] and the suite [KEM 0010]. [keyScheduleR] derives the key
    (16 bytes asked) and the base nonce (12 bytes asked) from the extract
    salted with the shared secret, both with the context
    [0x00 || psk_id_hash || info_hash] and the suite
    [HPKE 0010 0001 0001]. The copies into the two context buffers never
    go out of range, so neither function fails unless a platform call
    does. *)
Theorem hpke_contexts (enc pkR sharedSecret info : Uint8Array) (skR : CryptoKey) :
  let kemSuiteId := TextEncoder_encode "KEM" ++ [x00; x10] in
  let suiteId := TextEncoder_encode "HPKE" ++ [x00; x10; x00; x01; x00; x01] in
  decap enc skR pkR
  = (dh ← deriveSharedSecret skR enc;
     prk ← labeledExtract [] "eae_prk" dh kemSuiteId;
     labeledExpand prk "shared_secret" (enc ++ pkR) 32 kemSuiteId) /\
  keyScheduleR sharedSecret info
  = (pskIdHash ← labeledExtract [] "psk_id_hash" [] suiteId;
     infoHash ← labeledExtract [] "info_hash" info suiteId;
     secret ← labeledExtract sharedSecret "secret" [] suiteId;
     let ksContext := [x00] ++ pskIdHash ++ infoHash in
     key ← labeledExpand secret "key" ksContext 16 suiteId;
     baseNonce ← labeledExpand secret "base_nonce" ksContext 12 suiteId;
     Ok (key, baseNonce)).
Proof.
  intros kemSuiteId suiteId. split.
  - unfold decap.
    change buildKemSuiteId with (Ok kemSuiteId). cbn [mbind result_bind].
    destruct (deriveSharedSecret skR enc) as [dh|]; [|done]. cbn [mbind result_bind].
    change (Uint8Array_new ?n) with ([] ++ replicate n x00).
    rewrite (u8_set_at_end [] enc) by (simpl; lia). cbn [mbind result_bind].
    rewrite (u8_set_at_end ([] ++ enc) pkR) by (rewrite ?length_app; simpl; lia).
    cbn [mbind result_bind].
    replace (_ - length pkR) with 0 by lia.
    cbn [replicate app]. rewrite app_nil_r.
    destruct (labeledExtract _ _ _ _) as [prk|]; [|done]. cbn [mbind result_bind].
    by destruct (labeledExpand _ _ _ _ _).
  - unfold keyScheduleR.
    change buildSuiteId with (Ok suiteId). cbn [mbind result_bind].
    change (Uint8Array_new 0) with (@nil byte).
    destruct (labeledExtract [] "psk_id_hash" [] suiteId) as [pskIdHash|]; [|done].
    cbn [mbind result_bind].
    destruct (labeledExtract [] "info_hash" info suiteId) as [infoHash|]; [|done].
    cbn [mbind result_bind]. cbv zeta.
    change (<[0:=HPKE_MODE_BASE]> (Uint8Array_new (1 + ?a + ?b)))
      with ([x00] ++ replicate (a + b) x00).
    rewrite (u8_set_at_end [x00] pskIdHash) by (simpl; lia). cbn [mbind result_bind].
    rewrite (u8_set_at_end ([x00] ++ pskIdHash) infoHash)
      by (rewrite ?length_app; simpl; lia).
    cbn [mbind result_bind].
    replace (_ - length infoHash) with 0 by lia.
    cbn [replicate]. rewrite app_nil_r, <- !app_assoc.
    destruct (labeledExtract sharedSecret _ _ _) as [secret|]; [|done].
    cbn [mbind result_bind].
    destruct (labeledExpand secret "key" _ _ _) as [key|]; [|done].
    cbn [mbind result_bind].
    by destruct (labeledExpand secret "base_nonce" _ _ _).
Qed.
End HpkeContextFacts.

(** ** The prover module: lifecycle *)

Section ProverFacts.
Context {CompiledCircuit Witness : Type}.
Context `{circuit_identity : EqDecision CompiledCircuit}.
Context (bytecode : CompiledCircuit -> string).

Lemma initProver_consistent (p : ProverPlatform CompiledCircuit Witness)
    (circuit : CompiledCircuit) (st : ProverState CompiledCircuit Witness) :
  prover_consistent st -> prover_consistent (initProver bytecode p circuit st).2.
Proof.
  unfold prover_consistent, initProver. intros Hst.
  destruct (_ && _); [exact Hst|].
  destruct (barretenbergAPI st) as [api|] eqn:Hapi.
  - destruct (Noir_new p circuit) as [n|]; cbn;
      [|intros Hb; destruct (Hst Hb) as (_ & ? & ?); done].
    destruct (UltraHonkBackend_new p _ api); cbn; [done|].
    intros Hb. by destruct (Hst Hb) as (_ & _ & ?).
  - destruct (Barretenberg_new p) as [api|]; cbn;
      [|intros Hb; destruct (Hst Hb) as (? & _); congruence].
    destruct (Noir_new p circuit) as [n|]; cbn;
      [|intros Hb; destruct (Hst Hb) as (_ & ? & ?); done].
    destruct (UltraHonkBackend_new p _ api); cbn; [done|].
    intros Hb. by destruct (Hst Hb) as (_ & _ & ?).
Qed.

Lemma destroyProver_consistent (p : ProverPlatform CompiledCircuit Witness)
    (st : ProverState CompiledCircuit Witness) :
  prover_consistent (destroyProver p st).2.
Proof.
  unfold prover_consistent, destroyProver.
  destruct (barretenbergAPI st) as [api|]; cbn;
    [destruct (Barretenberg_destroy p api); cbn|]; done.
Qed.

Lemma prover_reachable_consistent (st : ProverState CompiledCircuit Witness) :
  prover_reachable bytecode st -> prover_consistent st.
Proof.
  induction 1 as [|p circuit st _ IH|p st _ _].
  - done.
  - by apply initProver_consistent.
  - apply destroyProver_consistent.
Qed.

(** X5: in every state that the module can reach, [isProverInitialized()]
    tells whether [generateProof] passes its guard: when it is true the
    three module variables that [generateProof] tests are set, and when it
    is false [generateProof] and [Thurin.generateProof] fail with their
    not-initialized errors and call no library. After [destroyProver],
    whether it succeeded or not, the prover is not initialized. *)
Theorem isProverInitialized_guards_generateProof
    (st : ProverState CompiledCircuit Witness) :
  prover_reachable bytecode st ->
  (isProverInitialized st = true ->
   exists n b api,
     noir st = Some n /\ backend st = Some b /\ barretenbergAPI st = Some api /\
     forall p credential options,
       Thurin_generateProof p credential options st
       = generateProof p credential options st) /\
  (isProverInitialized st = false ->
   forall p credential options,
     generateProof p credential options st = Throw not_initialized /\
     Thurin_generateProof p credential options st
     = Throw (JsError "Error"
                "Prover not initialized. Call initProver(circuit) before generating proofs.")) /\
  (forall p, isProverInitialized (destroyProver p st).2 = false).
Proof.
  intros Hst%prover_reachable_consistent. split; [|split].
  - unfold isProverInitialized. intros [Hn Hb]%andb_prop.
    apply bool_decide_eq_true in Hn, Hb.
    destruct (Hst Hb) as (Ha & _ & _).
    destruct (noir st) as [n|] eqn:En; [|done].
    destruct (backend st) as [b|] eqn:Eb; [|done].
    destruct (barretenbergAPI st) as [api|] eqn:Ea; [|done].
    exists n, b, api. repeat split.
    intros p credential options. unfold Thurin_generateProof, isProverInitialized.
    rewrite En, Eb. cbn [bool_decide andb negb].
    rewrite !bool_decide_true by done. cbn [andb negb].
    destruct options. cbn.
    destruct (generateProof _ _ _ _) as [[pr [? ? ? ? ? ? ? ? ?]]|]; done.
  - intros Hf p credential options. split.
    + unfold generateProof. unfold isProverInitialized in Hf. revert Hf.
      destruct (noir st); [|done]. destruct (backend st); [|done].
      by rewrite !bool_decide_true by done.
    + unfold Thurin_generateProof. by rewrite Hf.
  - intros p. unfold destroyProver, isProverInitialized.
    destruct (barretenbergAPI st) as [api|]; cbn;
      [destruct (Barretenberg_destroy p api); cbn|]; by rewrite ?andb_false_r.
Qed.

(** X6: [initProver]: on success the prover is initialized with the given
    circuit; a call with the circuit that the initialized prover already
    has changes nothing and asks the libraries nothing; and a Barretenberg
    instance that exists is kept, [Barretenberg.new()] being called only
    when there is none; when that call fails, the module state is left as
    it was. *)
Theorem initProver_reuses_instances (p : ProverPlatform CompiledCircuit Witness)
    (circuit : CompiledCircuit) (st : ProverState CompiledCircuit Witness) :
  ((initProver bytecode p circuit st).1 = Ok tt ->
   isProverInitialized (initProver bytecode p circuit st).2 = true /\
   currentCircuit (initProver bytecode p circuit st).2 = Some circuit) /\
  (currentCircuit st = Some circuit -> isProverInitialized st = true ->
   forall p', initProver bytecode p' circuit st = (Ok tt, st)) /\
  (forall api,
     barretenbergAPI st = Some api ->
     barretenbergAPI (initProver bytecode p circuit st).2 = Some api /\
     forall p',
       Noir_new p' = Noir_new p -> UltraHonkBackend_new p' = UltraHonkBackend_new p ->
       initProver bytecode p' circuit st = initProver bytecode p circuit st) /\
  (barretenbergAPI st = None -> isProverInitialized st = false ->
   forall t, Barretenberg_new p = Throw t ->
             initProver bytecode p circuit st = (Throw t, st)).
Proof.
  split; [|split; [|split]].
  - unfold initProver.
    destruct (bool_decide (currentCircuit st = Some circuit)) eqn:Hc;
      [destruct (isProverInitialized st) eqn:Hi|]; cbn [andb].
    + intros _. by apply bool_decide_eq_true in Hc.
    + destruct (match barretenbergAPI st with Some api => Ok api | None => _ end); [|done].
      destruct (Noir_new p circuit); [|done].
      by destruct (UltraHonkBackend_new p _ _).
    + destruct (match barretenbergAPI st with Some api => Ok api | None => _ end); [|done].
      destruct (Noir_new p circuit); [|done].
      by destruct (UltraHonkBackend_new p _ _).
  - intros Hc Hi p'. unfold initProver. by rewrite Hi, bool_decide_true.
  - intros api Ha. unfold initProver. rewrite Ha. split.
    + destruct (_ && _); [done|].
      destruct (Noir_new p circuit); [|done].
      by destruct (UltraHonkBackend_new p _ _).
    + intros p' -> ->. done.
  - intros Ha Hi t Ht. unfold initProver. by rewrite Ha, Ht, Hi, andb_false_r.
Qed.

(** X7: if the backend constructor throws while [initProver] runs for a
    circuit other than the current one, the module keeps the old backend
    and the old current circuit but already holds the [Noir] instance of
    the new circuit: [isProverInitialized()] stays true, and a later
    [initProver] with the old circuit returns at once, leaving that
    instance in place. *)
Theorem initProver_backend_failure_keeps_new_noir
    (p : ProverPlatform CompiledCircuit Witness) (old new : CompiledCircuit)
    (st : ProverState CompiledCircuit Witness)
    (api : Barretenberg) (n : Noir Witness) (t : Thrown) :
  currentCircuit st = Some old -> old <> new ->
  isProverInitialized st = true ->
  barretenbergAPI st = Some api ->
  Noir_new p new = Ok n ->
  UltraHonkBackend_new p (bytecode new) api = Throw t ->
  let st' := {| barretenbergAPI := Some api; noir := Some n;
                backend := backend st; currentCircuit := Some old |} in
  initProver bytecode p new st = (Throw t, st') /\
  isProverInitialized st' = true /\
  forall p', initProver bytecode p' old st' = (Ok tt, st').
Proof.
  intros Hc Hne Hi Ha Hn Hb st'.
  assert (Hi' : isProverInitialized st' = true).
  { unfold isProverInitialized in *. apply andb_prop in Hi as [_ Hi].
    subst st'. cbn. by rewrite Hi. }
  split; [|split; [exact Hi'|]].
  - unfold initProver. rewrite Hc, bool_decide_false by congruence.
    cbn [andb]. rewrite Ha, Hn. cbn. by rewrite Hb.
  - intros p'. unfold initProver. rewrite Hi'. subst st'. cbn.
    by rewrite bool_decide_true.
Qed.

(** What a successful [generateProof] did. *)
Lemma generateProof_Ok (p : ProverPlatform CompiledCircuit Witness) (credential : Credential)
    (options : ProofGenerationOptions) (st : ProverState CompiledCircuit Witness)
    (g : GeneratedProof) :
  generateProof p credential options st = Ok g ->
  exists n b api w witness proofBytes,
    noir st = Some n /\ backend st = Some b /\ barretenbergAPI st = Some api /\
    @buildWitnessInputs api credential options
      (default (Date_now p / 1000)%Z (timestamp options)) = Ok w /\
    execute n w = Ok witness /\
    backend_generateProof b witness = Ok proofBytes /\
    g = {| proof := bytesToHex proofBytes;
           publicInputs :=
             {| PublicInputs.nullifier := nullifier w;
                PublicInputs.proofTimestamp := default (Date_now p / 1000)%Z (timestamp options);
                PublicInputs.eventId := event_id w;
                PublicInputs.iacaRoot := iaca_root w;
                PublicInputs.boundAddress := boundAddress options;
                PublicInputs.proveAgeOver21 := default false (proveAgeOver21 options);
                PublicInputs.proveAgeOver18 := default false (proveAgeOver18 options);
                PublicInputs.proveState := default false (proveState options);
                PublicInputs.provenState := stateCode credential options |} |}.
Proof.
  unfold generateProof.
  destruct (noir st) as [n|]; [|done]. destruct (backend st) as [b|]; [|done].
  destruct (barretenbergAPI st) as [api|]; [|done].
  intros (w & Hw & H)%bind_Ok. apply bind_Ok in H as (witness & Hx & H).
  apply bind_Ok in H as (proofBytes & Hp & [= <-]).
  by exists n, b, api, w, witness, proofBytes.
Qed.

Lemma Thurin_generateProof_Ok (p : ProverPlatform CompiledCircuit Witness)
    (credential : Credential) (options : ProofGenerationOptions)
    (st : ProverState CompiledCircuit Witness) (g : GeneratedProof) :
  Thurin_generateProof p credential options st = Ok g ->
  generateProof p credential options st = Ok g.
Proof.
  unfold Thurin_generateProof. destruct (negb _); [done|].
  destruct options. cbn.
  destruct (generateProof _ _ _ _) as [[pr [? ? ? ? ? ? ? ? ?]]|]; [|done].
  cbn. by intros [= <-].
Qed.

(** The witness of a successful [buildWitnessInputs]: its public fields
    other than the hashes. *)
Lemma buildWitnessInputs_fields `{bb : Barretenberg} (credential : Credential)
    (options : ProofGenerationOptions) (ts : Z) (w : WitnessInputs) :
  buildWitnessInputs credential options ts = Ok w ->
  proof_timestamp w = ts /\
  bound_address w = addressToField (boundAddress options) /\
  prove_age_over_21 w = default false (proveAgeOver21 options) /\
  prove_age_over_18 w = default false (proveAgeOver18 options) /\
  prove_state w = default false (proveState options) /\
  proven_state w
  = (if default false (proveState options) then
       [ default x00 (stateClaimBytes credential !! STATE_CODE_OFFSET);
         default x00 (stateClaimBytes credential !! (STATE_CODE_OFFSET + 1)) ]
     else [x00; x00]).
Proof.
  unfold buildWitnessInputs.
  intros (root & _ & H)%bind_Ok. apply bind_Ok in H as (eid & _ & H).
  apply bind_Ok in H as (nul & _ & [= <-]). done.
Qed.

Lemma stateCode_proven_state `{bb : Barretenberg} (credential : Credential)
    (options : ProofGenerationOptions) (ts : Z) (w : WitnessInputs) :
  buildWitnessInputs credential options ts = Ok w ->
  stateCode credential options = map byte_to_Z (proven_state w).
Proof.
  intros (_ & _ & _ & _ & _ & ->)%buildWitnessInputs_fields.
  unfold stateCode, String_fromCharCode. destruct (default false _); [|done].
  cbn [map]. by rewrite !Z.mod_small
    by (pose proof (byte_to_Z_range (default x00 (stateClaimBytes credential !! STATE_CODE_OFFSET)));
        pose proof (byte_to_Z_range (default x00 (stateClaimBytes credential !! (STATE_CODE_OFFSET + 1))));
        lia).
Qed.

(** X8: the public inputs that [generateProof] returns are the public inputs
    that it gave to the circuit: the nullifier, event id, issuer root,
    timestamp and flags of the witness that [noir.execute] accepted, and
    the state code made of the two [proven_state] bytes. The bound address
    is returned as the caller wrote it, while the circuit received it as a
    field element; the timestamp is the caller's, or the clock's in whole
    seconds when the caller gave none. *)
Theorem generateProof_public_inputs (p : ProverPlatform CompiledCircuit Witness)
    (credential : Credential) (options : ProofGenerationOptions)
    (st : ProverState CompiledCircuit Witness) (g : GeneratedProof) :
  generateProof p credential options st = Ok g ->
  let inputs := publicInputs g in
  exists n api w witness,
    noir st = Some n /\ barretenbergAPI st = Some api /\
    @buildWitnessInputs api credential options (PublicInputs.proofTimestamp inputs) = Ok w /\
    execute n w = Ok witness /\
    PublicInputs.nullifier inputs = nullifier w /\
    PublicInputs.eventId inputs = event_id w /\
    PublicInputs.iacaRoot inputs = iaca_root w /\
    PublicInputs.proofTimestamp inputs = proof_timestamp w /\
    PublicInputs.proveAgeOver21 inputs = prove_age_over_21 w /\
    PublicInputs.proveAgeOver18 inputs = prove_age_over_18 w /\
    PublicInputs.proveState inputs = prove_state w /\
    PublicInputs.provenState inputs = map byte_to_Z (proven_state w) /\
    PublicInputs.boundAddress inputs = boundAddress options /\
    bound_address w = addressToField (PublicInputs.boundAddress inputs) /\
    PublicInputs.proofTimestamp inputs
    = match timestamp options with
      | Some t => t
      | None => (Date_now p / 1000)%Z
      end.
Proof.
  intros (n & b & api & w & witness & proofBytes & Hn & _ & Ha & Hw & Hx & _ & ->)%generateProof_Ok.
  cbn. exists n, api, w, witness.
  pose proof (buildWitnessInputs_fields _ _ _ _ Hw) as (Ht & Hb & H21 & H18 & Hs & _).
  pose proof (stateCode_proven_state _ _ _ _ Hw) as Hc.
  repeat split; done.
Qed.

(** X9: the state code of a proof from [Thurin.generateProof] always passes
    [stateToBytes2], the conversion that [mint] and [verify] apply, and
    the result is the hex string of the two [proven_state] bytes that the
    circuit received: [0x0000] when the state is not proven. *)
Theorem generated_state_code_to_bytes2 (p : ProverPlatform CompiledCircuit Witness)
    (credential : Credential) (options : ProofGenerationOptions)
    (st : ProverState CompiledCircuit Witness) (g : GeneratedProof) :
  Thurin_generateProof p credential options st = Ok g ->
  exists api w,
    barretenbergAPI st = Some api /\
    @buildWitnessInputs api credential options
      (PublicInputs.proofTimestamp (publicInputs g)) = Ok w /\
    stateToBytes2 (PublicInputs.provenState (publicInputs g))
    = Ok (bytesToHex (proven_state w)) /\
    hexToBytes (bytesToHex (proven_state w)) = Ok (proven_state w) /\
    (PublicInputs.proveState (publicInputs g) = false ->
     stateToBytes2 (PublicInputs.provenState (publicInputs g)) = Ok "0x0000"%string).
Proof.
  intros Hg%Thurin_generateProof_Ok.
  apply generateProof_Ok in Hg
    as (n & b & api & w & witness & proofBytes & _ & _ & Ha & Hw & _ & _ & ->).
  cbn. exists api, w. split; [done|]. split; [done|].
  rewrite (stateCode_proven_state _ _ _ _ Hw).
  pose proof (buildWitnessInputs_fields _ _ _ _ Hw) as (_ & _ & _ & _ & _ & Hps).
  rewrite Hps. split; [|split].
  - destruct (default false _); cbn; by rewrite ?byte_of_to_Z.
  - apply hexToBytes_bytesToHex.
  - by intros ->.
Qed.
End ProverFacts.

(** X5 (witness): the theorem at the initial module state, where the
    prover is not initialized, and at the state initialized with circuit
    0, which [destroyProver] leaves not initialized. *)
Lemma isProverInitialized_guards_generateProof_witness :
  generateProof example_platform example_credential example_options prover_initial
  = Throw not_initialized /\
  isProverInitialized (destroyProver example_platform example_prover_state).2 = false.
Proof.
  split.
  - exact (proj1 (proj1 (proj2 (isProverInitialized_guards_generateProof example_bytecode
                                   prover_initial (reachable_initial _)))
                    eq_refl example_platform example_credential example_options)).
  - exact (proj2 (proj2 (isProverInitialized_guards_generateProof example_bytecode
                           example_prover_state
                           (reachable_initProver _ example_platform 0 _
                              (reachable_initial _))))
             example_platform).
Defined.

(** X7 (witness): the theorem at the state initialized with circuit 0,
    for a call with circuit 1 whose backend constructor throws. *)
Lemma initProver_backend_failure_keeps_new_noir_witness :
  let st' := {| barretenbergAPI := Some bb_stub;
                noir := Some {| execute := fun _ => Throw (JsError "Error" "other circuit") |};
                backend := backend example_prover_state;
                currentCircuit := Some 0 |} in
  initProver example_bytecode failing_backend_platform 1 example_prover_state
  = (Throw (JsError "Error" "backend"), st') /\
  isProverInitialized st' = true /\
  forall p', initProver example_bytecode p' 0 st' = (Ok tt, st').
Proof.
  apply (initProver_backend_failure_keeps_new_noir example_bytecode failing_backend_platform
           0 1 example_prover_state); done.
Defined.

(** X8 (witness): the theorem at the example credential and options. *)
Lemma generateProof_public_inputs_witness :
  let inputs := publicInputs example_proof in
  exists n api w witness,
    noir example_prover_state = Some n /\
    barretenbergAPI example_prover_state = Some api /\
    @buildWitnessInputs api example_credential example_options
      (PublicInputs.proofTimestamp inputs) = Ok w /\
    execute n w = Ok witness /\
    PublicInputs.nullifier inputs = nullifier w /\
    PublicInputs.eventId inputs = event_id w /\
    PublicInputs.iacaRoot inputs = iaca_root w /\
    PublicInputs.proofTimestamp inputs = proof_timestamp w /\
    PublicInputs.proveAgeOver21 inputs = prove_age_over_21 w /\
    PublicInputs.proveAgeOver18 inputs = prove_age_over_18 w /\
    PublicInputs.proveState inputs = prove_state w /\
    PublicInputs.provenState inputs = map byte_to_Z (proven_state w) /\
    PublicInputs.boundAddress inputs = boundAddress example_options /\
    bound_address w = addressToField (PublicInputs.boundAddress inputs) /\
    PublicInputs.proofTimestamp inputs
    = match timestamp example_options with
      | Some t => t
      | None => (Date_now example_platform / 1000)%Z
      end.
Proof.
  apply (generateProof_public_inputs example_platform example_credential
           example_options example_prover_state example_proof).
  by vm_compute.
Defined.

(** X9 (witness): the theorem at the example credential and options. *)
Lemma generated_state_code_to_bytes2_witness :
  exists api w,
    barretenbergAPI example_prover_state = Some api /\
    @buildWitnessInputs api example_credential example_options
      (PublicInputs.proofTimestamp (publicInputs example_proof)) = Ok w /\
    stateToBytes2 (PublicInputs.provenState (publicInputs example_proof))
    = Ok (bytesToHex (proven_state w)) /\
    hexToBytes (bytesToHex (proven_state w)) = Ok (proven_state w) /\
    (PublicInputs.proveState (publicInputs example_proof) = false ->
     stateToBytes2 (PublicInputs.provenState (publicInputs example_proof)) = Ok "0x0000"%string).
Proof.
  apply (generated_state_code_to_bytes2 example_platform example_credential
           example_options example_prover_state example_proof).
  by vm_compute.
Defined.

(** ** Field elements as hex strings *)

(** A numeral of canonical digits reads as its positional value. *)
Lemma hex_value_digits (ds : list nat) :
  Forall (fun d => d < 16) ds ->
  exists v, (0 <= v < 16 ^ Z.of_nat (length ds))%Z /\
            forall a, hex_value a (map hex_digit ds)
                      = Ok (a * 16 ^ Z.of_nat (length ds) + v)%Z.
Proof.
  induction 1 as [|d ds Hd _ (v & Hv & IH)].
  - exists 0%Z. split; [by vm_compute|]. intros a. cbn. f_equal. lia.
  - exists (Z.of_nat d * 16 ^ Z.of_nat (length ds) + v)%Z.
    cbn [length]. rewrite Nat2Z.inj_succ, Z.pow_succ_r by lia. split; [nia|].
    intros a. cbn [map hex_value]. rewrite charCodeToBase16_hex_digit by done.
    rewrite IH. f_equal. lia.
Qed.

(** Two numerals of canonical digits with the same length and the same
    value are the same numeral. *)
Lemma hex_value_digits_inj (ds1 ds2 : list nat) (a : Z) :
  Forall (fun d => d < 16) ds1 -> Forall (fun d => d < 16) ds2 ->
  length ds1 = length ds2 ->
  hex_value a (map hex_digit ds1) = hex_value a (map hex_digit ds2) ->
  ds1 = ds2.
Proof.
  intros H1. revert ds2 a. induction H1 as [|d1 ds1 Hd1 H1 IH]; intros ds2 a H2 Hl Hv.
  - by destruct ds2.
  - destruct ds2 as [|d2 ds2]; [done|]. inversion H2 as [|? ? Hd2 H2']; subst.
    injection Hl as Hl. cbn [map hex_value] in Hv.
    rewrite !charCodeToBase16_hex_digit in Hv by done.
    destruct (hex_value_digits ds1 H1) as (v1 & Hv1 & E1).
    destruct (hex_value_digits ds2 H2') as (v2 & Hv2 & E2).
    pose proof Hv as Hv'. rewrite E1, E2, <- Hl in Hv'. injection Hv' as Hv'.
    rewrite <- Hl in Hv2.
    assert (d1 = d2) as <- by nia.
    f_equal. by apply (IH ds2 (16 * a + Z.of_nat d1)%Z).
Qed.

Lemma hex_of_bytes_digits (bs : Uint8Array) :
  exists ds, concat (map hex_of_byte bs) = map hex_digit ds /\
             Forall (fun d => d < 16) ds /\ length ds = 2 * length bs.
Proof.
  induction bs as [|b bs (ds & E & Hds & Hl)]; [by exists []|].
  destruct (hex_of_byte_nibbles b) as (hi & lo & Hb & Hhi & Hlo & _).
  exists (hi :: lo :: ds). cbn [map concat]. rewrite Hb, E. split; [done|].
  split; [by do 2 (constructor; [done|])|]. cbn. lia.
Qed.

Lemma to_hex_digits_digits (fuel : nat) (n : Z) (acc : list nat) :
  (0 <= n)%Z -> Forall (fun d => d < 16) acc ->
  exists ds, to_hex_digits fuel n (map hex_digit acc) = map hex_digit ds /\
             Forall (fun d => d < 16) ds.
Proof.
  revert n acc. induction fuel as [|fuel IH]; intros n acc Hn Hacc; [by exists acc|].
  cbn [to_hex_digits].
  assert (Hd : Z.to_nat (n mod 16) < 16) by (pose proof (Z.mod_pos_bound n 16); lia).
  destruct (n <? 16)%Z.
  - exists (Z.to_nat (n mod 16) :: acc). split; [done|]. by constructor.
  - destruct (IH (n / 16)%Z (Z.to_nat (n mod 16) :: acc)) as (ds & E & Hds).
    + apply Z.div_pos; lia.
    + by constructor.
    + by exists ds.
Qed.

(** The zero-padded numeral of the big-endian value of a byte array is
    the hex string of the array. *)
Lemma field_hex_be_Z (bs : Uint8Array) :
  length bs = 32 -> field_hex (be_Z bs) = bytesToHex bs.
Proof.
  intros Hl. unfold field_hex, bytesToHex, padStart0. do 2 f_equal.
  destruct (hex_of_bytes_digits bs) as (ds2 & E2 & Hds2 & Hl2). rewrite E2.
  pose proof (be_Z_bound bs) as Hb. rewrite Hl in Hb.
  destruct (to_hex_digits_digits (S (Z.to_nat (Z.log2 (be_Z bs)))) (be_Z bs) [])
    as (ds & E & Hds); [lia|done|].
  change (map hex_digit []) with (@nil ascii) in E.
  pose proof (hex_value_toString16 (be_Z bs) ltac:(lia)) as Hv.
  assert (Hlen : length ds <= 64).
  { rewrite <- (length_map hex_digit), <- E.
    etrans; [apply (length_to_hex_digits _ (be_Z bs) [] 64); [lia|]|simpl; lia].
    change (16 ^ Z.of_nat 64)%Z with (256 ^ Z.of_nat 32)%Z. lia. }
  unfold toString16 in *. rewrite list_ascii_of_string_of_list_ascii in *.
  change (map hex_digit []) with (@nil ascii) in E.
  rewrite string_length_of_list_ascii, E, length_map. rewrite E in Hv.
  f_equal.
  change "0"%char with (hex_digit 0). rewrite <- (fmap_replicate hex_digit), <- map_app.
  f_equal. apply (hex_value_digits_inj _ _ 0).
  - apply Forall_app. split; [|done]. apply Forall_replicate. lia.
  - done.
  - rewrite length_app, length_replicate. lia.
  - rewrite map_app, fmap_replicate. change (hex_digit 0) with "0"%char.
    rewrite hex_value_leading_zeros, Hv, <- E2.
    by rewrite hex_value_hex_of_bytes.
Qed.

Lemma field_hex_length (n : Z) :
  (0 <= n < 2 ^ 256)%Z -> String.length (field_hex n) = 66.
Proof.
  intros Hn. unfold field_hex, padStart0. cbn [String.length].
  rewrite !string_length_of_list_ascii, length_app, length_replicate.
  rewrite <- (string_length_of_list_ascii (list_ascii_of_string _)),
    string_of_list_ascii_of_string.
  assert (String.length (toString16 n) <= 64); [|lia].
  unfold toString16. rewrite string_length_of_list_ascii.
  etrans; [apply (length_to_hex_digits _ n [] 64); [lia|]|simpl; lia].
  by change (16 ^ Z.of_nat 64)%Z with (2 ^ 256)%Z.
Qed.

(** X10: the prover's [hashEventId] is the exported [hashEventId] reduced
    modulo the BN254 prime: both return [0x] and 64 lowercase hex digits,
    the exported one the digits of the 32-byte keccak hash and the
    prover's the digits of that number modulo the prime, and they return
    the same string exactly when the hash is below the prime. *)
Theorem hashEventId_agree_iff (eventId : string) :
  exists hash,
    length hash = 32 /\
    Contract.hashEventId eventId = Ok (bytesToHex hash) /\
    Prover.hashEventId eventId = Ok (field_hex (be_Z hash mod BN254_MODULUS)) /\
    String.length (bytesToHex hash) = 66 /\
    String.length (field_hex (be_Z hash mod BN254_MODULUS)) = 66 /\
    (Contract.hashEventId eventId = Prover.hashEventId eventId <->
     (be_Z hash < BN254_MODULUS)%Z).
Proof.
  exists (Keccak.keccak_256 (TextEncoder_encode eventId)).
  pose proof (keccak_256_length (TextEncoder_encode eventId)) as Hl.
  destruct (Contract_hashEventId_eq eventId) as [Hc _].
  pose proof (Prover_hashEventId_eq eventId) as Hp.
  pose proof (be_Z_bound (Keccak.keccak_256 (TextEncoder_encode eventId))) as Hb.
  split; [done|]. split; [done|]. split; [done|]. split; [|split].
  - unfold bytesToHex. cbn [String.length].
    rewrite string_length_of_list_ascii, length_hex_of_bytes, Hl. done.
  - pose proof (spec_eventIdField_range eventId) as Hr.
    apply field_hex_length. fold (spec_eventIdField eventId).
    split; [lia|]. eapply Z.lt_trans; [apply Hr|]. reflexivity.
  - split.
    + intros Heq. destruct (Z.lt_ge_cases (be_Z (Keccak.keccak_256 (TextEncoder_encode eventId)))
                              BN254_MODULUS) as [?|Hge]; [done|].
      by destruct (hashEventId_disagree eventId Hge).
    + intros Hlt. rewrite Hc, Hp. f_equal. unfold spec_eventIdField.
      rewrite Z.mod_small by lia. symmetry. by apply field_hex_be_Z.
Qed.

(** ** Addresses and padding *)

Lemma charCodeToBase16_lower (c : ascii) :
  charCodeToBase16
    (let n := nat_of_ascii c in
     if decide (65 <= n /\ n <= 90) then ascii_of_nat (n + 32) else c)
  = charCodeToBase16 c.
Proof. destruct c as [[] [] [] [] [] [] [] []]; by vm_compute. Qed.

Lemma hex_value_toLowerCase (cs : list ascii) (a : Z) :
  hex_value a
    (map (fun c => let n := nat_of_ascii c in
                   if decide (65 <= n /\ n <= 90) then ascii_of_nat (n + 32) else c) cs)
  = hex_value a cs.
Proof.
  revert a. induction cs as [|c cs IH]; intros a; [done|].
  cbn [map hex_value]. rewrite charCodeToBase16_lower.
  destruct (charCodeToBase16 c); [apply IH|done].
Qed.

(** X11: [addressToField] keeps the number that the address denotes: for an
    address of two prefix characters and at most 64 hex digits of either
    case, the result is [0x] and 64 digits, it reads as the same number,
    and its bytes are the 32-byte big-endian encoding of that number. An
    address and its lowercase form give the same field element. *)
Theorem addressToField_value (address : string) (c1 c2 : ascii) (digits : list ascii) (v : Z) :
  list_ascii_of_string address = c1 :: c2 :: digits ->
  length digits <= 64 ->
  hex_value 0 digits = Ok v ->
  String.length (addressToField address) = 66 /\
  BigInt_of_hex (addressToField address) = Ok v /\
  (exists e, hexToBytes (addressToField address) = Ok e /\ length e = 32 /\ be_Z e = v) /\
  addressToField (toLowerCase address) = addressToField address.
Proof.
  intros Ha Hl Hv. unfold addressToField, toLowerCase, padStart0.
  rewrite !list_ascii_of_string_of_list_ascii, Ha. cbn [drop map].
  rewrite !drop_0.
  set (lower := fun c => let n := nat_of_ascii c in
                         if decide (65 <= n /\ n <= 90) then ascii_of_nat (n + 32) else c).
  rewrite !string_length_of_list_ascii, !length_map.
  set (ds := replicate (64 - length digits) "0"%char ++ map lower digits).
  assert (Hlen : length ds = 2 * 32).
  { subst ds. rewrite length_app, length_replicate, length_map. lia. }
  assert (Hval : hex_value 0 ds = Ok v).
  { subst ds. rewrite hex_value_leading_zeros. subst lower.
    by rewrite hex_value_toLowerCase. }
  split; [|split; [|split]].
  - cbn [String.length]. rewrite string_length_of_list_ascii. lia.
  - unfold BigInt_of_hex. cbn [list_ascii_of_string].
    rewrite list_ascii_of_string_of_list_ascii.
    destruct ds; [done|exact Hval].
  - unfold hexToBytes. cbn [list_ascii_of_string].
    rewrite list_ascii_of_string_of_list_ascii. cbn [drop]. rewrite drop_0.
    rewrite Hlen, decide_True by done.
    destruct (hex_pairs_of_value 32 _ _ _ Hlen Hval) as (e & He & Hle & Hf).
    by exists e.
  - do 3 f_equal. subst ds. f_equal. rewrite <- list_fmap_compose.
    apply list_fmap_ext. intros _ c _. subst lower. cbn.
    destruct c as [[] [] [] [] [] [] [] []]; by vm_compute.
Qed.

(** X11 (witness): the theorem at the address of the prover's test. *)
Lemma addressToField_value_witness :
  String.length (addressToField "0xd8dA6BF26964aF9D7eEd9e03E53415D37aA96045") = 66 /\
  BigInt_of_hex (addressToField "0xd8dA6BF26964aF9D7eEd9e03E53415D37aA96045")
  = Ok 0xd8dA6BF26964aF9D7eEd9e03E53415D37aA96045%Z /\
  (exists e, hexToBytes (addressToField "0xd8dA6BF26964aF9D7eEd9e03E53415D37aA96045") = Ok e /\
             length e = 32 /\ be_Z e = 0xd8dA6BF26964aF9D7eEd9e03E53415D37aA96045%Z) /\
  addressToField (toLowerCase "0xd8dA6BF26964aF9D7eEd9e03E53415D37aA96045")
  = addressToField "0xd8dA6BF26964aF9D7eEd9e03E53415D37aA96045".
Proof.
  apply (addressToField_value "0xd8dA6BF26964aF9D7eEd9e03E53415D37aA96045" "0" "x"
           (list_ascii_of_string "d8dA6BF26964aF9D7eEd9e03E53415D37aA96045")).
  - reflexivity.
  - vm_compute. lia.
  - by vm_compute.
Defined.

(** X12: [padTo32Bytes] always returns 32 bytes. An input of at most 32 bytes
    keeps its value as a big-endian number, the padding being leading
    zeros; a longer input is cut to its first 32 bytes, so that its
    low-order bytes are dropped. *)
Theorem padTo32Bytes_value (input : Uint8Array) :
  exists padded,
    padTo32Bytes input = Ok padded /\ length padded = 32 /\
    (length input <= 32 ->
     be_Z padded = be_Z input /\ drop (32 - length input) padded = input) /\
    (32 <= length input -> padded = take 32 input).
Proof.
  pose proof (padTo32Bytes_eq input) as H. eexists. split; [exact H|].
  split; [by apply (padTo32Bytes_length input)|]. split.
  - intros Hle. case_decide as Hd.
    + assert (length input = 32) by lia. rewrite take_ge by lia.
      split; [done|]. by replace (32 - length input) with 0 by lia.
    + unfold spec_right_aligned. split; [apply be_Z_leading_zeros|].
      rewrite drop_app_length'; [done|]. by rewrite length_replicate.
  - intros Hge. by rewrite decide_True.
Qed.

(** ** Claims by identifier *)

(** [claims.get(id)] after the loop of [parseCredential] is the claim of
    the last item of the namespace that has the identifier. *)
Lemma collect_claims_lookup (namespace : list RawIssuerSignedItem) (id : string) :
  collect_claims namespace !! id
  = (fun item => {| claim_id := elementIdentifier item;
                    claim_bytes := rawBytes item;
                    claim_value := elementValue item;
                    claim_digestIndex := digestID item |})
      <$> last (filter (fun item => elementIdentifier item = id) namespace).
Proof.
  unfold collect_claims.
  induction namespace as [|item namespace IH] using rev_ind; [done|].
  rewrite fold_left_app. cbn [fold_left]. rewrite filter_app.
  destruct (decide (elementIdentifier item = id)) as [<-|Hne].
  - rewrite lookup_insert_eq, filter_cons_True, filter_nil by done.
    by rewrite last_snoc.
  - rewrite lookup_insert_ne by done.
    by rewrite filter_cons_False, filter_nil, app_nil_r by done.
Qed.

Section ClaimBytes.
Context {cborg : Cborg} {dates : DatePlatform}.

(** X13: the claim buffers of the prover credential are the raw bytes of
    namespace items as the wallet sent them. Whenever
    [toProverCredential] returns a credential for a parsed response, the
    three claim buffers hold, for each of [age_over_21], [age_over_18]
    and [issuing_jurisdiction], the bytes of the last item with that
    identifier, cut to the buffer width (96, 96, 107) or followed by zeros
    up to it; the decoded value of these claims plays no part. If one of
    the three identifiers is absent, [toProverCredential] fails with
    [INVALID_CLAIM]. If all three are present and the signature element
    of the envelope is a byte string, it succeeds, and the signature
    buffer is that byte string cut or zero-padded to 64 bytes. *)
Theorem credential_claim_bytes (raw : RawCredentialResponse) (parsed : ParsedCredential)
    (namespace : list RawIssuerSignedItem) :
  parseCredential raw = Ok parsed ->
  namespaces raw = Some namespace ->
  let item id := last (filter (fun item => elementIdentifier item = id) namespace) in
  let fit width bytes := take width bytes ++ replicate (width - length bytes) x00 in
  (forall credential,
     toProverCredential parsed = Ok credential ->
     exists over21 over18 state,
       item "age_over_21"%string = Some over21 /\
       item "age_over_18"%string = Some over18 /\
       item "issuing_jurisdiction"%string = Some state /\
       ageOver21ClaimBytes credential = fit 96 (rawBytes over21) /\
       ageOver18ClaimBytes credential = fit 96 (rawBytes over18) /\
       stateClaimBytes credential = fit 107 (rawBytes state) /\
       msoBytes credential = fit 512 (parsed_bytes (parsed_mso parsed))) /\
  (item "age_over_21"%string = None \/ item "age_over_18"%string = None \/
   item "issuing_jurisdiction"%string = None ->
   exists message,
     toProverCredential parsed = Throw (CredentialError message INVALID_CLAIM)) /\
  (forall protected unprotected payload signature rest over21 over18 state,
     decode (issuerAuth raw)
     = Ok (VArr (protected :: unprotected :: payload :: VBytes signature :: rest)) ->
     item "age_over_21"%string = Some over21 ->
     item "age_over_18"%string = Some over18 ->
     item "issuing_jurisdiction"%string = Some state ->
     exists credential,
       toProverCredential parsed = Ok credential /\
       msoSignature credential = fit 64 signature).
Proof.
  intros Hp Hns item fit.
  apply parseCredential_Ok, parse_steps_Ok in Hp
    as (namespace' & claim & str & Hmso & Hns' & Hcl & _).
  rewrite Hns in Hns'. injection Hns' as <-.
  unfold toProverCredential. rewrite Hcl, !collect_claims_lookup. subst item. cbv beta.
  destruct (last (filter (fun i => elementIdentifier i = "age_over_21"%string) namespace))
    as [i21|]; cbn;
    [|split; [done|split; [by eexists|done]]].
  destruct (last (filter (fun i => elementIdentifier i = "age_over_18"%string) namespace))
    as [i18|]; cbn;
    [|split; [done|split; [by eexists|done]]].
  destruct (last (filter (fun i => elementIdentifier i = "issuing_jurisdiction"%string) namespace))
    as [ist|]; cbn;
    [|split; [done|split; [by eexists|done]]].
  rewrite !padToSize_eq. cbn. split; [|split].
  - intros credential [= <-]. by exists i21, i18, ist.
  - by intros [?|[?|?]].
  - intros protected unprotected payload signature rest o21 o18 ost Hdec _ _ _.
    assert (Hsig : parsed_signature (parsed_mso parsed) = signature).
    { revert Hmso. unfold parseMSO. rewrite Hdec. cbn [mbind result_bind].
      intros Hmso.
      do 6 (apply bind_Ok in Hmso as (? & _ & Hmso)).
      apply bind_Ok in Hmso as (sig & Hs & Hmso). injection Hs as <-.
      do 2 (apply bind_Ok in Hmso as (? & _ & Hmso)).
      by injection Hmso as <-. }
    eexists. split; [reflexivity|]. cbn. by rewrite Hsig.
Qed.
End ClaimBytes.

(** X13 (witness): the theorem at [example_raw], whose three claims are
    present and whose signature is a byte string. *)
Lemma credential_claim_bytes_witness :
  exists parsed credential over21,
    @parseCredential cborg_ref example_dates example_raw = Ok parsed /\
    toProverCredential parsed = Ok credential /\
    last (filter (fun item => elementIdentifier item = "age_over_21"%string)
            (default [] (namespaces example_raw))) = Some over21 /\
    ageOver21ClaimBytes credential
    = take 96 (rawBytes over21) ++ replicate (96 - length (rawBytes over21)) x00 /\
    msoSignature credential
    = take 64 (replicate 64 x05) ++ replicate (64 - length (replicate 64 x05)) x00.
Proof.
  assert (Hp : exists parsed,
             @parseCredential cborg_ref example_dates example_raw = Ok parsed)
    by (eexists; vm_compute; reflexivity).
  destruct Hp as [parsed Hp].
  destruct (@credential_claim_bytes cborg_ref example_dates example_raw parsed _
              Hp eq_refl) as (Hbytes & _ & Hsig).
  destruct (Hsig _ _ _ (replicate 64 x05) [] _ _ _
              ltac:(vm_compute; reflexivity) ltac:(vm_compute; reflexivity)
              ltac:(vm_compute; reflexivity) ltac:(vm_compute; reflexivity))
    as (credential & Hc & Hs).
  destruct (Hbytes credential Hc) as (o21 & o18 & ost & H21 & _ & _ & B21 & _).
  exists parsed, credential, o21.
  split; [exact Hp|]. split; [exact Hc|]. split; [exact H21|].
  split; [exact B21|exact Hs].
Defined.

(** ** The signed metadata: missing fields *)

(** X14: [parseMSO] asks nothing of the metadata object beyond its being an
    object. For an envelope of at least four elements whose payload and
    signature are byte strings, the payload bytes are returned as they
    are, elements after the fourth are ignored, and the result is read
    off the decoded object field by field: a date given as a number
    counts seconds, a missing [validityInfo] or a missing date gives the
    epoch (time value 0, a valid date), and a missing [digestAlgorithm] or
    [docType] gives the default. *)
Theorem parseMSO_reads_fields_with_defaults {cborg : Cborg} {dates : DatePlatform}
    (issuerAuth : Uint8Array) (protected unprotected : JsVal)
    (msoBytes signature : Uint8Array) (rest : list JsVal) (props : list (string * JsVal)) :
  decode issuerAuth
  = Ok (VArr (protected :: unprotected :: VBytes msoBytes :: VBytes signature :: rest)) ->
  decode msoBytes = Ok (VObj props) ->
  let field name :=
    match nullish_or (obj_lookup props "validityInfo") (VObj []) with
    | VObj fields => obj_lookup fields name
    | _ => VUndefined
    end in
  parseMSO issuerAuth
  = Ok {| parsed_bytes := msoBytes;
          parsed_signature := signature;
          validityInfo := {| signed := parseDate (field "signed"%string);
                             validFrom := parseDate (field "validFrom"%string);
                             validUntil := parseDate (field "validUntil"%string) |};
          digestAlgorithm := nullish_or (obj_lookup props "digestAlgorithm") (VStr "SHA-256");
          docType := nullish_or (obj_lookup props "docType") (VStr "org.iso.18013.5.1.mDL") |} /\
  (obj_lookup props "validityInfo" = VUndefined ->
   field "signed"%string = VUndefined /\ field "validFrom"%string = VUndefined /\
   field "validUntil"%string = VUndefined) /\
  parseDate VUndefined = Some 0%Z /\
  (forall seconds : Z,
     (-8640000000000 <= seconds <= 8640000000000)%Z ->
     parseDate (VNum seconds) = Some (seconds * 1000)%Z).
Proof.
  intros Hcose Hmso field. split; [|split; [|split]].
  - unfold parseMSO. rewrite Hcose. cbn [mbind result_bind]. rewrite Hmso.
    cbn [mbind result_bind get_prop]. subst field. cbv beta.
    unfold nullish_or at 1 2 3 4 5 6.
    by destruct (obj_lookup props "validityInfo") as [| | | | | | | | |]; cbn.
  - intros Hno. subst field. cbv beta. by rewrite Hno.
  - reflexivity.
  - intros seconds Hs. cbn. unfold Date_of_ms. by rewrite decide_True by lia.
Qed.

(** X14 (witness): the theorem at [example_issuerAuth]. *)
Lemma parseMSO_reads_fields_with_defaults_witness :
  @parseMSO cborg_ref example_dates example_issuerAuth
  = Ok {| parsed_bytes := ref_bytes example_mso;
          parsed_signature := replicate 64 x05;
          validityInfo := {| signed := Some 900000000000%Z;
                             validFrom := Some 900000000000%Z;
                             validUntil := Some 1000000000000%Z |};
          digestAlgorithm := VStr "SHA-256";
          docType := VStr "org.iso.18013.5.1.mDL" |}.
Proof.
  refine (proj1 (@parseMSO_reads_fields_with_defaults cborg_ref example_dates
                   example_issuerAuth _ _ (ref_bytes example_mso) (replicate 64 x05) []
                   [ ("docType"%string, VStr "org.iso.18013.5.1.mDL");
                     ("validityInfo"%string,
                      VObj [ ("signed"%string, VNum 900000000);
                             ("validFrom"%string, VNum 900000000);
                             ("validUntil"%string, VNum 1000000000) ]);
                     ("digestAlgorithm"%string, VStr "SHA-256") ] _ _)).
  - vm_compute. reflexivity.
  - vm_compute. reflexivity.
Defined.

(** ** The certificate scan: which occurrence *)


(** ** The device request: which elements are asked for *)

Lemma mapClaimToElement_eq (claim : string) :
  mapClaimToElement claim
  = if decide (claim ∈ claim_types) then Ok claim
    else Throw (CredentialError ("Unknown claim type: " ++ claim) INVALID_CLAIM).
Proof.
  unfold mapClaimToElement, claim_types.
  destruct (String.eqb_spec claim "age_over_21") as [->|?]; [done|].
  destruct (String.eqb_spec claim "age_over_18") as [->|?]; [done|].
  destruct (String.eqb_spec claim "issuing_jurisdiction") as [->|?]; [done|].
  destruct (String.eqb_spec claim "document_number") as [->|?]; [done|].
  destruct (String.eqb_spec claim "expiry_date") as [->|?]; [done|].
  rewrite decide_False; [done|].
  rewrite !elem_of_cons, elem_of_nil. intuition congruence.
Qed.

Lemma obj_set_keys (props : list (string * JsVal)) (key : string) (value : JsVal) (k : string) :
  k ∈ (CborRef.obj_set props key value).*1 <-> k = key \/ k ∈ props.*1.
Proof.
  induction props as [|[k' v'] props IH]; cbn.
  - rewrite list_elem_of_singleton, elem_of_nil. tauto.
  - destruct (String.eqb_spec k' key) as [->|Hne]; cbn; rewrite !elem_of_cons; [tauto|].
    rewrite IH. tauto.
Qed.

Lemma obj_set_NoDup (props : list (string * JsVal)) (key : string) (value : JsVal) :
  NoDup props.*1 -> NoDup (CborRef.obj_set props key value).*1.
Proof.
  induction props as [|[k' v'] props IH]; cbn.
  - intros _. apply NoDup_singleton.
  - intros [Hk Hnd]%NoDup_cons.
    destruct (String.eqb_spec k' key) as [->|Hne]; cbn; apply NoDup_cons.
    + done.
    + split; [|by apply IH]. rewrite obj_set_keys. intros [?|?]; congruence.
Qed.

Lemma obj_set_values (props : list (string * JsVal)) (key : string) (value : JsVal) :
  Forall (fun p => p.2 = value) props ->
  Forall (fun p => p.2 = value) (CborRef.obj_set props key value).
Proof.
  induction 1 as [|[k' v'] props Hv Hvs IH]; cbn; [by repeat constructor|].
  destruct (String.eqb k' key); by constructor.
Qed.

Lemma includes_elem_of (claims : list string) (claim : string) :
  includes claims claim = true <-> claim ∈ claims.
Proof.
  unfold includes. rewrite existsb_exists. split.
  - intros (x & Hx%list_elem_of_In & ->%String.eqb_eq). done.
  - intros Hc. exists claim. split; [by apply list_elem_of_In|apply String.eqb_refl].
Qed.

Lemma request_elements_spec (claims : list string) (elements : list (string * JsVal)) :
  NoDup elements.*1 -> Forall (fun p => p.2 = VBool false) elements ->
  match request_elements claims elements with
  | Ok elements' =>
      Forall (fun c => c ∈ claim_types) claims /\
      NoDup elements'.*1 /\
      Forall (fun p => p.2 = VBool false) elements' /\
      (forall name, name ∈ elements'.*1 <-> name ∈ claims \/ name ∈ elements.*1)
  | Throw error =>
      exists before claim after,
        claims = before ++ claim :: after /\
        Forall (fun c => c ∈ claim_types) before /\ (claim ∉ claim_types) /\
        error = CredentialError ("Unknown claim type: " ++ claim) INVALID_CLAIM
  end.
Proof.
  revert elements. induction claims as [|claim claims IH]; intros elements Hnd Hv.
  - cbn. split; [done|]. split; [done|]. split; [done|].
    intros name. rewrite elem_of_nil. tauto.
  - cbn [request_elements]. rewrite mapClaimToElement_eq.
    destruct (decide (claim ∈ claim_types)) as [Hin|Hout]; cbn [mbind result_bind].
    + specialize (IH (CborRef.obj_set elements claim (VBool false))
                    (obj_set_NoDup _ _ _ Hnd) (obj_set_values _ _ _ Hv)).
      destruct (request_elements claims _) as [elements'|error].
      * destruct IH as (Hcl & Hnd' & Hv' & Hk). split; [by constructor|].
        split; [done|]. split; [done|]. intros name.
        rewrite Hk, obj_set_keys, elem_of_cons. tauto.
      * destruct IH as (before & c & after & -> & Hb & Hc & ->).
        exists (claim :: before), c, after. split; [done|]. split; [by constructor|]. done.
    + exists [], claim, claims. done.
Qed.

(** X16: [buildNameSpaces] asks for every requested claim and, whatever was
    requested, for [document_number] and [expiry_date]: the object has
    exactly these properties, each once and each with the value [false]
    (do not retain). It fails only for a claim outside the five claim
    types, with [INVALID_CLAIM] for the first such claim. *)
Theorem buildNameSpaces_always_requests_document_number (claims : list string) :
  match buildNameSpaces claims with
  | Ok elements =>
      Forall (fun claim => claim ∈ claim_types) claims /\
      NoDup elements.*1 /\
      (forall name,
         name ∈ elements.*1 <->
         name ∈ claims \/ name = "document_number"%string \/ name = "expiry_date"%string) /\
      (forall name, name ∈ elements.*1 -> obj_lookup elements name = VBool false)
  | Throw error =>
      exists before claim after,
        claims = before ++ claim :: after /\
        Forall (fun c => c ∈ claim_types) before /\ (claim ∉ claim_types) /\
        error = CredentialError ("Unknown claim type: " ++ claim) INVALID_CLAIM
  end.
Proof.
  unfold buildNameSpaces.
  pose proof (request_elements_spec claims [] (NoDup_nil_2) (Forall_nil_2 _)) as H.
  destruct (request_elements claims []) as [elements|error]; cbn [mbind result_bind]; [|done].
  destruct H as (Hcl & Hnd & Hv & Hk).
  set (e1 := if negb (includes claims "document_number")
             then CborRef.obj_set elements "document_number" (VBool false) else elements).
  set (e2 := if negb (includes claims "expiry_date")
             then CborRef.obj_set e1 "expiry_date" (VBool false) else e1).
  assert (H1 : NoDup e1.*1 /\ Forall (fun p => p.2 = VBool false) e1 /\
               forall name, name ∈ e1.*1 <-> name ∈ claims \/ name = "document_number"%string).
  { subst e1. destruct (includes claims "document_number") eqn:Hi; cbn [negb].
    - apply includes_elem_of in Hi. split; [done|]. split; [done|].
      intros name. rewrite Hk, elem_of_nil. split; [tauto|]. intros [?|E]; subst; tauto.
    - split; [by apply obj_set_NoDup|]. split; [by apply obj_set_values|].
      intros name. rewrite obj_set_keys, Hk, elem_of_nil. tauto. }
  destruct H1 as (Hnd1 & Hv1 & Hk1).
  assert (H2 : NoDup e2.*1 /\ Forall (fun p => p.2 = VBool false) e2 /\
               forall name, name ∈ e2.*1 <->
                 name ∈ claims \/ name = "document_number"%string \/ name = "expiry_date"%string).
  { subst e2. destruct (includes claims "expiry_date") eqn:Hi; cbn [negb].
    - apply includes_elem_of in Hi. split; [done|]. split; [done|].
      intros name. rewrite Hk1. split; [tauto|]. intros [?|[E|E]]; subst; tauto.
    - split; [by apply obj_set_NoDup|]. split; [by apply obj_set_values|].
      intros name. rewrite obj_set_keys, Hk1. tauto. }
  destruct H2 as (Hnd2 & Hv2 & Hk2).
  split; [done|]. split; [done|]. split; [done|].
  clear -Hv2. intros name. induction Hv2 as [|[k v] e Hv _ IH]; cbn.
  - by intros ?%elem_of_nil.
  - cbn in Hv. subst v. destruct (String.eqb_spec k name) as [->|Hne]; [done|].
    intros [?|?]%elem_of_cons; [congruence|]. by apply IH.
Qed.

(** ** The device response *)

(** [find] returns the first document whose [docType] is the mDL type,
    or [undefined]. *)
Lemma find_mDL_Ok (documents : list JsVal) (doc : JsVal) :
  find_mDL documents = Ok doc ->
  (doc = VUndefined /\
   Forall (fun d => get_prop d "docType" <> Ok (VStr mDL_docType)) documents) \/
  exists before after,
    documents = before ++ doc :: after /\
    get_prop doc "docType" = Ok (VStr mDL_docType) /\
    Forall (fun d => get_prop d "docType" <> Ok (VStr mDL_docType)) before.
Proof.
  induction documents as [|d documents IH]; cbn [find_mDL].
  - intros [= <-]. by left.
  - intros (docType & Hd & H)%bind_Ok.
    assert (Hrest : get_prop d "docType" <> Ok (VStr mDL_docType) ->
                    find_mDL documents = Ok doc ->
                    (doc = VUndefined /\
                     Forall (fun d => get_prop d "docType" <> Ok (VStr mDL_docType))
                       (d :: documents)) \/
                    exists before after,
                      d :: documents = before ++ doc :: after /\
                      get_prop doc "docType" = Ok (VStr mDL_docType) /\
                      Forall (fun d => get_prop d "docType" <> Ok (VStr mDL_docType)) before).
    { intros Hne [[-> Hall]|(before & after & -> & Hdoc & Hb)]%IH.
      - left. split; [done|]. by constructor.
      - right. exists (d :: before), after. split; [done|]. split; [done|]. by constructor. }
    destruct docType as [| | | |s| | | | |]; try (apply Hrest; [congruence|done]).
    destruct (String.eqb_spec s mDL_docType) as [->|Hne].
    + injection H as <-. right. by exists [], documents.
    + apply Hrest; [congruence|done].
Qed.

Section DeviceResponseFacts.
Context {cborg : Cborg}.

Lemma parse_item_Ok (itemBytes : JsVal) (item : RawIssuerSignedItem) :
  parse_item itemBytes = Ok item ->
  itemBytes = VBytes (rawBytes item) /\
  exists decoded,
    decode (rawBytes item) = Ok decoded /\
    get_prop decoded "digestID" = Ok (VNum (digestID item)) /\
    get_prop decoded "random" = Ok (VBytes (random item)) /\
    get_prop decoded "elementIdentifier" = Ok (VStr (elementIdentifier item)) /\
    get_prop decoded "elementValue" = Ok (elementValue item).
Proof.
  unfold parse_item. intros (bytes & Hb & H)%bind_Ok.
  apply bind_Ok in H as (decoded & Hd & H).
  apply bind_Ok in H as (d & Hdi & H). apply bind_Ok in H as (r & Hr & H).
  apply bind_Ok in H as (e & He & H). apply bind_Ok in H as (v & Hv & H).
  apply bind_Ok in H as (d' & Hd' & H). apply bind_Ok in H as (r' & Hr' & H).
  apply bind_Ok in H as (e' & He' & [= <-]). cbn.
  destruct itemBytes; try done. injection Hb as ->.
  destruct d; try done. injection Hd' as ->.
  destruct r; try done. injection Hr' as ->.
  destruct e; try done. injection He' as ->.
  split; [done|]. by exists decoded.
Qed.

Lemma map_items_Ok (itemsBytes : list JsVal) (items : list RawIssuerSignedItem) :
  map_items itemsBytes = Ok items ->
  Forall2 (fun itemBytes item => parse_item itemBytes = Ok item) itemsBytes items.
Proof.
  revert items. induction itemsBytes as [|b bs IH]; intros items; cbn [map_items].
  - intros [= <-]. constructor.
  - intros (item & Hi & H)%bind_Ok. apply bind_Ok in H as (rest & Hr & [= <-]).
    constructor; [done|by apply IH].
Qed.

(** X17: what a successful [parseDeviceResponse] returns: the data of the
    first document whose [docType] is the mDL type, other documents being
    skipped; one item for each element of its [org.iso.18013.5.1]
    namespace, in the same order, whose [rawBytes] are the element's bytes
    as received and whose other fields are read from the decoding of these
    bytes; and the [issuerAuth] bytes as received. *)
Theorem parseDeviceResponse_keeps_item_bytes (deviceResponse : JsVal)
    (raw : RawCredentialResponse) :
  parseDeviceResponse deviceResponse = Ok raw ->
  exists before doc after issuerSigned nameSpaces items,
    get_prop deviceResponse "documents" = Ok (VArr (before ++ doc :: after)) /\
    get_prop doc "docType" = Ok (VStr mDL_docType) /\
    Forall (fun d => get_prop d "docType" <> Ok (VStr mDL_docType)) before /\
    get_prop doc "issuerSigned" = Ok issuerSigned /\
    get_prop issuerSigned "nameSpaces" = Ok nameSpaces /\
    namespaces raw = Some items /\
    get_prop nameSpaces "org.iso.18013.5.1"
    = Ok (VArr (map (fun item => VBytes (rawBytes item)) items)) /\
    Forall (fun item =>
              exists decoded,
                decode (rawBytes item) = Ok decoded /\
                get_prop decoded "digestID" = Ok (VNum (digestID item)) /\
                get_prop decoded "random" = Ok (VBytes (random item)) /\
                get_prop decoded "elementIdentifier" = Ok (VStr (elementIdentifier item)) /\
                get_prop decoded "elementValue" = Ok (elementValue item)) items /\
    (get_prop issuerSigned "issuerAuth" = Ok (VBytes (issuerAuth raw)) \/
     exists value,
       get_prop issuerSigned "issuerAuth" = Ok value /\
       encode value = Ok (issuerAuth raw)).
Proof.
  unfold parseDeviceResponse. intros (documents & Hdocs & H)%bind_Ok.
  destruct documents as [| | | | | |docs| | |]; try done.
  destruct docs as [|d ds]; [done|].
  apply bind_Ok in H as (doc & Hfind & H).
  destruct (js_truthy doc) eqn:Hdoc; [|done]. cbn [negb] in H.
  apply bind_Ok in H as (issuerSigned & His & H).
  destruct (js_truthy issuerSigned); [|done]. cbn [negb] in H.
  apply bind_Ok in H as (auth & Hauth & H).
  destruct (js_truthy auth); [|done]. cbn [negb] in H.
  apply bind_Ok in H as (nameSpaces & Hns & H).
  destruct (js_truthy nameSpaces); [|done]. cbn [negb] in H.
  apply bind_Ok in H as (mdl & Hmdl & H).
  destruct mdl as [| | | | | |itemsBytes| | |]; try done.
  apply bind_Ok in H as (items & Hitems & H).
  apply bind_Ok in H as (authBytes & Hab & [= <-]). cbn [namespaces issuerAuth].
  apply find_mDL_Ok in Hfind as [[-> _]|(before & after & Hd & Hdt & Hb)]; [done|].
  apply map_items_Ok in Hitems.
  exists before, doc, after, issuerSigned, nameSpaces, items.
  rewrite <- Hd. split; [done|]. split; [done|]. split; [done|]. split; [done|].
  split; [done|]. split; [done|]. split; [|split].
  - rewrite Hmdl. do 2 f_equal. clear -Hitems.
    induction Hitems as [|b item bs items Hp _ IH]; [done|].
    cbn. apply parse_item_Ok in Hp as [-> _]. by rewrite IH.
  - clear -Hitems. induction Hitems as [|b item bs items Hp _ IH]; constructor; [|done].
    by apply parse_item_Ok in Hp as [_ ?].
  - destruct auth; try (right; eexists; split; [done|exact Hab]).
    left. by injection Hab as ->.
Qed.

Lemma parse_item_Throw (itemBytes : JsVal) (t : Thrown) :
  parse_item itemBytes = Throw t -> exists name message, t = JsError name message.
Proof.
  unfold parse_item.
  assert (Hc : forall v t', as_Uint8Array v = Throw t' -> exists n m, t' = JsError n m).
  { intros v t'. destruct v; cbn; try done; intros [= <-]; by eexists _, _. }
  assert (Hg : forall v name t', get_prop v name = Throw t' -> exists n m, t' = JsError n m).
  { intros v name t'. destruct v; cbn; try done; intros [= <-]; by eexists _, _. }
  intros [?|(bytes & _ & H)]%bind_Throw; [by eapply Hc|].
  apply bind_Throw in H as [?%library_call_Throw|(decoded & _ & H)]; [done|].
  apply bind_Throw in H as [?|(d & _ & H)]; [by eapply Hg|].
  apply bind_Throw in H as [?|(r & _ & H)]; [by eapply Hg|].
  apply bind_Throw in H as [?|(e & _ & H)]; [by eapply Hg|].
  apply bind_Throw in H as [?|(v & _ & H)]; [by eapply Hg|].
  apply bind_Throw in H as [H|(d' & _ & H)].
  { destruct d; cbn in H; try done; injection H as <-; by eexists _, _. }
  apply bind_Throw in H as [?|(r' & _ & H)]; [by eapply Hc|].
  apply bind_Throw in H as [H|(e' & _ & H)]; [|done].
  destruct e; cbn in H; try done; injection H as <-; by eexists _, _.
Qed.

Lemma map_items_Throw (itemsBytes : list JsVal) (t : Thrown) :
  map_items itemsBytes = Throw t -> exists name message, t = JsError name message.
Proof.
  induction itemsBytes as [|b bs IH]; cbn [map_items]; [done|].
  intros [?%parse_item_Throw|(item & _ & H)]%bind_Throw; [done|].
  apply bind_Throw in H as [?|(rest & _ & ?)]; [by apply IH|done].
Qed.

Lemma find_mDL_Throw (documents : list JsVal) (t : Thrown) :
  find_mDL documents = Throw t -> exists name message, t = JsError name message.
Proof.
  induction documents as [|d ds IH]; cbn [find_mDL]; [done|].
  intros [H|(docType & _ & H)]%bind_Throw.
  - destruct d; cbn in H; try done; injection H as <-; by eexists _, _.
  - destruct docType as [| | | |s| | | | |]; try by apply IH.
    destruct (String.eqb s mDL_docType); [done|by apply IH].
Qed.

Lemma parseDeviceResponse_Throw (deviceResponse : JsVal) (error : Thrown) :
  parseDeviceResponse deviceResponse = Throw error ->
  (exists message,
     error = CredentialError message PARSE_ERROR /\
     message ∈ [ "No documents in DeviceResponse";
                 "No mDL document in DeviceResponse";
                 "No issuerSigned in document";
                 "No issuerAuth in issuerSigned";
                 "No nameSpaces in issuerSigned";
                 "No org.iso.18013.5.1 namespace in response" ]%string) \/
  exists name message, error = JsError name message.
Proof.
  intros H.
  assert (Hg : forall v name t', get_prop v name = Throw t' -> exists n m, t' = JsError n m).
  { intros v name t'. destruct v; cbn; try done; intros [= <-]; by eexists _, _. }
  assert (Hm : forall message,
             message ∈ [ "No documents in DeviceResponse";
                         "No mDL document in DeviceResponse";
                         "No issuerSigned in document";
                         "No issuerAuth in issuerSigned";
                         "No nameSpaces in issuerSigned";
                         "No org.iso.18013.5.1 namespace in response" ]%string ->
             forall A, Throw (A := A) (parse_error message) = Throw error ->
             (exists message,
                error = CredentialError message PARSE_ERROR /\
                message ∈ [ "No documents in DeviceResponse";
                            "No mDL document in DeviceResponse";
                            "No issuerSigned in document";
                            "No issuerAuth in issuerSigned";
                            "No nameSpaces in issuerSigned";
                            "No org.iso.18013.5.1 namespace in response" ]%string) \/
             exists name message, error = JsError name message).
  { intros message Hin A [= <-]. left. by exists message. }
  unfold parseDeviceResponse in H.
  apply bind_Throw in H as [?|(documents & _ & H)]; [right; by eapply Hg|].
  destruct documents as [| | | | | |docs| | |];
    try (revert H; apply Hm; repeat constructor).
  destruct docs as [|d ds]; [revert H; apply Hm; repeat constructor|].
  apply bind_Throw in H as [?%find_mDL_Throw|(doc & _ & H)]; [by right|].
  destruct (js_truthy doc); cbn [negb] in H; [|revert H; apply Hm; repeat constructor].
  apply bind_Throw in H as [?|(issuerSigned & _ & H)]; [right; by eapply Hg|].
  destruct (js_truthy issuerSigned); cbn [negb] in H;
    [|revert H; apply Hm; repeat constructor].
  apply bind_Throw in H as [?|(auth & _ & H)]; [right; by eapply Hg|].
  destruct (js_truthy auth); cbn [negb] in H; [|revert H; apply Hm; repeat constructor].
  apply bind_Throw in H as [?|(nameSpaces & _ & H)]; [right; by eapply Hg|].
  destruct (js_truthy nameSpaces); cbn [negb] in H;
    [|revert H; apply Hm; repeat constructor].
  apply bind_Throw in H as [?|(mdl & _ & H)]; [right; by eapply Hg|].
  destruct mdl as [| | | | | |itemsBytes| | |];
    try (revert H; apply Hm; repeat constructor).
  apply bind_Throw in H as [?%map_items_Throw|(items & _ & H)]; [by right|].
  apply bind_Throw in H as [H|(authBytes & _ & H)]; [|done].
  right. destruct auth; try (by apply library_call_Throw in H). done.
Qed.

(** X18: how [parseDeviceResponse] fails: with a [PARSE_ERROR] that names the
    first part found missing, or with an [Error] that is not a
    [CredentialError] (a [TypeError] for a [null] or [undefined] response,
    document, or item, or the decoder's error for an item). A response
    without a non-empty [documents] array gives the first of these
    messages. *)
Theorem parseDeviceResponse_failure_kinds (deviceResponse : JsVal) :
  match parseDeviceResponse deviceResponse with
  | Ok _ => True
  | Throw error =>
      (exists message,
         error = CredentialError message PARSE_ERROR /\
         message ∈ [ "No documents in DeviceResponse";
                     "No mDL document in DeviceResponse";
                     "No issuerSigned in document";
                     "No issuerAuth in issuerSigned";
                     "No nameSpaces in issuerSigned";
                     "No org.iso.18013.5.1 namespace in response" ]%string) \/
      exists name message, error = JsError name message
  end /\
  (is_nullish deviceResponse = true ->
   parseDeviceResponse deviceResponse
   = Throw (TypeError "Cannot read properties of null or undefined")) /\
  (forall props,
     deviceResponse = VObj props ->
     (forall d ds, obj_lookup props "documents" <> VArr (d :: ds)) ->
     parseDeviceResponse deviceResponse
     = Throw (CredentialError "No documents in DeviceResponse" PARSE_ERROR)).
Proof.
  split; [|split].
  - destruct (parseDeviceResponse deviceResponse) as [raw|error] eqn:H; [done|].
    by apply (parseDeviceResponse_Throw deviceResponse).
  - intros Hn. by destruct deviceResponse.
  - intros props -> Hno. unfold parseDeviceResponse. cbn [get_prop mbind result_bind].
    destruct (obj_lookup props "documents") as [| | | | | |docs| | |]; try done.
    destruct docs as [|d ds]; [done|]. by destruct (Hno d ds).
Qed.
End DeviceResponseFacts.

(** X17 (witness): the theorem at [example_deviceResponse], which
    [parseDeviceResponse] turns into [example_raw]. *)
Lemma parseDeviceResponse_keeps_item_bytes_witness :
  exists before doc after issuerSigned nameSpaces items,
    get_prop example_deviceResponse "documents" = Ok (VArr (before ++ doc :: after)) /\
    get_prop doc "docType" = Ok (VStr mDL_docType) /\
    Forall (fun d => get_prop d "docType" <> Ok (VStr mDL_docType)) before /\
    get_prop doc "issuerSigned" = Ok issuerSigned /\
    get_prop issuerSigned "nameSpaces" = Ok nameSpaces /\
    namespaces example_raw = Some items /\
    get_prop nameSpaces "org.iso.18013.5.1"
    = Ok (VArr (map (fun item => VBytes (rawBytes item)) items)) /\
    Forall (fun item =>
              exists decoded,
                @decode cborg_ref (rawBytes item) = Ok decoded /\
                get_prop decoded "digestID" = Ok (VNum (digestID item)) /\
                get_prop decoded "random" = Ok (VBytes (random item)) /\
                get_prop decoded "elementIdentifier" = Ok (VStr (elementIdentifier item)) /\
                get_prop decoded "elementValue" = Ok (elementValue item)) items /\
    (get_prop issuerSigned "issuerAuth" = Ok (VBytes (issuerAuth example_raw)) \/
     exists value,
       get_prop issuerSigned "issuerAuth" = Ok value /\
       @encode cborg_ref value = Ok (issuerAuth example_raw)).
Proof.
  apply (@parseDeviceResponse_keeps_item_bytes cborg_ref example_deviceResponse example_raw).
  by vm_compute.
Defined.

(** ** The mock credential *)

Lemma length_getRandomValues {platform : MockPlatform} (call : nat) (array : Uint8Array) :
  length (getRandomValues call array) = length array.
Proof. unfold getRandomValues. by rewrite length_map, length_seq. Qed.

Lemma padToSize_length (bytes padded : Uint8Array) (size : nat) :
  padToSize bytes size = Ok padded -> length padded = size.
Proof.
  rewrite padToSize_eq. intros [= <-].
  rewrite length_app, length_take, length_replicate. lia.
Qed.

(** X19: a mock credential has the widths of a parsed one: 512 bytes of
    metadata, a 64-byte signature, claims of 96, 96 and 107 bytes, a
    32-byte document number that holds the given string left-aligned, and
    32-byte key coordinates, whatever the options and whatever the
    encoder returns. [createMockCredential] fails only when the encoder
    does or when the expiry date is invalid, and then not with a
    [CredentialError]. *)
Theorem createMockCredential_widths {cborg : Cborg} {dates : DatePlatform}
    {platform : MockPlatform} (options : option MockOptions) :
  match createMockCredential options with
  | Ok credential =>
      length (msoBytes credential) = 512 /\
      length (msoSignature credential) = 64 /\
      length (ageOver21ClaimBytes credential) = 96 /\
      length (ageOver18ClaimBytes credential) = 96 /\
      length (stateClaimBytes credential) = 107 /\
      length (iacaPubkeyX credential) = 32 /\
      length (iacaPubkeyY credential) = 32 /\
      documentNumber credential
      = spec_left_aligned 32
          (take 32 (TextEncoder_encode
                      (default "D1234567"%string (options ≫= mock_documentNumber))))
  | Throw error => exists name message, error = JsError name message
  end.
Proof.
  destruct (createMockCredential options) as [credential|error] eqn:H.
  - unfold createMockCredential in H.
    repeat (apply bind_Ok in H as (? & ? & H)). injection H as <-.
    cbn [msoBytes msoSignature ageOver21ClaimBytes ageOver18ClaimBytes stateClaimBytes
         documentNumber iacaPubkeyX iacaPubkeyY].
    rewrite !length_getRandomValues. unfold Uint8Array_new. rewrite !length_replicate.
    repeat match goal with
           | Hp : padToSize _ _ = Ok _ |- _ => apply padToSize_length in Hp
           end.
    match goal with Hs : stringToBytes _ _ = Ok _ |- _ =>
      rewrite stringToBytes_eq in Hs; injection Hs as <- end.
    done.
  - unfold createMockCredential in H.
    assert (Hiso : forall d t, toISOString d = Throw t -> exists n m, t = JsError n m).
    { intros [time|] t; cbn; [done|]. intros [= <-]. by eexists _, _. }
    assert (Hpad : forall b n t, padToSize b n = Throw t -> exists nm m, t = JsError nm m).
    { intros b n t. by rewrite padToSize_eq. }
    repeat (apply bind_Throw in H as [H|(? & _ & H)];
            [first [by apply library_call_Throw in H | by eapply Hiso | by eapply Hpad]|]).
    apply bind_Throw in H as [H|(? & _ & H)]; [|done].
    by rewrite stringToBytes_eq in H.
Qed.

Section MockLayout.
Context {dates : DatePlatform} {platform : MockPlatform}.

(** The reference encoding of a mock claim whose value is a boolean. *)
Lemma mock_claim_bool_bytes (digest : Z) (call : nat) (identifier : string) (value : bool) :
  (0 <= digest < 24)%Z -> length (TextEncoder_encode identifier) = 11 ->
  exists claim,
    @encode cborg_ref (mock_claim digest call identifier (VBool value)) = Ok claim /\
    length claim = 96.
Proof.
  intros Hd Hl.
  assert (exists d, digest = Z.of_nat d /\ d < 24) as (d & -> & Hd').
  { exists (Z.to_nat digest). lia. }
  destruct (TextEncoder_encode identifier) as [|c0 [|c1 [|c2 [|c3 [|c4 [|c5 [|c6 [|c7 [|c8
    [|c9 [|c10 [|]]]]]]]]]]]] eqn:Hb; try done.
  unfold encode, mock_claim. cbn [cborg_encode cborg_ref CborRef.encode].
  rewrite Hb. clear Hb Hl Hd.
  do 24 (destruct d as [|d];
    [destruct value; (eexists; split; [vm_compute; reflexivity|done])|]).
  lia.
Qed.

(** X20: under the reference encoder, whose maps are ordered by key length
    and then bytewise as cborg's are, the claims of the mock credential
    have their buffer widths exactly (96, 96 and 107 bytes for a state
    code of two bytes), so that nothing is padded or cut, and the state
    code lies at [STATE_CODE_OFFSET] of the state claim: witness assembly
    reads it back as the proven state. *)
Theorem mock_state_code_at_offset (options : option MockOptions) (a b : ascii)
    (expiry : Z) :
  default "CA"%string (options ≫= state) = String a (String b EmptyString) ->
  default (Date_parse "2030-01-01") (options ≫= expiryDate) = Some expiry ->
  exists credential over21 over18 stateClaim,
    @createMockCredential cborg_ref dates platform options = Ok credential /\
    @encode cborg_ref
      (mock_claim 0 0 "age_over_21" (VBool (default true (options ≫= ageOver21))))
    = Ok over21 /\
    ageOver21ClaimBytes credential = over21 /\
    @encode cborg_ref
      (mock_claim 2 1 "age_over_18" (VBool (default true (options ≫= ageOver18))))
    = Ok over18 /\
    ageOver18ClaimBytes credential = over18 /\
    @encode cborg_ref
      (mock_claim 1 2 "issuing_jurisdiction" (VStr (String a (String b EmptyString))))
    = Ok stateClaim /\
    stateClaimBytes credential = stateClaim /\
    stateClaimBytes credential !! STATE_CODE_OFFSET = Some (byte_of_ascii a) /\
    stateClaimBytes credential !! (STATE_CODE_OFFSET + 1) = Some (byte_of_ascii b) /\
    forall (bb : Barretenberg) (proofOptions : ProofGenerationOptions) (timestamp : Z)
           (witness : WitnessInputs),
      proveState proofOptions = Some true ->
      buildWitnessInputs credential proofOptions timestamp = Ok witness ->
      proven_state witness = [byte_of_ascii a; byte_of_ascii b].
Proof.
  intros Hstate Hexpiry. unfold createMockCredential. rewrite Hstate, Hexpiry.
  destruct (mock_claim_bool_bytes 0 0 "age_over_21" (default true (options ≫= ageOver21)))
    as (c21 & E21 & L21); [lia|done|].
  destruct (mock_claim_bool_bytes 2 1 "age_over_18" (default true (options ≫= ageOver18)))
    as (c18 & E18 & L18); [lia|done|].
  rewrite E21, E18. cbn [mbind result_bind].
  set (stateBytes :=
         [xa4; x66] ++ TextEncoder_encode "random" ++ [x58; x20]
         ++ getRandomValues 2 (Uint8Array_new 32)
         ++ [x68] ++ TextEncoder_encode "digestID" ++ [x01]
         ++ [x6c] ++ TextEncoder_encode "elementValue"
         ++ [x62; byte_of_ascii a; byte_of_ascii b]
         ++ [x71] ++ TextEncoder_encode "elementIdentifier"
         ++ [x74] ++ TextEncoder_encode "issuing_jurisdiction").
  assert (Est : @encode cborg_ref
                  (mock_claim 1 2 "issuing_jurisdiction" (VStr (String a (String b EmptyString))))
                = Ok stateBytes).
  { subst stateBytes. vm_compute. reflexivity. }
  assert (Lst : length stateBytes = 107) by reflexivity.
  assert (H66 : stateBytes !! STATE_CODE_OFFSET = Some (byte_of_ascii a)) by reflexivity.
  assert (H67 : stateBytes !! (STATE_CODE_OFFSET + 1) = Some (byte_of_ascii b)) by reflexivity.
  clearbody stateBytes.
  rewrite Est. cbn [mbind result_bind toISOString].
  match goal with |- context [@encode cborg_ref ?v] =>
    let r := eval hnf in (@encode cborg_ref v) in
    change (@encode cborg_ref v) with r end.
  cbn [mbind result_bind]. rewrite !padToSize_eq, stringToBytes_eq.
  cbn [mbind result_bind].
  assert (Hfit : forall n (bs : Uint8Array), length bs = n ->
                   take n bs ++ replicate (n - length bs) x00 = bs).
  { intros n bs <-. by rewrite take_ge, Nat.sub_diag, app_nil_r by lia. }
  rewrite (Hfit 96 c21), (Hfit 96 c18), (Hfit 107 stateBytes) by done.
  eexists _, c21, c18, stateBytes. split; [reflexivity|].
  cbn [ageOver21ClaimBytes ageOver18ClaimBytes stateClaimBytes].
  split; [done|]. split; [done|]. split; [done|]. split; [done|].
  split; [done|]. split; [done|].
  split; [done|]. split; [done|].
  intros bb proofOptions timestamp witness Hp Hw.
  unfold buildWitnessInputs in Hw.
  apply bind_Ok in Hw as (root & _ & Hw). apply bind_Ok in Hw as (eid & _ & Hw).
  apply bind_Ok in Hw as (nul & _ & [= <-]).
  cbn [proven_state stateClaimBytes].
  by rewrite Hp, H66, (H67 : stateBytes !! 67 = _).
Qed.
End MockLayout.

(** X20 (witness): the theorem for the default state, ["CA"]. *)
Lemma mock_state_code_at_offset_witness :
  exists credential over21 over18 stateClaim,
    @createMockCredential cborg_ref example_dates example_mock_platform
      (Some example_mock_options) = Ok credential /\
    @encode cborg_ref (@mock_claim example_mock_platform 0 0 "age_over_21" (VBool true)) = Ok over21 /\
    ageOver21ClaimBytes credential = over21 /\
    @encode cborg_ref (@mock_claim example_mock_platform 2 1 "age_over_18" (VBool true)) = Ok over18 /\
    ageOver18ClaimBytes credential = over18 /\
    @encode cborg_ref (@mock_claim example_mock_platform 1 2 "issuing_jurisdiction" (VStr "CA")) = Ok stateClaim /\
    stateClaimBytes credential = stateClaim /\
    stateClaimBytes credential !! STATE_CODE_OFFSET = Some x43 /\
    stateClaimBytes credential !! (STATE_CODE_OFFSET + 1) = Some x41 /\
    forall (bb : Barretenberg) (proofOptions : ProofGenerationOptions) (timestamp : Z)
           (witness : WitnessInputs),
      proveState proofOptions = Some true ->
      buildWitnessInputs credential proofOptions timestamp = Ok witness ->
      proven_state witness = [x43; x41].
Proof.
  apply (@mock_state_code_at_offset example_dates example_mock_platform
           (Some example_mock_options) "C" "A" 1893456000000); reflexivity.
Defined.

(** ** Requesting a credential: how it fails *)

Lemma request_elements_unknown (before after : list string) (claim : string)
    (elements : list (string * JsVal)) :
  Forall (fun c => c ∈ claim_types) before -> claim ∉ claim_types ->
  request_elements (before ++ claim :: after) elements
  = Throw (CredentialError ("Unknown claim type: " ++ claim) INVALID_CLAIM).
Proof.
  intros Hb Hc. revert elements. induction Hb as [|c before Hin _ IH]; intros elements.
  - cbn. by rewrite mapClaimToElement_eq, decide_False.
  - cbn. rewrite mapClaimToElement_eq, decide_True by done. apply IH.
Qed.

Lemma buildNameSpaces_Throw (claims : list string) (t : Thrown) :
  buildNameSpaces claims = Throw t ->
  exists message, t = CredentialError message INVALID_CLAIM.
Proof.
  unfold buildNameSpaces.
  pose proof (request_elements_spec claims [] NoDup_nil_2 (Forall_nil_2 _)) as H.
  destruct (request_elements claims []) as [elements|error]; cbn [mbind result_bind]; [done|].
  destruct H as (_ & claim & _ & _ & _ & _ & ->). intros [= <-]. by eexists.
Qed.

(** The codes of the errors that a request can end with. *)
Section RequestFacts.
Context {subtle : WebCrypto} {cborg : Cborg} {browser : Browser}.

Lemma navigator_credentials_get_Throw (request : JsVal) (t : Thrown) :
  navigator_credentials_get request = Throw t -> exists name message, t = JsError name message.
Proof.
  unfold navigator_credentials_get.
  destruct navigator as [| |[[|[[|call]|]]|]];
    try (intros [= <-]; by eexists _, _).
  by intros ?%library_call_Throw.
Qed.

Lemma request_steps_Throw (claims : list string) (t : Thrown) :
  request_steps claims = Throw t ->
  (exists message code,
     t = CredentialError message code /\
     (code = INVALID_CLAIM \/ code = NO_CREDENTIAL \/ code = PARSE_ERROR)) \/
  exists name message, t = JsError name message.
Proof.
  assert (Hg : forall v name t', get_prop v name = Throw t' -> exists n m, t' = JsError n m).
  { intros v name t'. destruct v; cbn; try done; intros [= <-]; by eexists _, _. }
  unfold request_steps. intros H.
  apply bind_Throw in H as [H|(deviceRequest & _ & H)].
  { unfold buildDeviceRequest in H.
    apply bind_Throw in H as [(m & ->)%buildNameSpaces_Throw|(? & _ & H)].
    { left. exists m, INVALID_CLAIM. auto. }
    right.
    repeat (apply bind_Throw in H as [H%library_call_Throw|(? & _ & H)]; [done|]).
    by apply library_call_Throw in H. }
  apply bind_Throw in H as [H|([session encryptionInfo] & _ & H)].
  { right. unfold createHPKESession in H.
    apply bind_Throw in H as [H%library_call_Throw|([pk sk] & _ & H)]; [done|].
    apply bind_Throw in H as [H%library_call_Throw|(? & _ & H)]; [done|].
    apply bind_Throw in H as [H%library_call_Throw|(? & _ & H)]; done. }
  apply bind_Throw in H as [H%library_call_Throw|(d64 & _ & H)]; [by right|].
  apply bind_Throw in H as [H%library_call_Throw|(e64 & _ & H)]; [by right|].
  apply bind_Throw in H as [H%navigator_credentials_get_Throw|(credential & _ & H)];
    [by right|].
  destruct (js_truthy credential); cbn [negb] in H;
    [|injection H as <-; left; eexists _, _; auto].
  apply bind_Throw in H as [H|(data & _ & H)]; [right; by eapply Hg|].
  apply bind_Throw in H as [H|(rawResponse & _ & H)].
  { right. destruct (is_nullish data); [by eapply Hg|done]. }
  destruct (js_truthy rawResponse); cbn [negb] in H;
    [|injection H as <-; left; eexists _, _; auto].
  apply bind_Throw in H as [H|(ep & _ & H)]; [right; by eapply Hg|].
  destruct (js_truthy ep); [|done].
  apply bind_Throw in H as [H|(data' & _ & H)]; [right; by eapply Hg|].
  destruct (js_truthy data'); [|done].
  apply bind_Throw in H as [H|(decryptedBytes & _ & H)].
  { unfold decrypt_received, try_catch in H.
    destruct (decrypt_received_steps _ _ _); [done|].
    injection H as <-. left. eexists _, _. auto. }
  apply bind_Throw in H as [H%library_call_Throw|(deviceResponse & _ & H)]; [by right|].
  apply bind_Throw in H as [H|(raw & _ & H)]; [|done].
  apply parseDeviceResponse_Throw in H as [(m & -> & _)|?]; [|by right].
  left. eexists _, _. auto.
Qed.

(** X21: a failure of [requestCredential] is a [CredentialError] whose
    code is one of [NOT_SUPPORTED], [USER_CANCELLED], [NO_CREDENTIAL],
    [PARSE_ERROR], [INVALID_CLAIM] and [UNKNOWN], never [EXPIRED], or it
    is the [TypeError] of the support check, which stands before the [try]
    block: where [navigator] has a [credentials] property whose value is
    not an object, [requestCredential] throws that [TypeError] and no
    [CredentialError]. Where the support check returns [false] the
    failure is [NOT_SUPPORTED]. Where it returns [true], a claim outside
    the claim types fails the request with [INVALID_CLAIM] before the
    wallet is asked, and an encrypted response whose key or data is not a
    byte string fails with [PARSE_ERROR]. An error whose message contains
    [No supported document requests] is reported as [NO_CREDENTIAL], also
    when it is a [DOMException] named [NotAllowedError]; otherwise such a
    [DOMException] is reported as [USER_CANCELLED]. *)
Theorem requestCredential_error_codes (claims : list string) :
  match requestCredential claims with
  | Ok _ => True
  | Throw error =>
      (exists message code,
         error = CredentialError message code /\
         code ∈ [NOT_SUPPORTED; USER_CANCELLED; NO_CREDENTIAL; PARSE_ERROR;
                 INVALID_CLAIM; UNKNOWN]) \/
      (error = in_operator_error /\ isDigitalCredentialsSupported = Throw error)
  end /\
  (navigator = navigator_object (Some credentials_not_object) ->
   requestCredential claims = Throw in_operator_error) /\
  (isDigitalCredentialsSupported = Ok false ->
   exists message, requestCredential claims = Throw (CredentialError message NOT_SUPPORTED)) /\
  (forall before claim after,
     isDigitalCredentialsSupported = Ok true ->
     claims = before ++ claim :: after ->
     Forall (fun c => c ∈ claim_types) before -> claim ∉ claim_types ->
     requestCredential claims
     = Throw (CredentialError ("Unknown claim type: " ++ claim) INVALID_CLAIM)) /\
  (forall encryptionParameters data session,
     match get_prop encryptionParameters "EDeviceKey", data with
     | Ok (VBytes enc), VBytes ciphertext =>
         decrypt_received encryptionParameters data session
         = decryptCredentialResponse
             {| version := EmptyString;
                encryptionParameters :=
                  {| ep_version := EmptyString; EDeviceKey := enc; originInfoBytes := [] |};
                data := ciphertext |}
             session
     | _, _ =>
         exists message,
           decrypt_received encryptionParameters data session
           = Throw (CredentialError message PARSE_ERROR)
     end) /\
  (forall name message,
     String_includes message "No supported document requests" = true ->
     exists text, request_catch (JsError name message) = CredentialError text NO_CREDENTIAL) /\
  (forall message,
     String_includes message "No supported document requests" = false ->
     instanceof_DOMException "NotAllowedError" message = true ->
     request_catch (JsError "NotAllowedError" message)
     = CredentialError "User declined the credential request" USER_CANCELLED).
Proof.
  split; [|split; [|split; [|split; [|split; [|split]]]]].
  - unfold requestCredential.
    destruct isDigitalCredentialsSupported as [[|]|t] eqn:Hs; cbn [mbind result_bind negb].
    + unfold try_catch. destruct (request_steps claims) as [r|t] eqn:H; [done|].
      left. apply request_steps_Throw in H
        as [(m & code & -> & Hcode)|(name & m & ->)].
      * exists m, code. split; [done|].
        destruct Hcode as [-> |[-> | ->]]; repeat constructor.
      * unfold request_catch. cbn [is_CredentialError].
        repeat (match goal with |- context [if ?b then _ else _] => destruct b end);
          eexists _, _; (split; [reflexivity|repeat constructor]).
    + left. eexists _, _. split; [reflexivity|repeat constructor].
    + right. split; [|done]. revert Hs. unfold isDigitalCredentialsSupported.
      by destruct navigator as [| |[[|[[|call]|]]|]]; intros [= <-].
  - intros Hn. unfold requestCredential, isDigitalCredentialsSupported. by rewrite Hn.
  - intros Hno. unfold requestCredential. rewrite Hno. by eexists.
  - intros before claim after Hsup -> Hb Hc. unfold requestCredential. rewrite Hsup.
    cbn [mbind result_bind negb].
    unfold request_steps, buildDeviceRequest, buildNameSpaces.
    by rewrite request_elements_unknown.
  - intros encryptionParameters data session.
    unfold decrypt_received, decrypt_received_steps, try_catch.
    destruct (get_prop encryptionParameters "EDeviceKey") as [enc|cause]; [|by eexists].
    cbn [mbind result_bind].
    destruct enc as [| | | | |enc| | | |].
    6: { destruct data as [| | | | |ciphertext| | | |]; [..|done| | | |];
           (destruct (buildSessionTranscript session enc); [|by eexists]);
           cbn [mbind result_bind];
           (destruct (decap enc _ _); [|by eexists]); cbn [mbind result_bind];
           (destruct (keyScheduleR _ _) as [[key baseNonce]|]; [|by eexists]);
           cbn [mbind result_bind];
           destruct (importKey AES_GCM key); by eexists. }
    all: destruct data;
      (destruct (encode (VObj [("origin"%string, _)])); [|by eexists]);
      cbn [mbind result_bind];
      (destruct (encode (VObj [])); [|by eexists]); cbn [mbind result_bind];
      destruct (encode (VArr _)); by eexists.
  - intros name message Hi. unfold request_catch. cbn [is_CredentialError error_message].
    rewrite Hi. by eexists.
  - intros message Hi Hdom. unfold request_catch.
    cbn [is_CredentialError error_message is_DOMException error_name]. by rewrite Hi, Hdom.
Qed.
End RequestFacts.
